(** * newCis: schema normalisation, naming and ordering, verified against the source

    A shallow embedding of the parts of [src/cli.ts] and
    [src/utils/apifox.ts] that resolve category ids, order generated fragments,
    normalise JSON-Schema trees, reach into them, synthesise type
    declarations and derive identifiers; of the request and response
    schemas, the path parameters, the base path, the output paths and the
    index lines of the generator; of the export served by
    [src/ApifoxToYApiServer.ts]; and of [dedent] of [src/vutils/function.ts].

    Conventions of the embedding.
    - JavaScript numbers that the code uses as integers (ids, indices,
      weights) are [Z]; no arithmetic in the modelled code leaves the
      range in which doubles are exact.
    - JavaScript strings are [string]; [toLowerCase] and [trim] are
      modelled on ASCII.
    - An object used as a dictionary is an association list of its own
      keys in insertion order.  Where the code reads [obj[key]] or writes
      [obj[key] = v] under a name it does not choose, the prototype has
      its say: a read finds the members of [Object.prototype] under names
      that are no own key ([readMember]), and a write under ["__proto__"]
      adds no own key ([setMember]).  A prototype that such a write has
      replaced is not followed.
    - The [type] of a schema node holds type names; a value that is no
      name, which the code can leave there ([mappedType]), has no place
      in it, and the results that speak of type names say for which
      names they hold.
    - A property holding [undefined] is not distinguished from an absent
      property.
    - A regular expression is a structurally recursive scanner that
      matches where the expression does.
    - Functions of libraries and of Node ([path.resolve], [path.relative],
      [JSON.parse], [toJsonSchema], [pascalCase], the type compiler) are
      parameters of the functions that call them; so is the rewriting of a
      Mock.js template, which no result below looks into. *)

From Stdlib Require Import ZArith List String Ascii Bool Lia Arith.
From Stdlib Require Import Permutation Sorted.
From Stdlib Require Import DecimalString DecimalZ.
Import ListNotations.

Local Open Scope string_scope.
Local Open Scope list_scope.
Local Open Scope Z_scope.

Set Implicit Arguments.
Set Warnings "-register-all".

(** ** Shared JavaScript helpers *)

(** [OneOrMore<T> = T | T[]] of [vutils/type.ts]. *)
Inductive OneOrMore (T : Type) : Type :=
| One (x : T)
| More (xs : list T).
Arguments One {T} x.
Arguments More {T} xs.

(** lodash [castArray]. *)
Definition castArray {T : Type} (v : OneOrMore T) : list T :=
  match v with
  | One x => [x]
  | More xs => xs
  end.

(** [Array.prototype.sort(comparator)].  The comparator may mutate the two
    elements it is handed, so it returns them next to its number.  The
    engine's algorithm is modelled by a stable insertion sort: the element
    is placed before the first element it does not compare greater than. *)
Section ArraySort.
Variable A : Type.
Variable comparator : A -> A -> Z * (A * A).

Fixpoint sortInsert (x : A) (l : list A) : list A :=
  match l with
  | [] => [x]
  | y :: l' =>
      let '(w, (x', y')) := comparator x y in
      if w <=? 0 then x' :: y' :: l' else y' :: sortInsert x' l'
  end.

Definition Array_sort (l : list A) : list A :=
  fold_right sortInsert [] l.
End ArraySort.

(** ** Category resolution ([Generator.generate]) *)

(** [Number.prototype.toString] on an integer. *)
Definition Number_toString (n : Z) : string :=
  NilEmpty.string_of_int (Z.to_int n).

(** The comparison [Array.prototype.sort] uses when no comparator is given:
    both elements are converted to strings and compared by code unit. *)
Definition defaultSortCompare (x y : Z) : Z * (Z * Z) :=
  let xs := Number_toString x in
  let ys := Number_toString y in
  ((if String.ltb xs ys then -1 else if String.ltb ys xs then 1 else 0), (x, y)).

(** [Array.prototype.includes] on numbers. *)
Definition includes (l : list Z) (v : Z) : bool :=
  existsb (Z.eqb v) l.

(** lodash [uniq]: the first occurrence of every value, in order. *)
Definition uniq (l : list Z) : list Z :=
  fold_left (fun res v => if includes res v then res else res ++ [v]) l [].

(** A category of the fetched project ([projectInfo.cats]). *)
Record Category : Type := { _id : Z; catName : string }.

(** The body of the per-category callback of [generate], up to the sort:
    [id] is [categoryConfig.id], [cats] is [projectInfo.cats].  ([push]
    appends to the configured array itself; what it appends are category
    ids of a project, which a later run over the same configuration checks
    against the categories of its own project.) *)
Definition resolveCategoryIds (id : OneOrMore Z) (cats : list Category) : list Z :=
  let categoryIds := castArray id in
  let categoryIds :=
    if includes categoryIds 0 then categoryIds ++ map _id cats else categoryIds in
  let categoryIds := uniq categoryIds in
  let excludedCategoryIds := map Z.abs (filter (fun id => id <? 0) categoryIds) in
  let categoryIds :=
    filter (fun id => negb (includes excludedCategoryIds (Z.abs id))) categoryIds in
  let categoryIds :=
    filter (fun id => existsb (fun cat => _id cat =? id) cats) categoryIds in
  Array_sort defaultSortCompare categoryIds.

(** The list the exclusions and the lookup work on: the configured ids,
    followed by every category id of the project when [0] is configured. *)
Definition expandedCategoryIds (id : OneOrMore Z) (cats : list Category) : list Z :=
  if includes (castArray id) 0 then castArray id ++ map _id cats else castArray id.

(** ** Weight ordering ([sortByWeights]) *)

(** [T extends { weights: number[] }]: the weights and the rest of the item. *)
Record Weighted (T : Type) : Type := { weights : list Z; item : T }.

(** [x.weights.push(...new Array(n).fill(0))]. *)
Definition pushZeros {T : Type} (x : Weighted T) (n : nat) : Weighted T :=
  {| weights := weights x ++ repeat 0 n; item := item x |}.

(** The [reduce] of the comparator: the first non-zero [a[i] - b[i]]. *)
Definition firstDifference (a b : list Z) : Z :=
  fold_left (fun w i => if w =? 0 then nth i a 0 - nth i b 0 else w)
            (seq 0 (List.length a)) 0.

(** The comparator handed to [list.sort]. *)
Definition compareWeights {T : Type} (a b : Weighted T)
  : Z * (Weighted T * Weighted T) :=
  let la := List.length (weights a) in
  let lb := List.length (weights b) in
  let minLen := Nat.min la lb in
  let maxLen := Nat.max la lb in
  let '(a', b') :=
    if (lb <? la)%nat then (a, pushZeros b (maxLen - minLen))
    else (pushZeros a (maxLen - minLen), b) in
  (firstDifference (weights a') (weights b'), (a', b')).

Definition sortByWeights {T : Type} (l : list (Weighted T)) : list (Weighted T) :=
  Array_sort compareWeights l.

(** Zero-padded lexicographic order on weight vectors, stated on positions:
    reading past the end of a vector yields [0]. *)
Definition lexLt (u v : list Z) : Prop :=
  exists k : nat,
    (forall i : nat, (i < k)%nat -> nth i u 0 = nth i v 0) /\ nth k u 0 < nth k v 0.

(** [r] is [o] after the comparator padded it: same item, trailing zeros added. *)
Definition Padded {T : Type} (o r : Weighted T) : Prop :=
  item r = item o /\ exists k : nat, weights r = weights o ++ repeat 0 k.

(** Two vectors that agree at every position once read with default [0]. *)
Definition sameWeights (u v : list Z) : Prop :=
  forall i : nat, nth i u 0 = nth i v 0.

(** [a] is not after [b]: [b]'s vector is not smaller than [a]'s. *)
Definition notAfter {T : Type} (a b : Weighted T) : Prop :=
  ~ lexLt (weights b) (weights a).

(** [r] holds the elements of [l] in some order, each possibly padded. *)
Definition PaddedPermutation {T : Type} (l r : list (Weighted T)) : Prop :=
  exists l' : list (Weighted T), Permutation l l' /\ Forall2 Padded l' r.

(** ** Strings *)

Definition charCode (c : ascii) : N := N_of_ascii c.

Definition isUpper (c : ascii) : bool := (65 <=? charCode c)%N && (charCode c <=? 90)%N.
Definition isLower (c : ascii) : bool := (97 <=? charCode c)%N && (charCode c <=? 122)%N.
Definition isDigit (c : ascii) : bool := (48 <=? charCode c)%N && (charCode c <=? 57)%N.
Definition isAlnum (c : ascii) : bool := isUpper c || isLower c || isDigit c.

(** White space and line terminators that [trim] removes (ASCII part). *)
Definition isSpace (c : ascii) : bool :=
  ((9 <=? charCode c)%N && (charCode c <=? 13)%N) || (charCode c =? 32)%N.

Definition toLowerChar (c : ascii) : ascii :=
  if isUpper c then ascii_of_N (charCode c + 32) else c.
Definition toUpperChar (c : ascii) : ascii :=
  if isLower c then ascii_of_N (charCode c - 32) else c.

(** [String.prototype.toLowerCase] / [toUpperCase]. *)
Fixpoint toLowerCase (s : string) : string :=
  match s with
  | EmptyString => EmptyString
  | String c s' => String (toLowerChar c) (toLowerCase s')
  end.
Fixpoint toUpperCase (s : string) : string :=
  match s with
  | EmptyString => EmptyString
  | String c s' => String (toUpperChar c) (toUpperCase s')
  end.

Fixpoint trimStart (s : string) : string :=
  match s with
  | EmptyString => EmptyString
  | String c s' => if isSpace c then trimStart s' else s
  end.
Fixpoint trimEnd (s : string) : string :=
  match s with
  | EmptyString => EmptyString
  | String c s' =>
      match trimEnd s' with
      | EmptyString => if isSpace c then EmptyString else String c EmptyString
      | r => String c r
      end
  end.
(** [String.prototype.trim]. *)
Definition trim (s : string) : string := trimEnd (trimStart s).

(** A string that does not start with white space. *)
Definition noLeadingSpace (s : string) : Prop :=
  match s with
  | EmptyString => True
  | String c _ => isSpace c = false
  end.

(** [s.startsWith(p)]. *)
Definition startsWith (p s : string) : bool := String.prefix p s.

(** Whether the character [c] occurs in [s]. *)
Fixpoint hasChar (c : ascii) (s : string) : bool :=
  match s with
  | EmptyString => false
  | String d s' => Ascii.eqb c d || hasChar c s'
  end.

(** A string is truthy when it is not empty. *)
Definition nonEmpty (s : string) : bool :=
  match s with EmptyString => false | _ => true end.

(** [s.split(sep)] for a one-character separator. *)
Fixpoint split (sep : ascii) (s : string) : list string :=
  match s with
  | EmptyString => [EmptyString]
  | String c s' =>
      if Ascii.eqb c sep then EmptyString :: split sep s'
      else match split sep s' with
           | h :: t => String c h :: t
           | [] => [String c EmptyString]
           end
  end.

(** [parts.join(sep)]. *)
Fixpoint join (sep : string) (parts : list string) : string :=
  match parts with
  | [] => EmptyString
  | [p] => p
  | p :: rest => p ++ sep ++ join sep rest
  end.

(** Collapse every run of characters satisfying [isSep] into one ["/"]:
    [s.replace(/[...]+/g, "/")]. *)
Fixpoint collapseRuns (isSep : ascii -> bool) (inRun : bool) (s : string) : string :=
  match s with
  | EmptyString => EmptyString
  | String c s' =>
      if isSep c then
        if inRun then collapseRuns isSep true s'
        else String "/"%char (collapseRuns isSep true s')
      else String c (collapseRuns isSep false s')
  end.

(** ** JSON Schema trees *)

(** [JSONSchema4TypeName], the values a custom type mapping may name. *)
Inductive JSONSchema4TypeName : Type :=
| TString | TNumber | TInteger | TBoolean | TObject | TArray | TNull | TAny.

Definition typeNameString (t : JSONSchema4TypeName) : string :=
  match t with
  | TString => "string"
  | TNumber => "number"
  | TInteger => "integer"
  | TBoolean => "boolean"
  | TObject => "object"
  | TArray => "array"
  | TNull => "null"
  | TAny => "any"
  end.

(** The [type] keyword as it reaches the normaliser: any spelling of a
    type name, or an array of them. *)
Inductive SchemaType : Type :=
| TypeName (t : string)
| TypeNames (ts : list string).

(** [properties]: the name-keyed mapping, or the array of named entries that
    [traverseJsonSchema] repairs. *)
Inductive PropertiesOf (S : Type) : Type :=
| PropertiesObject (m : list (string * S))
| PropertiesArray (l : list S).
Arguments PropertiesObject {S} m.
Arguments PropertiesArray {S} l.

(** [items]: one schema or a tuple of schemas. *)
Inductive ItemsOf (S : Type) : Type :=
| ItemsOne (s : S)
| ItemsMany (l : list S).
Arguments ItemsOne {S} s.
Arguments ItemsMany {S} l.

(** [required]: [boolean | string[]]. *)
Inductive RequiredField : Type :=
| RequiredFlag (b : bool)
| RequiredNames (names : list string).

(** A schema node.  [ref] and [ref2] are [$ref] and [$$ref]; [name] is the
    entry name of the array form of [properties]; [other] holds the
    keywords the code never looks at, with their values as text. *)
Inductive JSONSchema4 : Type := Schema {
  ref : option string;
  ref2 : option string;
  type : option SchemaType;
  properties : option (PropertiesOf JSONSchema4);
  items : option (ItemsOf JSONSchema4);
  required : option RequiredField;
  oneOf : option (list JSONSchema4);
  anyOf : option (list JSONSchema4);
  allOf : option (list JSONSchema4);
  name : option string;
  title : option string;
  description : option string;
  schemaId : option string;
  minItems : option Z;
  maxItems : option Z;
  additionalProperties : option (bool + JSONSchema4);
  default : option string;
  tsType : option string;
  __is_any__ : option bool;
  other : list (string * string)
}.

(** The schema [{}]. *)
Definition emptySchema : JSONSchema4 :=
  Schema None None None None None None None None None None
         None None None None None None None None None [].

(** Assignments to (and deletions of) one keyword of a node. *)
Definition set_ref (v : option string) (s : JSONSchema4) : JSONSchema4 :=
  let 'Schema _ f2 f3 f4 f5 f6 f7 f8 f9 f10 f11 f12 f13 f14 f15 f16 f17 f18 f19 f20 := s in
  Schema v f2 f3 f4 f5 f6 f7 f8 f9 f10 f11 f12 f13 f14 f15 f16 f17 f18 f19 f20.
Definition set_ref2 (v : option string) (s : JSONSchema4) : JSONSchema4 :=
  let 'Schema f1 _ f3 f4 f5 f6 f7 f8 f9 f10 f11 f12 f13 f14 f15 f16 f17 f18 f19 f20 := s in
  Schema f1 v f3 f4 f5 f6 f7 f8 f9 f10 f11 f12 f13 f14 f15 f16 f17 f18 f19 f20.
Definition set_type (v : option SchemaType) (s : JSONSchema4) : JSONSchema4 :=
  let 'Schema f1 f2 _ f4 f5 f6 f7 f8 f9 f10 f11 f12 f13 f14 f15 f16 f17 f18 f19 f20 := s in
  Schema f1 f2 v f4 f5 f6 f7 f8 f9 f10 f11 f12 f13 f14 f15 f16 f17 f18 f19 f20.
Definition set_properties (v : option (PropertiesOf JSONSchema4)) (s : JSONSchema4)
  : JSONSchema4 :=
  let 'Schema f1 f2 f3 _ f5 f6 f7 f8 f9 f10 f11 f12 f13 f14 f15 f16 f17 f18 f19 f20 := s in
  Schema f1 f2 f3 v f5 f6 f7 f8 f9 f10 f11 f12 f13 f14 f15 f16 f17 f18 f19 f20.
Definition set_items (v : option (ItemsOf JSONSchema4)) (s : JSONSchema4) : JSONSchema4 :=
  let 'Schema f1 f2 f3 f4 _ f6 f7 f8 f9 f10 f11 f12 f13 f14 f15 f16 f17 f18 f19 f20 := s in
  Schema f1 f2 f3 f4 v f6 f7 f8 f9 f10 f11 f12 f13 f14 f15 f16 f17 f18 f19 f20.
Definition set_required (v : option RequiredField) (s : JSONSchema4) : JSONSchema4 :=
  let 'Schema f1 f2 f3 f4 f5 _ f7 f8 f9 f10 f11 f12 f13 f14 f15 f16 f17 f18 f19 f20 := s in
  Schema f1 f2 f3 f4 f5 v f7 f8 f9 f10 f11 f12 f13 f14 f15 f16 f17 f18 f19 f20.
Definition set_oneOf (v : option (list JSONSchema4)) (s : JSONSchema4) : JSONSchema4 :=
  let 'Schema f1 f2 f3 f4 f5 f6 _ f8 f9 f10 f11 f12 f13 f14 f15 f16 f17 f18 f19 f20 := s in
  Schema f1 f2 f3 f4 f5 f6 v f8 f9 f10 f11 f12 f13 f14 f15 f16 f17 f18 f19 f20.
Definition set_anyOf (v : option (list JSONSchema4)) (s : JSONSchema4) : JSONSchema4 :=
  let 'Schema f1 f2 f3 f4 f5 f6 f7 _ f9 f10 f11 f12 f13 f14 f15 f16 f17 f18 f19 f20 := s in
  Schema f1 f2 f3 f4 f5 f6 f7 v f9 f10 f11 f12 f13 f14 f15 f16 f17 f18 f19 f20.
Definition set_allOf (v : option (list JSONSchema4)) (s : JSONSchema4) : JSONSchema4 :=
  let 'Schema f1 f2 f3 f4 f5 f6 f7 f8 _ f10 f11 f12 f13 f14 f15 f16 f17 f18 f19 f20 := s in
  Schema f1 f2 f3 f4 f5 f6 f7 f8 v f10 f11 f12 f13 f14 f15 f16 f17 f18 f19 f20.
Definition set_title (v : option string) (s : JSONSchema4) : JSONSchema4 :=
  let 'Schema f1 f2 f3 f4 f5 f6 f7 f8 f9 f10 _ f12 f13 f14 f15 f16 f17 f18 f19 f20 := s in
  Schema f1 f2 f3 f4 f5 f6 f7 f8 f9 f10 v f12 f13 f14 f15 f16 f17 f18 f19 f20.
Definition set_description (v : option string) (s : JSONSchema4) : JSONSchema4 :=
  let 'Schema f1 f2 f3 f4 f5 f6 f7 f8 f9 f10 f11 _ f13 f14 f15 f16 f17 f18 f19 f20 := s in
  Schema f1 f2 f3 f4 f5 f6 f7 f8 f9 f10 f11 v f13 f14 f15 f16 f17 f18 f19 f20.
Definition set_schemaId (v : option string) (s : JSONSchema4) : JSONSchema4 :=
  let 'Schema f1 f2 f3 f4 f5 f6 f7 f8 f9 f10 f11 f12 _ f14 f15 f16 f17 f18 f19 f20 := s in
  Schema f1 f2 f3 f4 f5 f6 f7 f8 f9 f10 f11 f12 v f14 f15 f16 f17 f18 f19 f20.
Definition set_minItems (v : option Z) (s : JSONSchema4) : JSONSchema4 :=
  let 'Schema f1 f2 f3 f4 f5 f6 f7 f8 f9 f10 f11 f12 f13 _ f15 f16 f17 f18 f19 f20 := s in
  Schema f1 f2 f3 f4 f5 f6 f7 f8 f9 f10 f11 f12 f13 v f15 f16 f17 f18 f19 f20.
Definition set_maxItems (v : option Z) (s : JSONSchema4) : JSONSchema4 :=
  let 'Schema f1 f2 f3 f4 f5 f6 f7 f8 f9 f10 f11 f12 f13 f14 _ f16 f17 f18 f19 f20 := s in
  Schema f1 f2 f3 f4 f5 f6 f7 f8 f9 f10 f11 f12 f13 f14 v f16 f17 f18 f19 f20.
Definition set_additionalProperties (v : option (bool + JSONSchema4)) (s : JSONSchema4)
  : JSONSchema4 :=
  let 'Schema f1 f2 f3 f4 f5 f6 f7 f8 f9 f10 f11 f12 f13 f14 f15 _ f17 f18 f19 f20 := s in
  Schema f1 f2 f3 f4 f5 f6 f7 f8 f9 f10 f11 f12 f13 f14 f15 v f17 f18 f19 f20.
Definition set_default (v : option string) (s : JSONSchema4) : JSONSchema4 :=
  let 'Schema f1 f2 f3 f4 f5 f6 f7 f8 f9 f10 f11 f12 f13 f14 f15 f16 _ f18 f19 f20 := s in
  Schema f1 f2 f3 f4 f5 f6 f7 f8 f9 f10 f11 f12 f13 f14 f15 f16 v f18 f19 f20.
Definition set_tsType (v : option string) (s : JSONSchema4) : JSONSchema4 :=
  let 'Schema f1 f2 f3 f4 f5 f6 f7 f8 f9 f10 f11 f12 f13 f14 f15 f16 f17 _ f19 f20 := s in
  Schema f1 f2 f3 f4 f5 f6 f7 f8 f9 f10 f11 f12 f13 f14 f15 f16 f17 v f19 f20.
Definition set___is_any__ (v : option bool) (s : JSONSchema4) : JSONSchema4 :=
  let 'Schema f1 f2 f3 f4 f5 f6 f7 f8 f9 f10 f11 f12 f13 f14 f15 f16 f17 f18 _ f20 := s in
  Schema f1 f2 f3 f4 f5 f6 f7 f8 f9 f10 f11 f12 f13 f14 f15 f16 f17 f18 v f20.

(** lodash [isEmpty] on a schema that is present: no own key. *)
Definition isEmptySchema (s : JSONSchema4) : bool :=
  match s with
  | Schema None None None None None None None None None None
           None None None None None None None None None [] => true
  | _ => false
  end.

(** ** Objects used as dictionaries *)

(** The names under which every plain object finds a member on
    [Object.prototype] when it has no own key of that name.  Each member is
    a function, except [__proto__], which reads the prototype itself; all
    of them are truthy and none has a [properties] of its own. *)
Definition objectPrototypeNames : list string :=
  [ "constructor"; "__defineGetter__"; "__defineSetter__"; "hasOwnProperty";
    "__lookupGetter__"; "__lookupSetter__"; "isPrototypeOf"; "propertyIsEnumerable";
    "toString"; "valueOf"; "__proto__"; "toLocaleString" ].

Definition inheritedMember (key : string) : bool :=
  existsb (String.eqb key) objectPrototypeNames.

Section Dictionary.
Variable V : Type.

(** [obj[key]] on an own key. *)
Fixpoint lookup (obj : list (string * V)) (key : string) : option V :=
  match obj with
  | [] => None
  | (k, v) :: rest => if String.eqb k key then Some v else lookup rest key
  end.

(** [delete obj[key]]. *)
Definition deleteKey (obj : list (string * V)) (key : string) : list (string * V) :=
  filter (fun kv => negb (String.eqb (fst kv) key)) obj.

(** [obj[key] = v]: an existing key keeps its place, a new key goes last. *)
Fixpoint assign (obj : list (string * V)) (key : string) (v : V) : list (string * V) :=
  match obj with
  | [] => [(key, v)]
  | (k, w) :: rest =>
      if String.eqb k key then (k, v) :: rest else (k, w) :: assign rest key v
  end.

(** [obj[key] = v] written as an assignment on a plain object.  For every
    name but ["__proto__"] this is [assign].  An object without an own key
    ["__proto__"] takes an assignment to that name through the setter it
    inherits from [Object.prototype]: no own key is added.  (The setter
    replaces the prototype of [obj]; what a later read of [obj] finds on a
    replaced prototype is not modelled.) *)
Definition setMember (obj : list (string * V)) (key : string) (v : V) : list (string * V) :=
  if String.eqb key "__proto__" then
    match lookup obj key with
    | Some _ => assign obj key v
    | None => obj
    end
  else assign obj key v.

(** What [obj[key]] reads on a plain object: the value of the own key, or
    else the member inherited under that name, or else [undefined]. *)
Inductive MemberRead : Type :=
| ReadOwn (v : V)
| ReadInherited (name : string)
| ReadUndefined.

Definition readMember (obj : list (string * V)) (key : string) : MemberRead :=
  match lookup obj key with
  | Some v => ReadOwn v
  | None => if inheritedMember key then ReadInherited key else ReadUndefined
  end.

(** [{...a, ...b}]: every own key of [b] is defined on the copy, also
    ["__proto__"]. *)
Definition objectSpread (a b : list (string * V)) : list (string * V) :=
  fold_left (fun obj kv => assign obj (fst kv) (snd kv)) b a.

(** lodash [mapKeys(obj, (_, key) => f(key))]; lodash defines the key on
    the result, also ["__proto__"]. *)
Definition mapKeys (f : string -> string) (obj : list (string * V)) : list (string * V) :=
  fold_left (fun res kv => assign res (f (fst kv)) (snd kv)) obj [].

(** The value of the last entry of a list of bindings that binds [key]. *)
Definition lastBinding (entries : list (string * V)) (key : string) : option V :=
  fold_left (fun acc kv => if String.eqb (fst kv) key then Some (snd kv) else acc)
            entries None.

(** How many entries of [obj] carry the key [x]. *)
Definition keyCount (x : string) (obj : list (string * V)) : nat :=
  count_occ string_dec (map fst obj) x.

(** The own enumerable keys of an array used as an object: its indices. *)
Definition arrayEntries (l : list V) : list (string * V) :=
  combine (map (fun i => Number_toString (Z.of_nat i)) (seq 0 (List.length l))) l.
End Dictionary.
Arguments ReadInherited {V} name.
Arguments ReadUndefined {V}.

(** ** Traversal ([traverseJsonSchema]) *)

(** A step of [currentPath]: a property name or an array index. *)
Inductive PathSegment : Type :=
| PathKey (key : string)
| PathIndex (index : nat).

(** [js.name] used as a property key. *)
Definition entryName (js : JSONSchema4) : string :=
  match name js with
  | Some n => n
  | None => "undefined"
  end.

(** The repair of [properties] given as an array of named entries:
    [reduce((props, js) => { props[js.name] = js; return props }, {})]. *)
Definition repairProperties (jsonSchema : JSONSchema4) : JSONSchema4 :=
  match properties jsonSchema with
  | Some (PropertiesArray l) =>
      set_properties
        (Some (PropertiesObject
                 (fold_left (fun props js => setMember props (entryName js) js) l [])))
        jsonSchema
  | _ => jsonSchema
  end.

Definition bindOption {A B : Type} (x : option A) (f : A -> option B) : option B :=
  match x with
  | Some a => f a
  | None => None
  end.

(** Run [f] on every element, in order; fail when one run fails. *)
Fixpoint forEachOption {A B : Type} (f : A -> option B) (l : list A) : option (list B) :=
  match l with
  | [] => Some []
  | x :: rest =>
      bindOption (f x) (fun y =>
      bindOption (forEachOption f rest) (fun ys => Some (y :: ys)))
  end.

(** The elements of an array with their indices. *)
Definition indexed {A : Type} (l : list A) : list (nat * A) :=
  combine (seq 0 (List.length l)) l.

Section TraverseChildren.
Variable visit : JSONSchema4 -> list PathSegment -> option JSONSchema4.
Variable currentPath : list PathSegment.

(** [forOwn(jsonSchema.properties, (item, key) => traverse(item, cb, [...currentPath, key]))]. *)
Definition visitProperties (props : option (PropertiesOf JSONSchema4))
  : option (option (PropertiesOf JSONSchema4)) :=
  match props with
  | None => Some None
  | Some (PropertiesObject m) =>
      bindOption
        (forEachOption
           (fun kv => bindOption (visit (snd kv) (currentPath ++ [PathKey (fst kv)]))
                                 (fun item => Some (fst kv, item))) m)
        (fun m' => Some (Some (PropertiesObject m')))
  | Some (PropertiesArray l) =>
      bindOption
        (forEachOption
           (fun ix => visit (snd ix)
                            (currentPath ++ [PathKey (Number_toString (Z.of_nat (fst ix)))]))
           (indexed l))
        (fun l' => Some (Some (PropertiesArray l')))
  end.

(** [castArray(jsonSchema.items).forEach((item, index) => traverse(item, cb, [...currentPath, index]))]. *)
Definition visitItems (its : option (ItemsOf JSONSchema4))
  : option (option (ItemsOf JSONSchema4)) :=
  match its with
  | None => Some None
  | Some (ItemsOne item) =>
      bindOption (visit item (currentPath ++ [PathIndex 0]))
                 (fun item' => Some (Some (ItemsOne item')))
  | Some (ItemsMany l) =>
      bindOption
        (forEachOption (fun ix => visit (snd ix) (currentPath ++ [PathIndex (fst ix)]))
                       (indexed l))
        (fun l' => Some (Some (ItemsMany l')))
  end.

(** [jsonSchema.oneOf.forEach(item => traverse(item, cb, currentPath))], and
    the same for [anyOf] and [allOf]. *)
Definition visitAlternatives (alts : option (list JSONSchema4))
  : option (option (list JSONSchema4)) :=
  match alts with
  | None => Some None
  | Some l =>
      bindOption (forEachOption (fun item => visit item currentPath) l)
                 (fun l' => Some (Some l'))
  end.

(** The five descents of [traverseJsonSchema], in the order of the source;
    the visited children replace the originals in the node. *)
Definition visitChildren (jsonSchema : JSONSchema4) : option JSONSchema4 :=
  bindOption (visitProperties (properties jsonSchema)) (fun props =>
  bindOption (visitItems (items jsonSchema)) (fun its =>
  bindOption (visitAlternatives (oneOf jsonSchema)) (fun one =>
  bindOption (visitAlternatives (anyOf jsonSchema)) (fun any =>
  bindOption (visitAlternatives (allOf jsonSchema)) (fun all =>
  Some (set_allOf all (set_anyOf any (set_oneOf one
         (set_items its (set_properties props jsonSchema)))))))))).
End TraverseChildren.

(** [traverseJsonSchema(jsonSchema, cb, currentPath)].  The callback mutates
    the node it is given; the children visited are those of the mutated
    node.  Every child is a schema object here, so the [isObject] guard of
    the source never fires.  [fuel] bounds the depth of the recursion:
    [None] means it ran out. *)
Fixpoint traverseJsonSchema (cb : JSONSchema4 -> list PathSegment -> JSONSchema4)
         (fuel : nat) (jsonSchema : JSONSchema4) (currentPath : list PathSegment)
  : option JSONSchema4 :=
  match fuel with
  | O => None
  | S fuel' =>
      let jsonSchema := repairProperties jsonSchema in
      let jsonSchema := cb jsonSchema currentPath in
      visitChildren (traverseJsonSchema cb fuel') currentPath jsonSchema
  end.

Definition maxList (l : list nat) : nat := fold_right Nat.max 0%nat l.

(** The number of nodes on the longest chain of children the traversal can
    follow from a node. *)
Fixpoint height (s : JSONSchema4) : nat :=
  match s with
  | Schema _ _ _ props its _ one any all _ _ _ _ _ _ _ _ _ _ _ =>
      S (Nat.max
           (match props with
            | Some (PropertiesObject m) => maxList (map (fun kv => height (snd kv)) m)
            | Some (PropertiesArray l) => maxList (map height l)
            | None => 0%nat
            end)
        (Nat.max
           (match its with
            | Some (ItemsOne item) => height item
            | Some (ItemsMany l) => maxList (map height l)
            | None => 0%nat
            end)
        (Nat.max
           (match one with Some l => maxList (map height l) | None => 0%nat end)
        (Nat.max
           (match any with Some l => maxList (map height l) | None => 0%nat end)
           (match all with Some l => maxList (map height l) | None => 0%nat end)))))
  end.

(** ** Normalisation ([processJsonSchema]) *)

(** The built-in part of [typeMapping]. *)
Definition builtinTypeMapping : list (string * JSONSchema4TypeName) :=
  [ ("byte", TInteger); ("short", TInteger); ("int", TInteger); ("long", TInteger);
    ("float", TNumber); ("double", TNumber); ("bigdecimal", TNumber);
    ("char", TString); ("void", TNull) ].

(** [{ byte: ..., ...mapKeys(customTypeMapping, (_, key) => key.toLowerCase()) }]. *)
Definition typeMapping (customTypeMapping : list (string * JSONSchema4TypeName))
  : list (string * JSONSchema4TypeName) :=
  objectSpread builtinTypeMapping (mapKeys toLowerCase customTypeMapping).

(** What [typeMapping[type] || type] evaluates to for a lower-cased name:
    a type name, or the member that [typeMapping], an object literal,
    inherits under that name (for ["constructor"] the function [Object], for
    ["__proto__"] the object [Object.prototype]), which is truthy and is
    what the code then stores in [type]. *)
Inductive MappedType : Type :=
| MappedName (t : string)
| MappedMember (name : string).

Definition mappedType (customTypeMapping : list (string * JSONSchema4TypeName))
           (t : string) : MappedType :=
  match readMember (typeMapping customTypeMapping) t with
  | ReadOwn target => MappedName (typeNameString target)
  | ReadInherited name => MappedMember name
  | ReadUndefined => MappedName t
  end.

(** The function mapped over [castArray(jsonSchema.type)], read as a type
    name.  [type] holds names only ([SchemaType]): where [mappedType] is a
    member and no name, the lower-cased name stands in for it, and
    [staysTypeName] below tells the two cases apart. *)
Definition normalizeTypeName (customTypeMapping : list (string * JSONSchema4TypeName))
           (t : string) : string :=
  match mappedType customTypeMapping (toLowerCase t) with
  | MappedName t' => t'
  | MappedMember name => name
  end.

(** A type name the callback leaves a type name. *)
Definition staysTypeName (customTypeMapping : list (string * JSONSchema4TypeName))
           (t : string) : bool :=
  match mappedType customTypeMapping (toLowerCase t) with
  | MappedName _ => true
  | MappedMember _ => false
  end.

(** The [forOwn] loop that re-keys every property under its trimmed name:
    [delete properties[prop]; properties[prop.trim()] = propDef]. *)
Definition trimPropertyNames (m : list (string * JSONSchema4)) : list (string * JSONSchema4) :=
  fold_left
    (fun props prop =>
       match lookup props prop with
       | Some propDef => setMember (deleteKey props prop) (trim prop) propDef
       | None => props
       end)
    (map fst m) m.

(** The callback [processJsonSchema] hands to the traversal. *)
Definition processCallback (customTypeMapping : list (string * JSONSchema4TypeName))
           (jsonSchema : JSONSchema4) (currentPath : list PathSegment) : JSONSchema4 :=
  let jsonSchema := set_ref None jsonSchema in
  let jsonSchema := set_ref2 None jsonSchema in
  let jsonSchema :=
    match type jsonSchema, items jsonSchema with
    | Some (TypeName t), Some (ItemsMany (first :: _)) =>
        if String.eqb t "array" then set_items (Some (ItemsOne first)) jsonSchema
        else jsonSchema
    | _, _ => jsonSchema
    end in
  let jsonSchema :=
    match type jsonSchema with
    | Some (TypeName t) =>
        if nonEmpty t
        then set_type (Some (TypeName (normalizeTypeName customTypeMapping t))) jsonSchema
        else jsonSchema
    | Some (TypeNames ts) =>
        set_type (Some (TypeNames (map (normalizeTypeName customTypeMapping) ts))) jsonSchema
    | None => jsonSchema
    end in
  match properties jsonSchema with
  | Some props =>
      let jsonSchema :=
        match props with
        | PropertiesObject m =>
            set_properties (Some (PropertiesObject (trimPropertyNames m))) jsonSchema
        | PropertiesArray _ => jsonSchema
        end in
      match required jsonSchema with
      | Some (RequiredNames names) =>
          set_required (Some (RequiredNames (map trim names))) jsonSchema
      | _ => jsonSchema
      end
  | None => jsonSchema
  end.

(** [processJsonSchema(jsonSchema, customTypeMapping)]; the fuel is the
    height of the tree, which the traversal never exceeds. *)
Definition processJsonSchema (jsonSchema : JSONSchema4)
           (customTypeMapping : list (string * JSONSchema4TypeName)) : option JSONSchema4 :=
  traverseJsonSchema (processCallback customTypeMapping) (height jsonSchema) jsonSchema [].

(** Whether [p] holds at a node and at every node below it. *)
Fixpoint everyNode (p : JSONSchema4 -> bool) (s : JSONSchema4) : bool :=
  p s &&
  match s with
  | Schema _ _ _ props its _ one any all _ _ _ _ _ _ _ _ _ _ _ =>
      match props with
      | Some (PropertiesObject m) => forallb (fun kv => everyNode p (snd kv)) m
      | Some (PropertiesArray l) => forallb (everyNode p) l
      | None => true
      end
      && match its with
         | Some (ItemsOne item) => everyNode p item
         | Some (ItemsMany l) => forallb (everyNode p) l
         | None => true
         end
      && match one with Some l => forallb (everyNode p) l | None => true end
      && match any with Some l => forallb (everyNode p) l | None => true end
      && match all with Some l => forallb (everyNode p) l | None => true end
  end.

(** A node whose tuple [items] escapes the collapse on a first pass because
    its type is spelled otherwise, yet reads ["array"] once normalised. *)
Definition lateArrayTuple (customTypeMapping : list (string * JSONSchema4TypeName))
           (s : JSONSchema4) : bool :=
  match type s, items s with
  | Some (TypeName t), Some (ItemsMany (_ :: _)) =>
      nonEmpty t && negb (String.eqb t "array")
      && String.eqb (normalizeTypeName customTypeMapping t) "array"
  | _, _ => false
  end.

(** Every name the type table can produce is left alone by the table. *)
Definition stableTypeMapping (customTypeMapping : list (string * JSONSchema4TypeName))
  : bool :=
  forallb (fun kv =>
             String.eqb (normalizeTypeName customTypeMapping (typeNameString (snd kv)))
                        (typeNameString (snd kv)))
          (typeMapping customTypeMapping).

(** The schemas held by [properties], by [items], by [oneOf] and the like. *)
Definition propertyValues (props : option (PropertiesOf JSONSchema4)) : list JSONSchema4 :=
  match props with
  | Some (PropertiesObject m) => map snd m
  | Some (PropertiesArray l) => l
  | None => []
  end.
Definition itemValues (its : option (ItemsOf JSONSchema4)) : list JSONSchema4 :=
  match its with
  | Some (ItemsOne item) => [item]
  | Some (ItemsMany l) => l
  | None => []
  end.
Definition alternativeValues (alts : option (list JSONSchema4)) : list JSONSchema4 :=
  match alts with
  | Some l => l
  | None => []
  end.

(** The nodes directly below a node. *)
Definition children (s : JSONSchema4) : list JSONSchema4 :=
  propertyValues (properties s) ++ itemValues (items s)
  ++ alternativeValues (oneOf s) ++ alternativeValues (anyOf s)
  ++ alternativeValues (allOf s).

(** What the callback leaves in [type]. *)
Definition normalizeType (customTypeMapping : list (string * JSONSchema4TypeName))
           (t : option SchemaType) : option SchemaType :=
  match t with
  | Some (TypeName t) =>
      if nonEmpty t then Some (TypeName (normalizeTypeName customTypeMapping t))
      else Some (TypeName t)
  | Some (TypeNames ts) => Some (TypeNames (map (normalizeTypeName customTypeMapping) ts))
  | None => None
  end.

(** What the callback leaves in [items], [properties] and [required]. *)
Definition collapsedItems (t : option SchemaType) (its : option (ItemsOf JSONSchema4))
  : option (ItemsOf JSONSchema4) :=
  match t, its with
  | Some (TypeName t), Some (ItemsMany (first :: _)) =>
      if String.eqb t "array" then Some (ItemsOne first) else its
  | _, _ => its
  end.
Definition trimmedProperties (props : option (PropertiesOf JSONSchema4))
  : option (PropertiesOf JSONSchema4) :=
  match props with
  | Some (PropertiesObject m) => Some (PropertiesObject (trimPropertyNames m))
  | _ => props
  end.
Definition trimmedRequired (props : option (PropertiesOf JSONSchema4))
           (req : option RequiredField) : option RequiredField :=
  match props, req with
  | Some _, Some (RequiredNames names) => Some (RequiredNames (map trim names))
  | _, _ => req
  end.

(** What the repair leaves in [properties]. *)
Definition repairedProperties (props : option (PropertiesOf JSONSchema4))
  : option (PropertiesOf JSONSchema4) :=
  match props with
  | Some (PropertiesArray l) =>
      Some (PropertiesObject
              (fold_left (fun props js => setMember props (entryName js) js) l []))
  | _ => props
  end.

(** [props'] is [props] with its values replaced: same form, same names. *)
Definition sameNames (props props' : option (PropertiesOf JSONSchema4)) : Prop :=
  match props, props' with
  | None, None => True
  | Some (PropertiesObject m), Some (PropertiesObject m') => map fst m' = map fst m
  | Some (PropertiesArray l), Some (PropertiesArray l') => List.length l' = List.length l
  | _, _ => False
  end.

(** [its'] is [its] with its schemas replaced: same form, same length. *)
Definition sameItemsForm (its its' : option (ItemsOf JSONSchema4)) : Prop :=
  match its, its' with
  | None, None => True
  | Some (ItemsOne _), Some (ItemsOne _) => True
  | Some (ItemsMany l), Some (ItemsMany l') => List.length l' = List.length l
  | _, _ => False
  end.

(** A node with its five groups of children replaced. *)
Definition withChildren (props : option (PropertiesOf JSONSchema4))
           (its : option (ItemsOf JSONSchema4))
           (one any all : option (list JSONSchema4)) (n : JSONSchema4) : JSONSchema4 :=
  set_allOf all (set_anyOf any (set_oneOf one (set_items its (set_properties props n)))).

(** [castArray(jsonSchema.type)], nothing when [type] is absent. *)
Definition typeNamesOf (t : option SchemaType) : list string :=
  match t with
  | Some (TypeName t) => [t]
  | Some (TypeNames ts) => ts
  | None => []
  end.

(** A node all of whose type names the callback leaves type names: none
    of them lower-cases to the name of an inherited member that the type
    table does not define. *)
Definition typeNamesStay (customTypeMapping : list (string * JSONSchema4TypeName))
           (s : JSONSchema4) : bool :=
  forallb (staysTypeName customTypeMapping) (typeNamesOf (type s)).

(** The nodes [processJsonSchema] hands to its callback: the node it is
    given and, below a node, the children that the callback leaves it. *)
Inductive visitedFrom (customTypeMapping : list (string * JSONSchema4TypeName))
  : JSONSchema4 -> JSONSchema4 -> Prop :=
| visitedFrom_root (s : JSONSchema4) : visitedFrom customTypeMapping s s
| visitedFrom_child (s c n : JSONSchema4) :
    In c (children (processCallback customTypeMapping (repairProperties s) [])) ->
    visitedFrom customTypeMapping c n -> visitedFrom customTypeMapping s n.

(** No node of the tree is a late array tuple. *)
Definition noLateArrayTuple (customTypeMapping : list (string * JSONSchema4TypeName))
           (s : JSONSchema4) : bool :=
  everyNode (fun n => negb (lateArrayTuple customTypeMapping n)) s.

(** ** Reaching into a schema ([reachJsonSchema]) *)

(** What [last] can hold: a schema; the [length] of an array standing in
    for [properties]; or a member found on the prototype under the name of
    the segment, where [properties] has no own key of that name. *)
Inductive Reached : Type :=
| ReachedSchema (s : JSONSchema4)
| ReachedNumber (n : Z)
| ReachedMember (name : string).

(** The names under which an array finds a method on [Array.prototype],
    as far as every engine since ECMAScript 2016 has them; newer engines
    add to them.  Past these an array inherits what every object does. *)
Definition arrayPrototypeNames : list string :=
  [ "concat"; "copyWithin"; "entries"; "every"; "fill"; "filter"; "find"; "findIndex";
    "forEach"; "includes"; "indexOf"; "join"; "keys"; "lastIndexOf"; "map"; "pop";
    "push"; "reduce"; "reduceRight"; "reverse"; "shift"; "slice"; "some"; "sort";
    "splice"; "unshift"; "values" ].

Definition inheritedArrayMember (key : string) : bool :=
  existsb (String.eqb key) arrayPrototypeNames || inheritedMember key.

(** [last.properties?.[segment]]; [None] is [undefined].  An own key comes
    first; a name without an own key finds the inherited member, if there
    is one.  A member has no [properties].  (The prototype of [properties]
    is taken to be the one it was created with; see [setMember].) *)
Definition getProperty (last : Reached) (segment : string) : option Reached :=
  match last with
  | ReachedNumber _ => None
  | ReachedMember _ => None
  | ReachedSchema s =>
      match properties s with
      | None => None
      | Some (PropertiesObject m) =>
          match readMember m segment with
          | ReadOwn next => Some (ReachedSchema next)
          | ReadInherited name => Some (ReachedMember name)
          | ReadUndefined => None
          end
      | Some (PropertiesArray l) =>
          if String.eqb segment "length"
          then Some (ReachedNumber (Z.of_nat (List.length l)))
          else match lookup (arrayEntries l) segment with
               | Some next => Some (ReachedSchema next)
               | None => if inheritedArrayMember segment
                         then Some (ReachedMember segment) else None
               end
      end
  end.

Definition truthy (v : Reached) : bool :=
  match v with
  | ReachedSchema _ => true
  | ReachedNumber n => negb (n =? 0)
  | ReachedMember _ => true
  end.

(** The loop of [reachJsonSchema] over the remaining segments. *)
Fixpoint reachFrom (jsonSchema : JSONSchema4) (last : Reached) (segments : list string)
  : Reached :=
  match segments with
  | [] => last
  | segment :: rest =>
      match getProperty last segment with
      | Some _last =>
          if truthy _last then reachFrom jsonSchema _last rest
          else ReachedSchema jsonSchema
      | None => ReachedSchema jsonSchema
      end
  end.

Definition reachJsonSchema (jsonSchema : JSONSchema4) (path : OneOrMore string) : Reached :=
  reachFrom jsonSchema (ReachedSchema jsonSchema) (castArray path).

(** [w] holds [sub] under the chain of properties named by [keys]. *)
Fixpoint nestsUnder (w : JSONSchema4) (keys : list string) (sub : JSONSchema4) : Prop :=
  match keys with
  | [] => w = sub
  | key :: rest =>
      exists m w', properties w = Some (PropertiesObject m)
                   /\ lookup m key = Some w'
                   /\ nestsUnder w' rest sub
  end.

(** The object schemas that wrap [sub] under [keys] and nothing else. *)
Fixpoint wrapUnder (keys : list string) (sub : JSONSchema4) : JSONSchema4 :=
  match keys with
  | [] => sub
  | key :: rest =>
      set_properties (Some (PropertiesObject [(key, wrapUnder rest sub)]))
                     (set_type (Some (TypeName "object")) emptySchema)
  end.

(** ** Type synthesis ([jsonSchemaToJSTTJsonSchema], [jsonSchemaToType]) *)

Definition isLetter (c : ascii) : bool := isUpper c || isLower c.

Fixpoint dropLetters (s : string) : string :=
  match s with
  | EmptyString => EmptyString
  | String c s' => if isLetter c then dropLetters s' else s
  end.

(** [s.replace(/^[a-z]+:/i, "")]. *)
Definition stripDrive (s : string) : string :=
  match s with
  | String c _ =>
      if isLetter c then
        match dropLetters s with
        | String ":" rest => rest
        | _ => s
        end
      else s
  | EmptyString => s
  end.

Definition isSlash (c : ascii) : bool := Ascii.eqb c "/".
Definition isSlashOrBackslash (c : ascii) : bool := Ascii.eqb c "/" || Ascii.eqb c "\".

(** [toUnixPath]: [path.replace(/[/\\]+/g, "/")]. *)
Definition toUnixPath (path : string) : string :=
  collapseRuns isSlashOrBackslash false path.

Definition pathSegmentString (segment : PathSegment) : string :=
  match segment with
  | PathKey key => key
  | PathIndex index => Number_toString (Z.of_nat index)
  end.

(** The first occurrence of [pattern] in [s]: the text before it and the
    text after it. *)
Fixpoint findFirst (pattern s before : string) : option (string * string) :=
  if String.prefix pattern s
  then Some (before, String.substring (String.length pattern)
                                      (String.length s - String.length pattern) s)
  else match s with
       | EmptyString => None
       | String c s' => findFirst pattern s' (before ++ String c EmptyString)
       end.

(** The replacement text of [String.prototype.replace] with its [$$], [$&],
    [$`] and [$'] patterns expanded. *)
Fixpoint getSubstitution (matched before after replacement : string) : string :=
  match replacement with
  | EmptyString => EmptyString
  | String c rest =>
      if Ascii.eqb c "$" then
        match rest with
        | String d rest' =>
            if Ascii.eqb d "$" then
              String "$" (getSubstitution matched before after rest')
            else if Ascii.eqb d "&" then
              matched ++ getSubstitution matched before after rest'
            else if Ascii.eqb d "`" then
              before ++ getSubstitution matched before after rest'
            else if Ascii.eqb d "'" then
              after ++ getSubstitution matched before after rest'
            else String c (getSubstitution matched before after rest)
        | EmptyString => String c EmptyString
        end
      else String c (getSubstitution matched before after rest)
  end.

(** [s.replace(pattern, replacement)] for a string pattern. *)
Definition replaceFirst (pattern replacement s : string) : string :=
  match findFirst pattern s EmptyString with
  | Some (before, after) =>
      (before ++ getSubstitution pattern before after replacement ++ after)%string
  | None => s
  end.

(** Objects are handed around by reference: a store of schemas, addressed
    by position. *)
Definition Store : Type := list JSONSchema4.

Definition readRef (st : Store) (r : nat) : option JSONSchema4 := nth_error st r.

Fixpoint writeRef (st : Store) (r : nat) (v : JSONSchema4) : Store :=
  match st, r with
  | [], _ => []
  | _ :: rest, O => v :: rest
  | x :: rest, S r' => x :: writeRef rest r' v
  end.

(** A fresh object holding [v]. *)
Definition allocRef (st : Store) (v : JSONSchema4) : Store * nat :=
  (st ++ [v], List.length st).

Section Synthesis.
(** Node's [path.resolve] and [path.dirname], [JSON.stringify] on a string,
    and [compile] of json-schema-to-typescript under [JSTTOptions] ([None]
    when it rejects). *)
Variable path_resolve : string -> string -> string.
Variable path_dirname : string -> string.
Variable JSON_stringify : string -> string.
Variable compile : JSONSchema4 -> string -> option string.

(** The [tsType] written for a node whose title or description starts
    with [&]. *)
Definition typeReference (typeName : string) (currentPath : list PathSegment)
           (refValue : string) : string :=
  let typeRelativePath := String.substring 1 (String.length refValue - 1) refValue in
  let typeAbsolutePath :=
    toUnixPath
      (stripDrive
         (path_resolve
            (path_dirname
               (collapseRuns isSlash false
                             ("/" ++ join "/" (map pathSegmentString currentPath))))
            typeRelativePath)) in
  let typeAbsolutePathArr := filter nonEmpty (split "/" typeAbsolutePath) in
  let tsTypeLeft := String.concat "" (map (fun _ => "NonNullable<") typeAbsolutePathArr) in
  let tsTypeRight :=
    (typeName
     ++ String.concat "" (map (fun key => "[" ++ JSON_stringify key ++ "]>")
                              typeAbsolutePathArr))%string in
  (tsTypeLeft ++ tsTypeRight)%string.

(** The callback [jsonSchemaToJSTTJsonSchema] hands to the traversal. *)
Definition jsttCallback (typeName : string) (jsonSchema : JSONSchema4)
           (currentPath : list PathSegment) : JSONSchema4 :=
  let refValue :=
    match title jsonSchema with
    | None => description jsonSchema
    | Some t => Some t
    end in
  let jsonSchema :=
    match refValue with
    | Some v =>
        if startsWith "&" v
        then set_tsType (Some (typeReference typeName currentPath v)) jsonSchema
        else jsonSchema
    | None => jsonSchema
    end in
  let jsonSchema := set_title None jsonSchema in
  let jsonSchema := set_schemaId None jsonSchema in
  let jsonSchema := set_minItems None jsonSchema in
  let jsonSchema := set_maxItems None jsonSchema in
  let jsonSchema :=
    match type jsonSchema with
    | Some (TypeName t) =>
        if String.eqb t "object"
        then set_additionalProperties (Some (inl false)) jsonSchema
        else jsonSchema
    | _ => jsonSchema
    end in
  set_default None jsonSchema.

Definition jsonSchemaToJSTTJsonSchema (jsonSchema : JSONSchema4) (typeName : string)
  : option JSONSchema4 :=
  let jsonSchema := set_description None jsonSchema in
  traverseJsonSchema (jsttCallback typeName) (height jsonSchema) jsonSchema [].

(** [jsonSchemaToType(jsonSchema, typeName)].  The argument is [undefined]
    ([None]) or a reference into the store; the result is the declaration
    ([None] when the compiler rejects) and the store the call leaves. *)
Definition jsonSchemaToType (st : Store) (jsonSchema : option nat) (typeName : string)
  : option string * Store :=
  match jsonSchema with
  | None => (Some ("export interface " ++ typeName ++ " {}")%string, st)
  | Some r =>
      match readRef st r with
      | None => (Some ("export interface " ++ typeName ++ " {}")%string, st)
      | Some s =>
          if isEmptySchema s then
            (Some ("export interface " ++ typeName ++ " {}")%string, st)
          else
            match __is_any__ s with
            | Some true =>
                (Some ("export type " ++ typeName ++ " = any")%string,
                 writeRef st r (set___is_any__ None s))
            | _ =>
                let fakeTypeName := "THISISAFAKETYPENAME" in
                let '(st, clone) := allocRef st s in
                match jsonSchemaToJSTTJsonSchema s typeName with
                | None => (None, st)
                | Some jstt =>
                    let st := writeRef st clone jstt in
                    (option_map (fun code => trim (replaceFirst fakeTypeName typeName code))
                                (compile jstt fakeTypeName),
                     st)
                end
            end
      end
  end.
End Synthesis.

(** ** Request schemas ([propDefinitionsToJsonSchema], [getRequestDataJsonSchema]) *)

(** The enumerations and the interface record of [types.ts], with the
    fields the modelled functions read. *)
Inductive Required : Type := RequiredFalse | RequiredTrue.
Inductive RequestFormItemType : Type := FormText | FormFile.
Inductive RequestBodyType : Type :=
| BodyQuery | BodyForm | BodyJson | BodyText | BodyFile | BodyRaw | BodyNone.

Record RequestFormItem : Type := {
  form_name : string;
  form_type : RequestFormItemType;
  form_required : Required;
  form_desc : option string
}.

Record RequestQueryItem : Type := {
  query_name : string;
  query_required : Required;
  query_desc : option string;
  query_type : option string;
  query_schema : option JSONSchema4
}.

Record RequestParamItem : Type := {
  param_name : string;
  param_desc : option string;
  param_type : option string;
  param_schema : option JSONSchema4
}.

Record Interface : Type := {
  method : string;
  path : string;
  req_body_type : RequestBodyType;
  req_body_form : list RequestFormItem;
  req_body_other : string;
  req_body_is_json_schema : bool;
  req_query : list RequestQueryItem;
  req_params : list RequestParamItem
}.

Record PropDefinition : Type := {
  prop_name : string;
  prop_required : bool;
  prop_type : string;
  prop_comment : option string;
  prop_schema : option JSONSchema4
}.

(** [Method.GET], [Method.OPTIONS], [Method.HEAD]. *)
Definition isGetLikeMethod (method : string) : bool :=
  String.eqb method "GET" || String.eqb method "OPTIONS" || String.eqb method "HEAD".

Definition isPostLikeMethod (method : string) : bool := negb (isGetLikeMethod method).

(** [...(t === "file" ? { tsType: FileData.name } : {})]. *)
Definition withFileType (t : option SchemaType) (s : JSONSchema4) : JSONSchema4 :=
  match t with
  | Some (TypeName t) => if String.eqb t "file" then set_tsType (Some "FileData") s else s
  | _ => s
  end.

(** The schema stored under [prop.name]. *)
Definition propertySchema (prop : PropDefinition) : JSONSchema4 :=
  match prop_schema prop with
  | Some schema =>
      withFileType (type schema) (set_description (prop_comment prop) schema)
  | None =>
      withFileType (Some (TypeName (prop_type prop)))
                   (set_description (prop_comment prop)
                                    (set_type (Some (TypeName (prop_type prop))) emptySchema))
  end.

Definition propDefinitionsToJsonSchema (propDefinitions : list PropDefinition)
           (customTypeMapping : list (string * JSONSchema4TypeName)) : option JSONSchema4 :=
  processJsonSchema
    (set_properties
       (Some (PropertiesObject
                (fold_left (fun res prop =>
                              setMember res (prop_name prop) (propertySchema prop))
                           propDefinitions [])))
       (set_required
          (Some (RequiredNames
                   (fold_left (fun res prop =>
                                 if prop_required prop then res ++ [prop_name prop] else res)
                              propDefinitions [])))
          (set_type (Some (TypeName "object")) emptySchema)))
    customTypeMapping.

(** [{...props}] on what [properties] may hold. *)
Definition spreadProperties (props : option (PropertiesOf JSONSchema4))
  : list (string * JSONSchema4) :=
  match props with
  | Some (PropertiesObject m) => m
  | Some (PropertiesArray l) => arrayEntries l
  | None => []
  end.

(** [Array.isArray(required) ? required : []]. *)
Definition requiredNames (req : option RequiredField) : list string :=
  match req with
  | Some (RequiredNames names) => names
  | _ => []
  end.

(** The merge of a query or path-parameter schema into the request schema
    built so far ([None] is [undefined]). *)
Definition mergeRequestSchema (jsonSchema : option JSONSchema4) (extra : JSONSchema4)
  : JSONSchema4 :=
  match jsonSchema with
  | Some js =>
      let js' :=
        set_properties
          (Some (PropertiesObject
                   (objectSpread (spreadProperties (properties js))
                                 (spreadProperties (properties extra)))))
          js in
      set_required (Some (RequiredNames (requiredNames (required js')
                                         ++ requiredNames (required extra))))
                   js'
  | None => extra
  end.

Definition formItemDefinition (item : RequestFormItem) : PropDefinition :=
  {| prop_name := form_name item;
     prop_required := match form_required item with RequiredTrue => true | _ => false end;
     prop_type := match form_type item with FormFile => "file" | FormText => "string" end;
     prop_comment := form_desc item;
     prop_schema := None |}.

Definition queryItemDefinition (item : RequestQueryItem) : PropDefinition :=
  {| prop_name := query_name item;
     prop_required := match query_required item with RequiredTrue => true | _ => false end;
     prop_type := match query_type item with
                  | Some t => if nonEmpty t then t else "string"
                  | None => "string"
                  end;
     prop_comment := query_desc item;
     prop_schema := query_schema item |}.

Definition paramItemDefinition (item : RequestParamItem) : PropDefinition :=
  {| prop_name := param_name item;
     prop_required := true;
     prop_type := match param_type item with
                  | Some t => if nonEmpty t then t else "string"
                  | None => "string"
                  end;
     prop_comment := param_desc item;
     prop_schema := param_schema item |}.

Section RequestSchema.
(** [JSON.parse] read as a schema, [JSON5.parse], and [toJsonSchema] under
    the options of [jsonToJsonSchema]; a parser answers [None] when it
    throws. *)
Variable JSONValue : Type.
Variable JSON_parse : string -> option JSONSchema4.
Variable JSON5_parse : string -> option JSONValue.
Variable toJsonSchema : JSONValue -> JSONSchema4.

Definition jsonSchemaStringToJsonSchema (str : string)
           (customTypeMapping : list (string * JSONSchema4TypeName)) : option JSONSchema4 :=
  bindOption (JSON_parse str) (fun s => processJsonSchema s customTypeMapping).

Definition jsonToJsonSchema (json : JSONValue)
           (customTypeMapping : list (string * JSONSchema4TypeName)) : option JSONSchema4 :=
  processJsonSchema (set_description None (toJsonSchema json)) customTypeMapping.

(** The request-body part of [getRequestDataJsonSchema]: [None] when a
    parser throws, [Some None] when [jsonSchema] stays [undefined]. *)
Definition requestBodySchema (interfaceInfo : Interface)
           (customTypeMapping : list (string * JSONSchema4TypeName))
  : option (option JSONSchema4) :=
  if isPostLikeMethod (method interfaceInfo) then
    match req_body_type interfaceInfo with
    | BodyForm =>
        option_map Some
          (propDefinitionsToJsonSchema
             (map formItemDefinition (req_body_form interfaceInfo)) customTypeMapping)
    | BodyJson =>
        if nonEmpty (req_body_other interfaceInfo) then
          option_map Some
            (if req_body_is_json_schema interfaceInfo
             then jsonSchemaStringToJsonSchema (req_body_other interfaceInfo)
                                               customTypeMapping
             else bindOption (JSON5_parse (req_body_other interfaceInfo))
                             (fun json => jsonToJsonSchema json customTypeMapping))
        else Some None
    | _ => Some None
    end
  else Some None.

(** [getRequestDataJsonSchema(interfaceInfo, customTypeMapping)]; [None]
    when a parser throws. *)
Definition getRequestDataJsonSchema (interfaceInfo : Interface)
           (customTypeMapping : list (string * JSONSchema4TypeName)) : option JSONSchema4 :=
  bindOption (requestBodySchema interfaceInfo customTypeMapping) (fun jsonSchema =>
  bindOption
    (match req_query interfaceInfo with
     | [] => Some jsonSchema
     | _ :: _ =>
         bindOption
           (propDefinitionsToJsonSchema
              (map queryItemDefinition (req_query interfaceInfo)) customTypeMapping)
           (fun queryJsonSchema => Some (Some (mergeRequestSchema jsonSchema queryJsonSchema)))
     end) (fun jsonSchema =>
  bindOption
    (match req_params interfaceInfo with
     | [] => Some jsonSchema
     | _ :: _ =>
         bindOption
           (propDefinitionsToJsonSchema
              (map paramItemDefinition (req_params interfaceInfo)) customTypeMapping)
           (fun paramsJsonSchema => Some (Some (mergeRequestSchema jsonSchema paramsJsonSchema)))
     end) (fun jsonSchema =>
  Some (match jsonSchema with
        | Some js => js
        | None => emptySchema
        end)))).
End RequestSchema.

(** ** Identifier generation ([getRequestFunctionName], [getRequestDataTypeName]) *)

(** [path.replace(/^\/+/, "")]. *)
Fixpoint stripLeadingSlashes (path : string) : string :=
  match path with
  | String c rest => if isSlash c then stripLeadingSlashes rest else path
  | EmptyString => EmptyString
  end.

(** What follows the prefix [p] in [s], when [s] starts with [p]. *)
Fixpoint dropPrefix (p s : string) : option string :=
  match p with
  | EmptyString => Some s
  | String c p' =>
      match s with
      | String d s' => if Ascii.eqb c d then dropPrefix p' s' else None
      | EmptyString => None
      end
  end.

(** [path.replace(/^api\/+/, "")]. *)
Definition stripApiPrefix (path : string) : string :=
  match dropPrefix "api/" path with
  | Some rest => stripLeadingSlashes rest
  | None => path
  end.

(** The text matched by [([^}]+)\}] at the start of [s]: the longest run of
    characters other than ["}"], when it is not empty and a ["}"] follows. *)
Fixpoint matchParam (s : string) : option string :=
  match s with
  | EmptyString => None
  | String c rest =>
      if Ascii.eqb c "}" then None
      else match rest with
           | String d _ =>
               if Ascii.eqb d "}" then Some (String c EmptyString)
               else option_map (String c) (matchParam rest)
           | EmptyString => None
           end
  end.

Section Naming.
(** [changeCase.pascalCase], handed to the functions by their caller. *)
Variable pascalCase : string -> string.

(** [path.replace(/\{([^}]+)\}/g, (_, param) => `By${pascalCase(param)}`)]:
    [skip] counts the characters of a match still to be passed over. *)
Fixpoint replaceParams (skip : nat) (path : string) : string :=
  match path with
  | EmptyString => EmptyString
  | String c rest =>
      match skip with
      | S skip' => replaceParams skip' rest
      | O =>
          if Ascii.eqb c "{" then
            match matchParam rest with
            | Some param =>
                "By" ++ pascalCase param ++ replaceParams (S (String.length param)) rest
            | None => String c (replaceParams O rest)
            end
          else String c (replaceParams O rest)
      end
  end.

(** The part of the name that comes from the path. *)
Definition pathPart (path : string) : string :=
  let path := stripApiPrefix (stripLeadingSlashes path) in
  let path := replaceParams O path in
  let pathSegments := filter nonEmpty (split "/" path) in
  String.concat "" (map pascalCase pathSegments).

(** [interfaceInfo.method || "get"]. *)
Definition methodOrGet (interfaceInfo : Interface) : string :=
  if nonEmpty (method interfaceInfo) then method interfaceInfo else "get".

Definition getRequestFunctionName (interfaceInfo : Interface) : string :=
  let methodPrefix := toLowerCase (methodOrGet interfaceInfo) in
  methodPrefix ++ pathPart (path interfaceInfo) ++ "Api".

Definition getRequestDataTypeName (interfaceInfo : Interface) : string :=
  let methodPrefix := pascalCase (toLowerCase (methodOrGet interfaceInfo)) in
  methodPrefix ++ pathPart (path interfaceInfo) ++ "RequestType".

Definition getReponseDataTypeName (interfaceInfo : Interface) : string :=
  let methodPrefix := pascalCase (toLowerCase (methodOrGet interfaceInfo)) in
  methodPrefix ++ pathPart (path interfaceInfo) ++ "ResponseType".
End Naming.

(** *** A model of [pascalCase] of the change-case library on ASCII text *)

(** ["$1\0$2"] for [/([a-z0-9])([A-Z])/g]. *)
Fixpoint splitLowerUpper (s : string) : string :=
  match s with
  | String c1 rest =>
      match rest with
      | String c2 _ =>
          if (isLower c1 || isDigit c1) && isUpper c2
          then String c1 (String zero (splitLowerUpper rest))
          else String c1 (splitLowerUpper rest)
      | EmptyString => s
      end
  | EmptyString => EmptyString
  end.

(** ["$1\0$2"] for [/([A-Z])([A-Z][a-z])/g]. *)
Fixpoint splitUpperWord (s : string) : string :=
  match s with
  | String c1 rest =>
      match rest with
      | String c2 (String c3 _) =>
          if isUpper c1 && isUpper c2 && isLower c3
          then String c1 (String zero (splitUpperWord rest))
          else String c1 (splitUpperWord rest)
      | _ => String c1 (splitUpperWord rest)
      end
  | EmptyString => EmptyString
  end.

(** The words left by [/[^A-Z0-9]+/gi]: the maximal runs of letters and
    digits; [cur] is the run being read. *)
Fixpoint wordsOf (cur : string) (s : string) : list string :=
  match s with
  | EmptyString => if nonEmpty cur then [cur] else []
  | String c rest =>
      if isAlnum c then wordsOf (cur ++ String c EmptyString) rest
      else if nonEmpty cur then cur :: wordsOf EmptyString rest
           else wordsOf EmptyString rest
  end.

(** [pascalCaseTransform(input, index)]. *)
Definition pascalCaseTransform (input : string) (index : nat) : string :=
  match input with
  | EmptyString => EmptyString
  | String firstChar lowerChars =>
      match index with
      | S _ =>
          if isDigit firstChar
          then String "_" (String firstChar (toLowerCase lowerChars))
          else String (toUpperChar firstChar) (toLowerCase lowerChars)
      | O => String (toUpperChar firstChar) (toLowerCase lowerChars)
      end
  end.

Definition pascalCaseModel (input : string) : string :=
  let ws := wordsOf EmptyString (splitUpperWord (splitLowerUpper input)) in
  String.concat "" (map (fun iw => pascalCaseTransform (snd iw) (fst iw)) (indexed ws)).

(** *** Path templates *)

(** A piece of a path segment: literal text, or a [{param}] placeholder. *)
Inductive PathPiece : Type :=
| Literal (text : string)
| Placeholder (param : string).

(** How a piece is written in the path. *)
Definition pieceSource (p : PathPiece) : string :=
  match p with
  | Literal text => text
  | Placeholder param => "{" ++ param ++ "}"
  end.

Definition segmentSource (segment : list PathPiece) : string :=
  String.concat "" (map pieceSource segment).

(** The path [/api/seg1/seg2/...] of a template, or [/seg1/seg2/...]. *)
Definition templatePath (underApi : bool) (segments : list (list PathPiece)) : string :=
  "/" ++ (if underApi then "api/" else "") ++ join "/" (map segmentSource segments).

Section TemplateNames.
Variable pascalCase : string -> string.

(** What a piece reads once the placeholders are replaced. *)
Definition pieceText (p : PathPiece) : string :=
  match p with
  | Literal text => text
  | Placeholder param => "By" ++ pascalCase param
  end.

Definition segmentText (segment : list PathPiece) : string :=
  String.concat "" (map pieceText segment).

(** Literal text holds no ["/"] and no ["{"]; a parameter name is not
    empty, holds no ["}"], and its PascalCase form holds no ["/"]. *)
Definition pieceOk (p : PathPiece) : bool :=
  match p with
  | Literal text => negb (hasChar "/" text) && negb (hasChar "{" text)
  | Placeholder param =>
      nonEmpty param && negb (hasChar "}" param)
      && negb (hasChar "/" (pascalCase param))
  end.

Definition segmentOk (segment : list PathPiece) : bool :=
  forallb pieceOk segment && nonEmpty (segmentSource segment).

(** A path written without the [api/] prefix must not start with it. *)
Definition templateOk (underApi : bool) (segments : list (list PathPiece)) : bool :=
  forallb segmentOk segments
  && (underApi
      || match dropPrefix "api/" (join "/" (map segmentSource segments)) with
         | Some _ => false
         | None => true
         end).
End TemplateNames.

(** An interface with the given method and path and no request data. *)
Definition endpoint (method path : string) : Interface :=
  {| method := method; path := path; req_body_type := BodyNone; req_body_form := [];
     req_body_other := ""; req_body_is_json_schema := false;
     req_query := []; req_params := [] |}.


(** ** Nodes of a schema tree *)

(** [n] is [root] or lies below it: the nodes a traversal from [root]
    visits. *)
Inductive nodeOf : JSONSchema4 -> JSONSchema4 -> Prop :=
| nodeOf_root (root : JSONSchema4) : nodeOf root root
| nodeOf_child (root c n : JSONSchema4) :
    In c (children root) -> nodeOf c n -> nodeOf root n.

(** A node without [$ref] and [$$ref]. *)
Definition noReference (n : JSONSchema4) : Prop := ref n = None /\ ref2 n = None.

(** A node whose [properties], when present, is keyed by names that are
    distinct and carry no surrounding white space. *)
Definition namedProperties (n : JSONSchema4) : Prop :=
  match properties n with
  | None => True
  | Some (PropertiesObject m) =>
      NoDup (map fst m) /\ forall k, In k (map fst m) -> trim k = k
  | Some (PropertiesArray _) => False
  end.

(** A node whose type names are lower-case and none of the built-in
    aliases ([byte], [short], [int], ...). *)
Definition plainTypeNames (n : JSONSchema4) : Prop :=
  forall t, In t (typeNamesOf (type n)) ->
            toLowerCase t = t /\ ~ In t (map fst builtinTypeMapping).

(** A node as the type compiler is to see it: no [title], [id], [minItems],
    [maxItems] or [default], and no additional properties when its type is
    ["object"]. *)
Definition strippedForCompiler (n : JSONSchema4) : Prop :=
  title n = None /\ schemaId n = None /\ minItems n = None /\ maxItems n = None
  /\ default n = None
  /\ (type n = Some (TypeName "object") -> additionalProperties n = Some (inl false)).

(** ** Response schemas ([getResponseDataJsonSchema]) *)

(** [ResponseBodyType] as the switch of [getResponseDataJsonSchema] reads
    it: [json], or any other value. *)
Inductive ResponseBodyType : Type := ResponseJson | ResponseNotJson.

(** The fields of the interface that describe the response. *)
Record InterfaceResponse : Type := {
  res_body_type : ResponseBodyType;
  res_body : string;
  res_body_is_json_schema : bool
}.

(** The schema [{ __is_any__: true }]. *)
Definition anySchema : JSONSchema4 := set___is_any__ (Some true) emptySchema.

(** Whether an optional [OneOrMore<string>] is truthy: a string when it is
    not empty, an array always. *)
Definition truthyDataKey (dataKey : option (OneOrMore string)) : bool :=
  match dataKey with
  | None => false
  | Some (One key) => nonEmpty key
  | Some (More _) => true
  end.

Section ResponseSchema.
(** [JSON.parse] read as a schema, [JSON5.parse], [toJsonSchema] under the
    options of [jsonToJsonSchema], and the rewriting of a Mock.js template
    that [mockjsTemplateToJsonSchema] does in place before it hands the
    template on (rules cut off the keys, placeholders replaced by sample
    values). *)
Variable JSONValue : Type.
Variable JSON_parse : string -> option JSONSchema4.
Variable JSON5_parse : string -> option JSONValue.
Variable toJsonSchema : JSONValue -> JSONSchema4.
Variable rewriteTemplate : JSONValue -> JSONValue.

Definition mockjsTemplateToJsonSchema (template : JSONValue)
           (customTypeMapping : list (string * JSONSchema4TypeName)) : option JSONSchema4 :=
  jsonToJsonSchema toJsonSchema (rewriteTemplate template) customTypeMapping.

(** The [switch] of [getResponseDataJsonSchema]: [None] when a parser throws. *)
Definition responseBodySchema (interfaceInfo : InterfaceResponse)
           (customTypeMapping : list (string * JSONSchema4TypeName)) : option JSONSchema4 :=
  match res_body_type interfaceInfo with
  | ResponseJson =>
      if nonEmpty (res_body interfaceInfo) then
        if res_body_is_json_schema interfaceInfo
        then jsonSchemaStringToJsonSchema JSON_parse (res_body interfaceInfo)
                                          customTypeMapping
        else bindOption (JSON5_parse (res_body interfaceInfo))
                        (fun template => mockjsTemplateToJsonSchema template customTypeMapping)
      else Some emptySchema
  | ResponseNotJson => Some anySchema
  end.

(** [getResponseDataJsonSchema(interfaceInfo, customTypeMapping, dataKey)]. *)
Definition getResponseDataJsonSchema (interfaceInfo : InterfaceResponse)
           (customTypeMapping : list (string * JSONSchema4TypeName))
           (dataKey : option (OneOrMore string)) : option Reached :=
  bindOption (responseBodySchema interfaceInfo customTypeMapping) (fun jsonSchema =>
  Some (match dataKey with
        | Some key =>
            if truthyDataKey dataKey then reachJsonSchema jsonSchema key
            else ReachedSchema jsonSchema
        | None => ReachedSchema jsonSchema
        end)).
End ResponseSchema.

(** [w] holds [sub] under the chain of properties named by [keys], none
    of which is ["__proto__"], and the objects on the way are keyed by
    distinct names without surrounding white space. *)
Fixpoint nestsCleanlyUnder (w : JSONSchema4) (keys : list string) (sub : JSONSchema4)
  : Prop :=
  match keys with
  | [] => w = sub
  | key :: rest =>
      exists m w', properties w = Some (PropertiesObject m)
                   /\ NoDup (map fst m)
                   /\ (forall k, In k (map fst m) -> trim k = k)
                   /\ key <> "__proto__"
                   /\ lookup m key = Some w'
                   /\ nestsCleanlyUnder w' rest sub
  end.


(** ** Path parameters of a request ([processPathParams] of [generateInterfaceCode]) *)

(** [/^\d+$/.test(s)]. *)
Fixpoint allDigits (s : string) : bool :=
  match s with
  | EmptyString => true
  | String c s' => isDigit c && allDigits s'
  end.
Definition isNumeric (s : string) : bool := nonEmpty s && allDigits s.

(** [/\{[^}]+\}/.test(path)]. *)
Fixpoint hasPathParams (path : string) : bool :=
  match path with
  | EmptyString => false
  | String c rest =>
      (Ascii.eqb c "{" && match matchParam rest with Some _ => true | None => false end)
      || hasPathParams rest
  end.

(** The [replace] of [processPathParams] with the two arrays its callback
    pushes to: the processed path, [pathParamNames], [originalPathParamNames].
    [skip] counts the characters of a match still to be passed over. *)
Fixpoint substitutePathParams (skip : nat) (path : string)
  : string * (list string * list string) :=
  match path with
  | EmptyString => (EmptyString, ([], []))
  | String c rest =>
      match skip with
      | S skip' => substitutePathParams skip' rest
      | O =>
          if Ascii.eqb c "{" then
            match matchParam rest with
            | Some paramName =>
                let validParamName :=
                  if isNumeric paramName then ("param_" ++ paramName)%string
                  else paramName in
                let '(processed, (names, originals)) :=
                  substitutePathParams (S (String.length paramName)) rest in
                (("${params." ++ validParamName ++ "}" ++ processed)%string,
                 (validParamName :: names, paramName :: originals))
            | None =>
                let '(processed, lists) := substitutePathParams O rest in
                (String c processed, lists)
            end
          else
            let '(processed, lists) := substitutePathParams O rest in
            (String c processed, lists)
      end
  end.

Record ProcessedPath : Type := {
  processedPath : string;
  useTemplate : bool;
  pathParamNames : list string;
  originalPathParamNames : list string
}.

Definition processPathParams (path : string) : ProcessedPath :=
  if hasPathParams path then
    let '(processed, (names, originals)) := substitutePathParams O path in
    {| processedPath := processed; useTemplate := true;
       pathParamNames := names; originalPathParamNames := originals |}
  else
    {| processedPath := path; useTemplate := false;
       pathParamNames := []; originalPathParamNames := [] |}.

(** How a piece of a path reads in the template literal of the request. *)
Definition pieceTemplate (p : PathPiece) : string :=
  match p with
  | Literal text => text
  | Placeholder param =>
      "${params." ++ (if isNumeric param then "param_" ++ param else param) ++ "}"
  end.

(** The parameter names of the placeholders, in order. *)
Fixpoint placeholders (pieces : list PathPiece) : list string :=
  match pieces with
  | [] => []
  | Literal _ :: rest => placeholders rest
  | Placeholder param :: rest => param :: placeholders rest
  end.

(** Literal text holds no ["{"]; a parameter name is not empty and holds
    no ["}"]. *)
Definition pieceWellFormed (p : PathPiece) : bool :=
  match p with
  | Literal text => negb (hasChar "{" text)
  | Placeholder param => nonEmpty param && negb (hasChar "}" param)
  end.

(** ** The base path of a project ([fetchProject]) *)

(** [s.replace(/\/+$/, "")]. *)
Fixpoint stripTrailingSlashes (s : string) : string :=
  match s with
  | EmptyString => EmptyString
  | String c s' =>
      match stripTrailingSlashes s' with
      | EmptyString => if isSlash c then EmptyString else String c EmptyString
      | r => String c r
      end
  end.

(** [s.replace(/^\/+/, "/")]. *)
Definition collapseLeadingSlashes (s : string) : string :=
  match s with
  | String c _ => if isSlash c then String "/" (stripLeadingSlashes s) else s
  | EmptyString => EmptyString
  end.

(** [`/${basepath || "/"}`.replace(/\/+$/, "").replace(/^\/+/, "/")];
    [None] is an absent [basepath]. *)
Definition normalizeBasePath (basepath : option string) : string :=
  let given :=
    match basepath with
    | Some b => if nonEmpty b then b else "/"
    | None => "/"
    end in
  collapseLeadingSlashes (stripTrailingSlashes ("/" ++ given)).

(** The last character of a string is not ["/"]. *)
Definition noTrailingSlash (s : string) : Prop := stripTrailingSlashes s = s.

(** ** Output files ([write]) *)

(** [p.replace(/\.js(x)?$/, ".ts$1")]. *)
Fixpoint retargetExtension (p : string) : string :=
  if String.eqb p ".js" then ".ts"
  else if String.eqb p ".jsx" then ".tsx"
  else match p with
       | EmptyString => EmptyString
       | String c p' => String c (retargetExtension p')
       end.

(** [s.endsWith(suffix)]. *)
Fixpoint endsWith (suffix s : string) : bool :=
  String.eqb s suffix
  || match s with
     | EmptyString => false
     | String _ s' => endsWith suffix s'
     end.

(** The directories that lie in no other directory of the list:
    [directories.filter(dir => !directories.some(otherDir =>
       dir !== otherDir && dir.startsWith(otherDir + path.sep)))]. *)
Definition liesIn (sep dir otherDir : string) : bool :=
  negb (String.eqb dir otherDir) && startsWith (otherDir ++ sep) dir.

Definition rootDirs (sep : string) (directories : list string) : list string :=
  filter (fun dir => negb (existsb (liesIn sep dir) directories)) directories.

(** ** The server address ([prepare]) and the title of a comment ([genComment]) *)

(** [if (item.serverUrl) item.serverUrl = item.serverUrl.replace(/\/+$/, "")]. *)
Definition preparedServerUrl (serverUrl : string) : string :=
  if nonEmpty serverUrl then stripTrailingSlashes serverUrl else serverUrl.

(** [k] slashes. *)
Fixpoint slashes (k : nat) : string :=
  match k with
  | O => EmptyString
  | S k' => String "/" (slashes k')
  end.

(** [String(title).replace(/\//g, "\\/")]. *)
Fixpoint escapeSlashes (title : string) : string :=
  match title with
  | EmptyString => EmptyString
  | String c rest =>
      if isSlash c then String "\" (String "/" (escapeSlashes rest))
      else String c (escapeSlashes rest)
  end.

(** Whether the end of a block comment occurs in a string. *)
Fixpoint hasCommentEnd (s : string) : bool :=
  match s with
  | EmptyString => false
  | String c rest =>
      (Ascii.eqb c "*" && match rest with
                          | String d _ => isSlash d
                          | EmptyString => false
                          end)
      || hasCommentEnd rest
  end.

(** ** Import paths ([getNormalizedRelativePath], [getAliasPath]) *)

(** Whether a string starts with ["/"]. *)
Definition startsWithSlash (s : string) : bool :=
  match s with
  | String c _ => isSlash c
  | EmptyString => false
  end.

(** No ["/"] is followed by another. *)
Fixpoint noDoubleSlash (s : string) : bool :=
  match s with
  | EmptyString => true
  | String c rest => negb (isSlash c && startsWithSlash rest) && noDoubleSlash rest
  end.

(** [s.replace(/^(?=[^.])/, "./")]. *)
Definition prefixDotSlash (s : string) : string :=
  match s with
  | String c _ => if Ascii.eqb c "." then s else ("./" ++ s)%string
  | EmptyString => EmptyString
  end.

(** [s.replace(/\.(ts|js)x?$/i, "")]. *)
Fixpoint stripScriptExtension (s : string) : string :=
  if existsb (String.eqb (toLowerCase s)) [".ts"; ".js"; ".tsx"; ".jsx"] then EmptyString
  else match s with
       | EmptyString => EmptyString
       | String c s' => String c (stripScriptExtension s')
       end.

(** [s.replace(/\.(ts|js|tsx|jsx)$/, "")]. *)
Fixpoint stripSourceExtension (s : string) : string :=
  if existsb (String.eqb s) [".ts"; ".js"; ".tsx"; ".jsx"] then EmptyString
  else match s with
       | EmptyString => EmptyString
       | String c s' => String c (stripSourceExtension s')
       end.

(** [s.replace(/\\/g, "/")]. *)
Fixpoint backslashesToSlashes (s : string) : string :=
  match s with
  | EmptyString => EmptyString
  | String c s' => String (if Ascii.eqb c "\" then "/"%char else c) (backslashesToSlashes s')
  end.

(** [s.substring(s.lastIndexOf(pattern) + pattern.length)], [None] when
    [pattern] does not occur in [s]. *)
Fixpoint afterLast (pattern s : string) : option string :=
  match s with
  | EmptyString => dropPrefix pattern EmptyString
  | String _ s' =>
      match afterLast pattern s' with
      | Some rest => Some rest
      | None => dropPrefix pattern s
      end
  end.

(** [getAliasPath(relativePath)]; the second parameter of the source is
    not used by it. *)
Definition getAliasPath (relativePath : string) : string :=
  if startsWith "@/" relativePath then relativePath
  else
    let normalizedPath := backslashesToSlashes relativePath in
    match afterLast "/src/" normalizedPath with
    | Some afterSrc => ("@/" ++ stripSourceExtension afterSrc)%string
    | None => relativePath
    end.

Section RelativePaths.
(** Node's [path.relative] and [path.dirname]. *)
Variable path_relative : string -> string -> string.
Variable path_dirname : string -> string.

Definition getNormalizedRelativePath (from to : string) : string :=
  stripScriptExtension (prefixDotSlash (toUnixPath (path_relative (path_dirname from) to))).

Definition getNormalizedPathWithAlias (from to : string) : string :=
  let aliasPath := getAliasPath to in
  if startsWith "@/" aliasPath then aliasPath
  else getNormalizedRelativePath from to.
End RelativePaths.

(** ** The lines of the index file ([transformPaths]) *)

(** What follows [target] at the start of [segments]. *)
Fixpoint dropSegments (target segments : list string) : option (list string) :=
  match target with
  | [] => Some segments
  | t :: target' =>
      match segments with
      | s :: segments' => if String.eqb s t then dropSegments target' segments' else None
      | [] => None
      end
  end.

(** The search loop of [transformPaths]: the segments after the first
    place where [target] occurs in a row. *)
Fixpoint afterSegments (target segments : list string) : option (list string) :=
  match dropSegments target segments with
  | Some rest => Some rest
  | None =>
      match segments with
      | [] => None
      | _ :: segments' => afterSegments target segments'
      end
  end.

Section TransformPaths.
(** Node's [path.normalize] and [path.sep]. *)
Variable path_normalize : string -> string.
Variable path_sep : ascii.

(** The callback of the [map]. *)
Definition exportLine (targetSegments : list string) (originalPath : string) : string :=
  let normalizedPath := path_normalize originalPath in
  let pathSegments := split path_sep normalizedPath in
  match afterSegments targetSegments pathSegments with
  | None => ("// 无法处理路径: " ++ originalPath)%string
  | Some [] => ("// 根目录: " ++ originalPath)%string
  | Some relativeSegments =>
      let relativePath := ("./" ++ join "/" relativeSegments ++ "/index")%string in
      ("export * from '" ++ relativePath ++ "'")%string
  end.

Definition transformPaths (pathsArray : list string) (outputDir : string) : list string :=
  let targetSegments := split "/" outputDir in
  filter nonEmpty (map (exportLine targetSegments) pathsArray).
End TransformPaths.

(** ** Weight vectors of one length *)

(** The number the comparator of [sortByWeights] answers, next to its
    arguments as they were given. *)
Definition weightOrder {T : Type} (a b : Weighted T) : Z * (Weighted T * Weighted T) :=
  (fst (compareWeights a b), (a, b)).

(** ** The adapter in front of Apifox ([ApifoxToYApiServer]) and its client *)

(** The fields of an exported interface that the export and its client
    read or write. *)
Record ExportedInterface : Type := {
  interface_id : Z;
  catid : Z;
  interface_path : string
}.

(** A category of the export: the category and its [list]. *)
Definition ExportedCategory : Type := (Category * list ExportedInterface)%type.

(** The body of the export route:
    [cats.map(cat => ({...cat, list: interfaces.filter(item => item.catid === cat._id)}))]. *)
Definition exportBody (cats : list Category) (interfaces : list ExportedInterface)
  : list ExportedCategory :=
  map (fun cat => (cat, filter (fun item => catid item =? _id cat) interfaces)) cats.

(** [fetchExport] on the answer of the export route: every path is
    prefixed with the base path of the project. *)
Definition withBasePath (basepath : string) (item : ExportedInterface) : ExportedInterface :=
  {| interface_id := interface_id item; catid := catid item;
     interface_path := basepath ++ interface_path item |}.

Definition fetchExport (basepath : string) (categoryList : list ExportedCategory)
  : list ExportedCategory :=
  map (fun cat => (fst cat, map (withBasePath basepath) (snd cat))) categoryList.

(** [fetchInterfaceList] on what [fetchExport] returned: the [list] of the
    first category that is not empty and whose first interface carries the
    category id [id]. *)
Definition fetchInterfaceList (exported : list ExportedCategory) (id : Z)
  : list ExportedInterface :=
  match find (fun cat => match snd cat with
                         | first :: _ => catid first =? id
                         | [] => false
                         end) exported with
  | Some category => snd category
  | None => []
  end.

(** ** [dedent] of [vutils/function.ts], applied to a string *)

(** The string ["\n"]. *)
Definition newline : string := String (ascii_of_N 10) EmptyString.

(** A character matched by [[\r\n]]. *)
Definition isLineBreak (c : ascii) : bool := (charCode c =? 10)%N || (charCode c =? 13)%N.

(** [text.split(/[\r\n]/g)]. *)
Fixpoint splitLines (text : string) : list string :=
  match text with
  | EmptyString => [EmptyString]
  | String c rest =>
      if isLineBreak c then EmptyString :: splitLines rest
      else match splitLines rest with
           | h :: t => String c h :: t
           | [] => [String c EmptyString]
           end
  end.

(** [line.match(/^\s*/)[0]]. *)
Fixpoint leadingWhitespace (line : string) : string :=
  match line with
  | EmptyString => EmptyString
  | String c rest => if isSpace c then String c (leadingWhitespace rest) else EmptyString
  end.

(** A line that is white space from end to end. *)
Definition isBlankLine (line : string) : bool :=
  (String.length (leadingWhitespace line) =? String.length line)%nat.

(** The three variables of the loop; [None] is [undefined]. *)
Record DedentScan : Type := {
  commonLeadingWhitespace : option string;
  firstLineIndex : option nat;
  lastLineIndex : option nat
}.

(** The body of the loop over the lines. *)
Definition scanLine (scan : DedentScan) (entry : nat * string) : DedentScan :=
  let '(index, line) := entry in
  let leading := leadingWhitespace line in
  if negb (String.length leading =? String.length line)%nat then
    {| commonLeadingWhitespace :=
         match commonLeadingWhitespace scan with
         | None => Some leading
         | Some common =>
             if (String.length leading <? String.length common)%nat
             then Some leading else Some common
         end;
       firstLineIndex :=
         match firstLineIndex scan with
         | None => Some index
         | Some first => Some first
         end;
       lastLineIndex := Some index |}
  else scan.

Definition scanLines (lines : list string) : DedentScan :=
  fold_left scanLine (indexed lines)
            {| commonLeadingWhitespace := None; firstLineIndex := None;
               lastLineIndex := None |}.

(** [line.substr(n)]. *)
Fixpoint dropChars (n : nat) (line : string) : string :=
  match n, line with
  | O, _ => line
  | S n', String _ rest => dropChars n' rest
  | S _, EmptyString => EmptyString
  end.

(** [dedent(text)]; the three variables are set together, in the first
    line that is not blank. *)
Definition dedent (text : string) : string :=
  let lines := splitLines text in
  let scan := scanLines lines in
  match commonLeadingWhitespace scan, firstLineIndex scan, lastLineIndex scan with
  | Some common, Some first, Some last =>
      join newline
           (map (dropChars (String.length common))
                (firstn (S last - first) (skipn first lines)))
  | _, _, _ => text
  end.

(** Whether a line break occurs in a string. *)
Fixpoint hasLineBreak (s : string) : bool :=
  match s with
  | EmptyString => false
  | String c rest => isLineBreak c || hasLineBreak rest
  end.
(** * Theorems *)

(** ** [Array.prototype.sort] with a comparator that leaves its arguments alone *)

Section ArraySortFacts.
Variable A : Type.
Variable comparator : A -> A -> Z * (A * A).
Hypothesis comparator_pure : forall x y, snd (comparator x y) = (x, y).

Lemma sortInsert_perm (x : A) (l : list A) :
  Permutation (sortInsert comparator x l) (x :: l).
Proof.
  induction l as [|y l IH]; simpl; [reflexivity|].
  specialize (comparator_pure x y).
  destruct (comparator x y) as [w [x' y']]; simpl in comparator_pure.
  injection comparator_pure as -> ->.
  destruct (w <=? 0); [reflexivity|].
  rewrite IH. apply perm_swap.
Qed.

Lemma Array_sort_perm (l : list A) : Permutation (Array_sort comparator l) l.
Proof.
  induction l as [|x l IH]; simpl; [reflexivity|].
  unfold Array_sort in IH. rewrite sortInsert_perm. now constructor.
Qed.

Lemma Array_sort_In (l : list A) (x : A) : In x (Array_sort comparator l) <-> In x l.
Proof.
  split; apply Permutation_in; [| symmetry]; apply Array_sort_perm.
Qed.

Hypothesis comparator_connex :
  forall x y, 0 < fst (comparator x y) -> fst (comparator y x) <= 0.

Lemma sortInsert_Sorted (x : A) (l : list A) :
  Sorted (fun a b => fst (comparator a b) <= 0) l ->
  Sorted (fun a b => fst (comparator a b) <= 0) (sortInsert comparator x l).
Proof.
  induction l as [|y l IH]; intros Hs; simpl; [repeat constructor|].
  pose proof (comparator_pure x y) as Hpure.
  pose proof (comparator_connex x y) as Hconnex.
  destruct (comparator x y) as [w [x' y']] eqn:Hxy; simpl in Hpure, Hconnex.
  injection Hpure as -> ->.
  destruct (w <=? 0) eqn:Hw.
  - apply Z.leb_le in Hw. constructor; [assumption|]. constructor.
    now rewrite Hxy.
  - apply Z.leb_gt in Hw. inversion Hs as [|? ? Hsl Hhd]; subst.
    constructor; [now apply IH|].
    destruct l as [|z l]; simpl.
    + constructor. now apply Hconnex.
    + pose proof (comparator_pure x z) as Hpz.
      destruct (comparator x z) as [w' [x'' z']]; simpl in Hpz.
      injection Hpz as -> ->.
      inversion Hhd; subst.
      destruct (w' <=? 0); constructor; [now apply Hconnex | assumption].
Qed.

Lemma Array_sort_Sorted (l : list A) :
  Sorted (fun a b => fst (comparator a b) <= 0) (Array_sort comparator l).
Proof.
  induction l as [|x l IH]; simpl; [constructor | now apply sortInsert_Sorted].
Qed.
End ArraySortFacts.

(** ** Category resolution *)

Lemma includes_In (l : list Z) (v : Z) : includes l v = true <-> In v l.
Proof.
  unfold includes. rewrite existsb_exists. split.
  - intros [x [Hx Heq]]. apply Z.eqb_eq in Heq. now subst.
  - intros H. exists v. split; [assumption | apply Z.eqb_refl].
Qed.

Lemma uniq_acc_spec (l acc : list Z) :
  NoDup acc ->
  NoDup (fold_left (fun res v => if includes res v then res else res ++ [v]) l acc)
  /\ forall x, In x (fold_left (fun res v => if includes res v then res else res ++ [v]) l acc)
               <-> In x acc \/ In x l.
Proof.
  revert acc. induction l as [|v l IH]; intros acc Hnd; simpl.
  - split; [assumption | intros x; tauto].
  - destruct (includes acc v) eqn:Hinc.
    + destruct (IH acc Hnd) as [H1 H2]. split; [assumption|].
      intros x. rewrite H2. apply includes_In in Hinc.
      split; [tauto | intros [H | [-> | H]]; tauto].
    + assert (Hnot : ~ In v acc).
      { intros Hin. apply includes_In in Hin. congruence. }
      assert (Hnd' : NoDup (acc ++ [v])).
      { apply NoDup_app; [assumption | repeat constructor; simpl; tauto |].
        intros y Hy [<- | []]. exact (Hnot Hy). }
      destruct (IH (acc ++ [v]) Hnd') as [H1 H2]. split; [assumption|].
      intros x. rewrite H2, in_app_iff. simpl. tauto.
Qed.

Lemma uniq_In (l : list Z) (x : Z) : In x (uniq l) <-> In x l.
Proof.
  unfold uniq. destruct (uniq_acc_spec l (NoDup_nil Z)) as [_ H].
  rewrite H. simpl. tauto.
Qed.

Lemma uniq_NoDup (l : list Z) : NoDup (uniq l).
Proof. unfold uniq. apply (uniq_acc_spec l (NoDup_nil Z)). Qed.

Lemma defaultSortCompare_pure (x y : Z) : snd (defaultSortCompare x y) = (x, y).
Proof. reflexivity. Qed.

(** Which ids are resolved: configured (or brought in by [0]), not excluded
    by a negative entry, and known to the project. *)
Lemma resolveCategoryIds_In (id : OneOrMore Z) (cats : list Category) (x : Z) :
  In x (resolveCategoryIds id cats) <->
  In x (expandedCategoryIds id cats)
  /\ (forall n, In n (expandedCategoryIds id cats) -> n < 0 -> Z.abs n <> Z.abs x)
  /\ In x (map _id cats).
Proof.
  unfold resolveCategoryIds.
  fold (expandedCategoryIds id cats).
  set (e := expandedCategoryIds id cats).
  rewrite (Array_sort_In defaultSortCompare defaultSortCompare_pure).
  rewrite !filter_In, uniq_In, negb_true_iff, existsb_exists.
  split.
  - intros [[Hin Hex] [c [Hc Hid]]]. apply Z.eqb_eq in Hid.
    repeat split; [assumption | | subst x; now apply in_map].
    intros n Hn Hneg Habs.
    assert (Hinc : includes (map Z.abs (filter (fun id0 => id0 <? 0) (uniq e))) (Z.abs x) = true).
    { apply includes_In. rewrite <- Habs. apply in_map.
      apply filter_In. rewrite uniq_In. split; [assumption | now apply Z.ltb_lt]. }
    congruence.
  - intros [Hin [Hex Hcat]]. repeat split; [assumption | |].
    + destruct (includes _ (Z.abs x)) eqn:Hinc; [|reflexivity].
      apply includes_In in Hinc. apply in_map_iff in Hinc.
      destruct Hinc as [n [Habs Hn]]. apply filter_In in Hn.
      destruct Hn as [Hn Hneg]. apply (proj1 (uniq_In _ _)) in Hn. apply Z.ltb_lt in Hneg.
      exfalso. exact (Hex n Hn Hneg Habs).
    + apply in_map_iff in Hcat. destruct Hcat as [c [Hid Hc]].
      exists c. split; [assumption | now apply Z.eqb_eq].
Qed.

(** Duplicates collapse to one. *)
Lemma resolveCategoryIds_NoDup (id : OneOrMore Z) (cats : list Category) :
  NoDup (resolveCategoryIds id cats).
Proof.
  unfold resolveCategoryIds.
  eapply Permutation_NoDup.
  - symmetry. apply (Array_sort_perm defaultSortCompare defaultSortCompare_pure).
  - do 2 apply NoDup_filter. apply uniq_NoDup.
Qed.

Lemma String_ltb_asym (a b : string) : String.ltb a b = true -> String.ltb b a = false.
Proof.
  unfold String.ltb. rewrite (String.compare_antisym b a).
  now destruct (String.compare a b).
Qed.

(** What the final sort achieves: the ids stand in the order of their
    decimal spelling. *)
Lemma resolveCategoryIds_sorted_by_spelling (id : OneOrMore Z) (cats : list Category) :
  Sorted (fun a b => String.ltb (Number_toString b) (Number_toString a) = false)
         (resolveCategoryIds id cats).
Proof.
  unfold resolveCategoryIds.
  eapply Sorted_ind
    with (P := fun l => Sorted (fun a b => String.ltb (Number_toString b) (Number_toString a)
                                           = false) l).
  3: { apply (Array_sort_Sorted defaultSortCompare defaultSortCompare_pure).
       intros x y. unfold defaultSortCompare. simpl.
       destruct (String.ltb (Number_toString x) (Number_toString y)) eqn:Hxy; [lia|].
       destruct (String.ltb (Number_toString y) (Number_toString x)) eqn:Hyx; lia. }
  - constructor.
  - intros a l _ IH Hhd. constructor; [assumption|].
    destruct Hhd as [|b l Hab]; constructor.
    unfold defaultSortCompare in Hab. simpl in Hab.
    destruct (String.ltb (Number_toString a) (Number_toString b)) eqn:Hlt.
    + now apply String_ltb_asym.
    + destruct (String.ltb (Number_toString b) (Number_toString a)); [lia | reflexivity].
Qed.

(** C1 (failing input).  The resolved list is ordered by the decimal
    spelling of the ids, not by their value: with categories 2 and 10 and
    the configured id 0, the result is [10; 2], which is not ascending. *)
Theorem resolveCategoryIds_orders_by_spelling :
  let cats := [ {| _id := 2; catName := "a" |}; {| _id := 10; catName := "b" |} ] in
  resolveCategoryIds (One 0) cats = [10; 2]
  /\ ~ Sorted Z.le (resolveCategoryIds (One 0) cats).
Proof.
  split; [reflexivity|].
  intros H. change (Sorted Z.le [10; 2]) in H.
  inversion H as [|? ? _ Hhd]; subst. inversion Hhd; subst. lia.
Qed.

(** ** Weight ordering *)

Lemma nth_app_zeros (w : list Z) (n i : nat) : nth i (w ++ repeat 0 n) 0 = nth i w 0.
Proof.
  destruct (Nat.lt_ge_cases i (List.length w)) as [Hlt | Hge].
  - now apply app_nth1.
  - rewrite app_nth2 by assumption. rewrite nth_repeat.
    symmetry. now apply nth_overflow.
Qed.

Lemma sameWeights_refl (u : list Z) : sameWeights u u.
Proof. intros i. reflexivity. Qed.

Lemma sameWeights_sym (u v : list Z) : sameWeights u v -> sameWeights v u.
Proof. intros H i. symmetry. apply H. Qed.

Lemma sameWeights_pad (w : list Z) (n : nat) : sameWeights w (w ++ repeat 0 n).
Proof. intros i. symmetry. apply nth_app_zeros. Qed.

Lemma lexLt_sameWeights (u u' v v' : list Z) :
  sameWeights u u' -> sameWeights v v' -> lexLt u v -> lexLt u' v'.
Proof.
  intros Hu Hv [k [Heq Hlt]]. exists k. split.
  - intros i Hi. rewrite <- Hu, <- Hv. now apply Heq.
  - now rewrite <- Hu, <- Hv.
Qed.

Lemma lexLt_asym (u v : list Z) : lexLt u v -> ~ lexLt v u.
Proof.
  intros [k [Hk Hlt]] [j [Hj Hlt']].
  destruct (Nat.lt_trichotomy k j) as [H | [H | H]].
  - specialize (Hj k H). lia.
  - subst j. lia.
  - specialize (Hk j H). lia.
Qed.

Lemma lexLt_trans (u v w : list Z) : lexLt u v -> lexLt v w -> lexLt u w.
Proof.
  intros [k [Hk Hlt]] [j [Hj Hlt']].
  destruct (Nat.lt_trichotomy k j) as [H | [H | H]].
  - exists k. split.
    + intros i Hi. rewrite Hk by assumption. apply Hj. lia.
    + rewrite <- (Hj k H). assumption.
  - subst j. exists k. split.
    + intros i Hi. rewrite Hk by assumption. now apply Hj.
    + lia.
  - exists j. split.
    + intros i Hi. rewrite Hk by lia. now apply Hj.
    + rewrite (Hk j H). assumption.
Qed.

Lemma firstDifference_fold (a b : list Z) (n s : nat) (w0 : Z) :
  let r := fold_left (fun w i => if w =? 0 then nth i a 0 - nth i b 0 else w)
                     (seq s n) w0 in
  (w0 <> 0 -> r = w0)
  /\ (w0 = 0 ->
      (r = 0 /\ forall i, (s <= i < s + n)%nat -> nth i a 0 = nth i b 0)
      \/ exists k, (s <= k < s + n)%nat
                   /\ (forall i, (s <= i < k)%nat -> nth i a 0 = nth i b 0)
                   /\ r = nth k a 0 - nth k b 0 /\ r <> 0).
Proof.
  revert s w0. induction n as [|n IH]; intros s w0; simpl.
  - split; [reflexivity|]. intros ->. left. split; [reflexivity | intros i Hi; lia].
  - destruct (IH (S s) (if w0 =? 0 then nth s a 0 - nth s b 0 else w0)) as [IHnz IHz].
    split.
    + intros Hw. apply Z.eqb_neq in Hw. rewrite Hw in *.
      apply IHnz. now apply Z.eqb_neq.
    + intros ->. simpl in *.
      destruct (Z.eq_dec (nth s a 0 - nth s b 0) 0) as [Hd | Hd].
      * destruct (IHz Hd) as [[Hr Hall] | [k [Hk [Hbefore [Hr Hnz]]]]].
        -- left. split; [assumption|]. intros i Hi.
           destruct (Nat.eq_dec i s) as [-> | Hne]; [lia | apply Hall; lia].
        -- right. exists k. repeat split; try assumption; try lia.
           intros i Hi.
           destruct (Nat.eq_dec i s) as [-> | Hne]; [lia | apply Hbefore; lia].
      * right. exists s. split; [lia|]. split; [intros i Hi; lia|].
        rewrite (IHnz Hd). split; [reflexivity | assumption].
Qed.

Lemma firstDifference_cases (a b : list Z) :
  List.length a = List.length b ->
  (firstDifference a b = 0 /\ sameWeights a b)
  \/ (firstDifference a b < 0 /\ lexLt a b)
  \/ (0 < firstDifference a b /\ lexLt b a).
Proof.
  intros Hlen. unfold firstDifference.
  destruct (firstDifference_fold a b (List.length a) 0 0) as [_ H].
  destruct (H eq_refl) as [[Hr Hall] | [k [Hk [Hbefore [Hr Hnz]]]]].
  - left. split; [assumption|]. intros i.
    destruct (Nat.lt_ge_cases i (List.length a)) as [Hlt | Hge].
    + apply Hall. lia.
    + rewrite !nth_overflow; [reflexivity | lia | lia].
  - right.
    destruct (Z.lt_trichotomy (nth k a 0 - nth k b 0) 0) as [Hlt | [Heq | Hgt]].
    + left. split; [lia|]. exists k. split; [intros i Hi; apply Hbefore; lia | lia].
    + lia.
    + right. split; [lia|]. exists k.
      split; [intros i Hi; symmetry; apply Hbefore; lia | lia].
Qed.

(** Any two vectors are comparable. *)
Lemma lexLt_trichotomy (u v : list Z) : lexLt u v \/ sameWeights u v \/ lexLt v u.
Proof.
  set (n := Nat.max (List.length u) (List.length v)).
  set (u' := u ++ repeat 0 (n - List.length u)).
  set (v' := v ++ repeat 0 (n - List.length v)).
  assert (Hlen : List.length u' = List.length v').
  { unfold u', v'. rewrite !length_app, !repeat_length. lia. }
  assert (Hu : sameWeights u u') by apply sameWeights_pad.
  assert (Hv : sameWeights v v') by apply sameWeights_pad.
  destruct (firstDifference_cases u' v' Hlen) as [[_ H] | [[_ H] | [_ H]]].
  - right. left. intros i. rewrite (Hu i), (Hv i). apply H.
  - left. eapply lexLt_sameWeights; [apply sameWeights_sym; eassumption .. | assumption].
  - right. right.
    eapply lexLt_sameWeights; [apply sameWeights_sym; eassumption .. | assumption].
Qed.

Section WeightSort.
Variable T : Type.
Implicit Types a b c : Weighted T.

Lemma Padded_refl a : Padded a a.
Proof. split; [reflexivity|]. exists 0%nat. simpl. now rewrite app_nil_r. Qed.

Lemma Padded_trans a b c : Padded a b -> Padded b c -> Padded a c.
Proof.
  intros [Hi [k Hk]] [Hi' [k' Hk']]. split; [congruence|].
  exists (k + k')%nat. rewrite Hk', Hk, <- app_assoc, repeat_app. reflexivity.
Qed.

Lemma Padded_sameWeights a b : Padded a b -> sameWeights (weights a) (weights b).
Proof. intros [_ [k ->]]. apply sameWeights_pad. Qed.

Lemma Padded_pushZeros a (n : nat) : Padded a (pushZeros a n).
Proof. split; [reflexivity | now exists n]. Qed.

Lemma notAfter_Padded a a' b b' :
  Padded a a' -> Padded b b' -> notAfter a b -> notAfter a' b'.
Proof.
  intros Ha Hb H Hlt. apply H.
  eapply lexLt_sameWeights; [| | exact Hlt];
    apply sameWeights_sym; now apply Padded_sameWeights.
Qed.

Lemma notAfter_trans a b c : notAfter a b -> notAfter b c -> notAfter a c.
Proof.
  unfold notAfter. intros Hab Hbc Hca.
  destruct (lexLt_trichotomy (weights a) (weights b)) as [H | [H | H]];
    [| | contradiction].
  - apply Hbc. eapply lexLt_trans; eassumption.
  - apply Hbc. eapply lexLt_sameWeights;
      [apply sameWeights_refl | exact H | exact Hca].
Qed.

(** What one call of the comparator does and returns. *)
Lemma compareWeights_spec a b :
  Padded a (fst (snd (compareWeights a b)))
  /\ Padded b (snd (snd (compareWeights a b)))
  /\ (fst (compareWeights a b) <= 0 -> notAfter a b)
  /\ (0 < fst (compareWeights a b) -> lexLt (weights b) (weights a)).
Proof.
  unfold compareWeights.
  set (la := List.length (weights a)). set (lb := List.length (weights b)).
  destruct (lb <? la)%nat eqn:Hcmp; simpl.
  - apply Nat.ltb_lt in Hcmp.
    assert (Hlen : List.length (weights a)
                   = List.length (weights b ++ repeat 0 (Nat.max la lb - Nat.min la lb))).
    { rewrite length_app, repeat_length. fold la lb. lia. }
    pose proof (sameWeights_pad (weights b) (Nat.max la lb - Nat.min la lb)) as Hb.
    repeat split; try apply Padded_refl; try (now eexists).
    + intros Hle Hlt.
      destruct (firstDifference_cases _ _ Hlen) as [[_ H] | [[_ H] | [H _]]]; [| | lia].
      * destruct Hlt as [k [_ Hk]]. rewrite (Hb k), (H k) in Hk. lia.
      * eapply lexLt_asym; [exact H|].
        eapply lexLt_sameWeights; [exact Hb | apply sameWeights_refl | exact Hlt].
    + intros Hpos.
      destruct (firstDifference_cases _ _ Hlen) as [[H _] | [[H _] | [_ H]]]; [lia | lia |].
      eapply lexLt_sameWeights;
        [apply sameWeights_sym; exact Hb | apply sameWeights_refl | exact H].
  - apply Nat.ltb_ge in Hcmp.
    assert (Hlen : List.length (weights a ++ repeat 0 (Nat.max la lb - Nat.min la lb))
                   = List.length (weights b)).
    { rewrite length_app, repeat_length. fold la lb. lia. }
    pose proof (sameWeights_pad (weights a) (Nat.max la lb - Nat.min la lb)) as Ha.
    repeat split; try apply Padded_refl; try (now eexists).
    + intros Hle Hlt.
      destruct (firstDifference_cases _ _ Hlen) as [[_ H] | [[_ H] | [H _]]]; [| | lia].
      * destruct Hlt as [k [_ Hk]]. rewrite (Ha k), (H k) in Hk. lia.
      * eapply lexLt_asym; [exact H|].
        eapply lexLt_sameWeights; [apply sameWeights_refl | exact Ha | exact Hlt].
    + intros Hpos.
      destruct (firstDifference_cases _ _ Hlen) as [[H _] | [[H _] | [_ H]]]; [lia | lia |].
      eapply lexLt_sameWeights;
        [apply sameWeights_refl | apply sameWeights_sym; exact Ha | exact H].
Qed.

Lemma PaddedPermutation_In (l r : list (Weighted T)) z' :
  PaddedPermutation l r -> In z' r -> exists z, In z l /\ Padded z z'.
Proof.
  intros [l' [Hperm Hall]] Hin.
  assert (Hex : exists z, In z l' /\ Padded z z').
  { clear Hperm. induction Hall as [|x y l1 l2 Hxy _ IH]; [contradiction|].
    destruct Hin as [<- | Hin].
    - exists x. split; [now left | assumption].
    - destruct (IH Hin) as [z [Hz Hp]]. exists z. split; [now right | assumption]. }
  destruct Hex as [z [Hz Hp]].
  exists z. split; [| assumption].
  eapply Permutation_in; [symmetry; exact Hperm | exact Hz].
Qed.

Lemma PaddedPermutation_cons a a' (l r : list (Weighted T)) :
  Padded a a' -> PaddedPermutation l r -> PaddedPermutation (a :: l) (a' :: r).
Proof.
  intros Ha [l' [Hperm Hall]]. exists (a :: l').
  split; [now constructor | now constructor].
Qed.

Lemma PaddedPermutation_refl (l : list (Weighted T)) : PaddedPermutation l l.
Proof.
  exists l. split; [reflexivity|].
  induction l; constructor; [apply Padded_refl | assumption].
Qed.

Lemma Forall2_Padded_trans (l1 l2 l3 : list (Weighted T)) :
  Forall2 Padded l1 l2 -> Forall2 Padded l2 l3 -> Forall2 Padded l1 l3.
Proof.
  intros H. revert l3. induction H as [|x y l l' Hxy _ IH]; intros l3 H3.
  - inversion H3. constructor.
  - inversion H3; subst. constructor; [eapply Padded_trans; eassumption | now apply IH].
Qed.

(** Padding some elements first and permuting then is a padded permutation. *)
Lemma PaddedPermutation_pre (l0 l r : list (Weighted T)) :
  Forall2 Padded l0 l -> PaddedPermutation l r -> PaddedPermutation l0 r.
Proof.
  intros H0 [l' [Hperm Hall]].
  assert (Hflip : Forall2 (fun x y => Padded y x) l l0).
  { clear -H0. induction H0; constructor; assumption. }
  destruct (Permutation_Forall2 Hperm Hflip) as [l0' [Hperm0 Hall0]].
  exists l0'. split; [assumption|].
  eapply Forall2_Padded_trans; [| exact Hall].
  clear -Hall0. induction Hall0; constructor; assumption.
Qed.

Lemma PaddedPermutation_trans (l1 l2 l3 : list (Weighted T)) :
  PaddedPermutation l1 l2 -> PaddedPermutation l2 l3 -> PaddedPermutation l1 l3.
Proof.
  intros [l1' [Hperm Hall]] H23.
  destruct (PaddedPermutation_pre Hall H23) as [l [Hp Hf]].
  exists l. split; [etransitivity; eassumption | assumption].
Qed.

Lemma PaddedPermutation_swap a b (l r : list (Weighted T)) :
  PaddedPermutation (a :: l) r -> forall b', Padded b b' ->
  PaddedPermutation (a :: b :: l) (b' :: r).
Proof.
  intros [l' [Hperm Hall]] b' Hb. exists (b :: l'). split.
  - rewrite perm_swap. now constructor.
  - now constructor.
Qed.

Lemma sortInsert_weights a (l : list (Weighted T)) :
  StronglySorted notAfter l ->
  PaddedPermutation (a :: l) (sortInsert compareWeights a l)
  /\ StronglySorted notAfter (sortInsert compareWeights a l).
Proof.
  revert a. induction l as [|y l IH]; intros a Hs; simpl.
  - split; [apply PaddedPermutation_refl | repeat constructor].
  - destruct (compareWeights_spec a y) as [Ha [Hy [Hle Hgt]]].
    destruct (compareWeights a y) as [w [a' y']]; simpl in Ha, Hy, Hle, Hgt.
    inversion Hs as [|? ? Hsl Hall]; subst.
    destruct (w <=? 0) eqn:Hw.
    + apply Z.leb_le in Hw. split.
      * do 2 (apply PaddedPermutation_cons; [assumption|]).
        apply PaddedPermutation_refl.
      * assert (Hay : notAfter a' y').
        { eapply notAfter_Padded; [exact Ha | exact Hy | now apply Hle]. }
        assert (Hyl : Forall (notAfter y') l).
        { eapply Forall_impl; [| exact Hall]. intros z Hz.
          eapply notAfter_Padded; [exact Hy | apply Padded_refl | exact Hz]. }
        constructor; [constructor; assumption|].
        constructor; [assumption|].
        eapply Forall_impl; [| exact Hyl].
        intros z Hz. eapply notAfter_trans; eassumption.
    + apply Z.leb_gt in Hw.
      destruct (IH a' Hsl) as [Hperm Hsorted]. split.
      * apply PaddedPermutation_swap; [| assumption].
        eapply PaddedPermutation_pre; [| exact Hperm].
        constructor; [assumption|].
        clear. induction l; constructor; [apply Padded_refl | assumption].
      * constructor; [assumption|].
        apply Forall_forall. intros z' Hz'.
        destruct (@PaddedPermutation_In _ _ z' Hperm Hz') as [z [Hz Hp]].
        destruct Hz as [<- | Hz].
        -- eapply notAfter_Padded; [exact Hy | exact Hp |].
           eapply notAfter_Padded; [apply Padded_refl | exact Ha |].
           apply lexLt_asym. now apply Hgt.
        -- eapply notAfter_Padded; [exact Hy | exact Hp |].
           rewrite Forall_forall in Hall. now apply Hall.
Qed.

Lemma sortByWeights_sorted_perm (l : list (Weighted T)) :
  PaddedPermutation l (sortByWeights l)
  /\ StronglySorted notAfter (sortByWeights l).
Proof.
  unfold sortByWeights.
  induction l as [|a l [IHp IHs]]; simpl.
  - split; [apply PaddedPermutation_refl | constructor].
  - destruct (sortInsert_weights a IHs) as [Hp Hs]. split; [| assumption].
    eapply PaddedPermutation_trans; [| exact Hp].
    apply PaddedPermutation_cons; [apply Padded_refl | assumption].
Qed.
End WeightSort.

Lemma StronglySorted_nth_error (A : Type) (R : A -> A -> Prop) (l : list A) :
  StronglySorted R l ->
  forall (i j : nat) (a b : A),
    (i < j)%nat -> nth_error l i = Some a -> nth_error l j = Some b -> R a b.
Proof.
  induction 1 as [|x l Hs IH Hall]; intros i j a b Hij Hi Hj.
  - destruct i; discriminate.
  - destruct j as [|j]; [lia|]. simpl in Hj. destruct i as [|i]; simpl in Hi.
    + injection Hi as <-. rewrite Forall_forall in Hall.
      apply Hall. eapply nth_error_In. exact Hj.
    + apply (IH i j); [lia | assumption | assumption].
Qed.

(** C2.  [sortByWeights] returns the items of its input (each with its
    vector possibly extended by zeros), and in the returned list an item
    whose zero-padded vector is lexicographically smaller stands before one
    whose vector is larger.  A fragment with weights [0,0,0,1] comes out
    before one with [0,0,0,2], whichever order they are given in. *)
Theorem sortByWeights_orders_lexicographically (T : Type) (l : list (Weighted T)) :
  PaddedPermutation l (sortByWeights l)
  /\ (forall (i j : nat) (a b : Weighted T),
         nth_error (sortByWeights l) i = Some a ->
         nth_error (sortByWeights l) j = Some b ->
         lexLt (weights a) (weights b) -> (i < j)%nat)
  /\ (forall x y : T,
         map (@item T)
             (sortByWeights [ {| weights := [0; 0; 0; 1]; item := x |};
                              {| weights := [0; 0; 0; 2]; item := y |} ]) = [x; y]
         /\ map (@item T)
                (sortByWeights [ {| weights := [0; 0; 0; 2]; item := y |};
                                 {| weights := [0; 0; 0; 1]; item := x |} ]) = [x; y]).
Proof.
  destruct (sortByWeights_sorted_perm l) as [Hperm Hsorted].
  split; [assumption|]. split.
  - intros i j a b Hi Hj Hlt.
    destruct (Nat.lt_trichotomy i j) as [H | [H | H]]; [assumption | |].
    + subst j. rewrite Hi in Hj. injection Hj as <-.
      exfalso. exact (lexLt_asym Hlt Hlt).
    + exfalso. exact (StronglySorted_nth_error Hsorted H Hj Hi Hlt).
  - intros x y. split; reflexivity.
Qed.

(** The two orders of the example, and a three-element list with vectors of
    unequal length, run through the statement above. *)
Lemma sortByWeights_orders_lexicographically_witness :
  (1 < 2)%nat
  /\ map (@item string)
         (sortByWeights [ {| weights := [0; 0; 0; 2]; item := "b" |};
                          {| weights := [0; 0; 0; 1]; item := "a" |} ]) = ["a"; "b"].
Proof.
  pose (l := [ {| weights := [0; 1]; item := "late" |};
               {| weights := [0; 0; 0; 2]; item := "b" |};
               {| weights := [0]; item := "first" |} ]).
  destruct (sortByWeights_orders_lexicographically l) as [_ [Hpos Hex]].
  split.
  - apply (Hpos 1%nat 2%nat {| weights := [0; 0; 0; 2]; item := "b" |}
                {| weights := [0; 1; 0; 0]; item := "late" |});
      [reflexivity | reflexivity |].
    exists 1%nat. split; [| simpl; lia].
    intros i Hi. destruct i; [reflexivity | lia].
  - apply (Hex "a" "b").
Defined.

(** ** Strings *)

Lemma toLowerChar_idempotent (c : ascii) : toLowerChar (toLowerChar c) = toLowerChar c.
Proof. destruct c as [[] [] [] [] [] [] [] []]; reflexivity. Qed.

Lemma toLowerCase_idempotent (s : string) : toLowerCase (toLowerCase s) = toLowerCase s.
Proof.
  induction s as [|c s IH]; simpl; [reflexivity|].
  now rewrite toLowerChar_idempotent, IH.
Qed.

Lemma trimEnd_idempotent (s : string) : trimEnd (trimEnd s) = trimEnd s.
Proof.
  induction s as [|c s IH]; simpl; [reflexivity|].
  destruct (trimEnd s) as [|d r] eqn:Hr.
  - destruct (isSpace c) eqn:Hc; simpl; [reflexivity | now rewrite Hc].
  - simpl in *. rewrite IH. reflexivity.
Qed.

Lemma trimStart_noLeadingSpace (s : string) : noLeadingSpace (trimStart s).
Proof.
  induction s as [|c s IH]; simpl; [exact I|].
  destruct (isSpace c) eqn:Hc; [assumption | simpl; assumption].
Qed.

Lemma trimStart_fixed (s : string) : noLeadingSpace s -> trimStart s = s.
Proof. destruct s as [|c s]; simpl; [reflexivity | now intros ->]. Qed.

Lemma trimEnd_noLeadingSpace (s : string) : noLeadingSpace s -> noLeadingSpace (trimEnd s).
Proof.
  destruct s as [|c s]; simpl; [trivial|]. intros Hc.
  destruct (trimEnd s); [rewrite Hc |]; simpl; assumption.
Qed.

Lemma trim_idempotent (s : string) : trim (trim s) = trim s.
Proof.
  unfold trim. rewrite trimStart_fixed.
  - apply trimEnd_idempotent.
  - apply trimEnd_noLeadingSpace, trimStart_noLeadingSpace.
Qed.

(** ** Objects used as dictionaries *)

Section DictionaryFacts.
Variable V : Type.
Implicit Types (obj : list (string * V)) (k key : string) (v : V).

Lemma lookup_assign obj k v key :
  lookup (assign obj k v) key = if String.eqb k key then Some v else lookup obj key.
Proof.
  induction obj as [|[k0 w] obj IH]; simpl; [reflexivity|].
  destruct (String.eqb k0 k) eqn:E; simpl.
  - apply String.eqb_eq in E. subst k0. now destruct (String.eqb k key).
  - destruct (String.eqb k0 key) eqn:E'.
    + apply String.eqb_eq in E'. subst k0. now rewrite String.eqb_sym, E.
    + exact IH.
Qed.

Lemma lookup_deleteKey obj k key :
  lookup (deleteKey obj k) key = if String.eqb k key then None else lookup obj key.
Proof.
  unfold deleteKey. induction obj as [|[k0 w] obj IH]; simpl.
  - now destruct (String.eqb k key).
  - destruct (String.eqb k0 k) eqn:E; simpl.
    + apply String.eqb_eq in E. subst k0. rewrite IH. now destruct (String.eqb k key).
    + rewrite IH. destruct (String.eqb k0 key) eqn:E'; [|reflexivity].
      apply String.eqb_eq in E'. subst k0. now rewrite String.eqb_sym, E.
Qed.

Lemma lookup_In_key obj key : (exists v, lookup obj key = Some v) <-> In key (map fst obj).
Proof.
  induction obj as [|[k0 w] obj IH]; cbn [lookup map fst In].
  - split; [intros [v H]; discriminate H | intros []].
  - destruct (String.eqb k0 key) eqn:E.
    + apply String.eqb_eq in E. split; [now left | intros _; now exists w].
    + apply String.eqb_neq in E. rewrite IH. tauto.
Qed.

Lemma assign_keys obj k v key :
  In key (map fst (assign obj k v)) <-> key = k \/ In key (map fst obj).
Proof.
  induction obj as [|[k0 w] obj IH]; simpl.
  - intuition.
  - destruct (String.eqb k0 k) eqn:E; simpl.
    + apply String.eqb_eq in E. subst k0. intuition.
    + rewrite IH. intuition.
Qed.

Lemma assign_NoDup obj k v : NoDup (map fst obj) -> NoDup (map fst (assign obj k v)).
Proof.
  induction obj as [|[k0 w] obj IH]; simpl; intros Hnd.
  - repeat constructor. simpl. tauto.
  - inversion Hnd as [|? ? Hnot Hnd']; subst.
    destruct (String.eqb k0 k) eqn:E; simpl.
    + now constructor.
    + constructor; [| now apply IH].
      rewrite assign_keys. intros [-> | H]; [| contradiction].
      now rewrite String.eqb_refl in E.
Qed.

Lemma assign_values obj k v (x : V) :
  In x (map snd (assign obj k v)) -> x = v \/ In x (map snd obj).
Proof.
  induction obj as [|[k0 w] obj IH]; simpl.
  - intuition.
  - destruct (String.eqb k0 k); simpl; intuition.
Qed.

Lemma setMember_eq obj k v :
  setMember obj k v
  = if String.eqb k "__proto__" && negb (existsb (String.eqb k) (map fst obj))
    then obj else assign obj k v.
Proof.
  unfold setMember. destruct (String.eqb k "__proto__"); [| reflexivity].
  cbn [andb]. destruct (lookup obj k) as [w|] eqn:E.
  - assert (H : existsb (String.eqb k) (map fst obj) = true).
    { apply existsb_exists. exists k. split; [| apply String.eqb_refl].
      induction obj as [|[k0 w0] obj IH]; [discriminate E |].
      cbn [lookup] in E. cbn [map fst In].
      destruct (String.eqb k0 k) eqn:E0; [left; now apply String.eqb_eq | right; now apply IH]. }
    now rewrite H.
  - assert (H : existsb (String.eqb k) (map fst obj) = false).
    { apply not_true_is_false. intros H. apply existsb_exists in H.
      destruct H as (x & Hin & Hx). apply String.eqb_eq in Hx. subst x.
      induction obj as [|[k0 w0] obj IH]; [destruct Hin |].
      cbn [lookup] in E. cbn [map fst In] in Hin.
      destruct (String.eqb k0 k) eqn:E0; [discriminate E |].
      destruct Hin as [-> | Hin]; [now rewrite String.eqb_refl in E0 | now apply IH]. }
    now rewrite H.
Qed.

Lemma setMember_plain obj k v : k <> "__proto__" -> setMember obj k v = assign obj k v.
Proof. intros H. unfold setMember. apply String.eqb_neq in H. now rewrite H. Qed.

Lemma setMember_proto_absent obj v :
  ~ In "__proto__" (map fst obj) -> setMember obj "__proto__" v = obj.
Proof.
  intros H. unfold setMember. cbn [String.eqb Ascii.eqb Bool.eqb].
  destruct (lookup obj "__proto__") as [w|] eqn:E; [| reflexivity].
  exfalso. apply H. apply lookup_In_key. now exists w.
Qed.

Lemma setMember_keys obj k v key :
  In key (map fst (setMember obj k v))
  <-> In key (map fst obj) \/ (key = k /\ k <> "__proto__").
Proof.
  unfold setMember. destruct (String.eqb k "__proto__") eqn:E.
  - apply String.eqb_eq in E. destruct (lookup obj k) as [w|] eqn:El.
    + rewrite assign_keys. split; [| tauto].
      intros [-> | H]; [| now left]. left.
      apply lookup_In_key. now exists w.
    + split; [now left | intros [H | [_ H]]; [exact H | contradiction]].
  - apply String.eqb_neq in E. rewrite assign_keys. tauto.
Qed.

Lemma setMember_NoDup obj k v : NoDup (map fst obj) -> NoDup (map fst (setMember obj k v)).
Proof.
  intros H. unfold setMember.
  destruct (String.eqb k "__proto__"); [destruct (lookup obj k) |];
    try assumption; now apply assign_NoDup.
Qed.

Lemma setMember_values obj k v (x : V) :
  In x (map snd (setMember obj k v)) -> x = v \/ In x (map snd obj).
Proof.
  unfold setMember.
  destruct (String.eqb k "__proto__"); [destruct (lookup obj k) |];
    try apply assign_values. now right.
Qed.

Lemma lookup_setMember obj k v key :
  k <> "__proto__" ->
  lookup (setMember obj k v) key = if String.eqb k key then Some v else lookup obj key.
Proof. intros H. rewrite setMember_plain by assumption. apply lookup_assign. Qed.

Lemma lookup_setMember_other obj k v key :
  key <> k -> lookup (setMember obj k v) key = lookup obj key.
Proof.
  intros H. unfold setMember.
  assert (E : String.eqb k key = false) by (apply String.eqb_neq; congruence).
  destruct (String.eqb k "__proto__"); [destruct (lookup obj k) |];
    try reflexivity; now rewrite lookup_assign, E.
Qed.

Lemma deleteKey_values obj k (x : V) :
  In x (map snd (deleteKey obj k)) -> In x (map snd obj).
Proof.
  unfold deleteKey. rewrite !in_map_iff.
  intros [kv [Hx Hin]]. apply filter_In in Hin. exists kv. tauto.
Qed.

Lemma deleteKey_NoDup obj k : NoDup (map fst obj) -> NoDup (map fst (deleteKey obj k)).
Proof.
  unfold deleteKey. induction obj as [|[k0 w] obj IH]; simpl; intros Hnd; [constructor|].
  inversion Hnd as [|? ? Hnot Hnd']; subst.
  destruct (String.eqb k0 k); simpl; [now apply IH|].
  constructor; [| now apply IH].
  rewrite in_map_iff. intros [kv [Hk Hin]]. apply filter_In in Hin.
  apply Hnot. rewrite in_map_iff. exists kv. tauto.
Qed.

Lemma lookup_In obj key v : lookup obj key = Some v -> In (key, v) obj.
Proof.
  induction obj as [|[k0 w] obj IH]; simpl; [discriminate|].
  destruct (String.eqb k0 key) eqn:E.
  - apply String.eqb_eq in E. intros [= ->]. left. now subst.
  - intros H. right. now apply IH.
Qed.

Lemma lookup_None obj key : lookup obj key = None <-> ~ In key (map fst obj).
Proof.
  induction obj as [|[k0 w] obj IH]; simpl; [tauto|].
  destruct (String.eqb k0 key) eqn:E.
  - apply String.eqb_eq in E. split; [discriminate | tauto].
  - apply String.eqb_neq in E. rewrite IH. tauto.
Qed.

Lemma lookup_NoDup_In obj key v :
  NoDup (map fst obj) -> In (key, v) obj -> lookup obj key = Some v.
Proof.
  induction obj as [|[k0 w] obj IH]; simpl; intros Hnd Hin; [contradiction|].
  inversion Hnd as [|? ? Hnot Hnd']; subst.
  destruct Hin as [[= -> ->] | Hin].
  - now rewrite String.eqb_refl.
  - destruct (String.eqb k0 key) eqn:E; [| now apply IH].
    apply String.eqb_eq in E. subst k0. exfalso. apply Hnot.
    apply in_map_iff. now exists (key, v).
Qed.

Lemma lastBinding_fold (entries : list (string * V)) key (init : option V) :
  fold_left (fun acc kv => if String.eqb (fst kv) key then Some (snd kv) else acc)
            entries init
  = match lastBinding entries key with
    | Some v => Some v
    | None => init
    end.
Proof.
  unfold lastBinding. revert init.
  induction entries as [|[k0 w] entries IH]; intros init; simpl; [reflexivity|].
  rewrite IH. rewrite (IH (if String.eqb k0 key then Some w else None)).
  destruct (fold_left _ entries None); [reflexivity|].
  now destruct (String.eqb k0 key).
Qed.

Lemma lastBinding_app (pre post : list (string * V)) key :
  lastBinding (pre ++ post) key
  = match lastBinding post key with
    | Some v => Some v
    | None => lastBinding pre key
    end.
Proof.
  unfold lastBinding at 1. rewrite fold_left_app.
  apply lastBinding_fold.
Qed.

Lemma lookup_objectSpread (a b : list (string * V)) key :
  lookup (objectSpread a b) key
  = match lastBinding b key with
    | Some v => Some v
    | None => lookup a key
    end.
Proof.
  unfold objectSpread. rewrite <- lastBinding_fold. revert a.
  induction b as [|[k0 w] b IH]; intros a; simpl; [reflexivity|].
  rewrite IH, lookup_assign. reflexivity.
Qed.

Lemma lookup_mapKeys (f : string -> string) obj key :
  lookup (mapKeys f obj) key = lastBinding (map (fun kv => (f (fst kv), snd kv)) obj) key.
Proof.
  unfold mapKeys.
  assert (H : forall acc,
             fold_left (fun res kv => assign res (f (fst kv)) (snd kv)) obj acc
             = objectSpread acc (map (fun kv => (f (fst kv), snd kv)) obj)).
  { unfold objectSpread. induction obj as [|[k0 w] obj IH]; intros acc; simpl;
      [reflexivity | apply IH]. }
  rewrite H, lookup_objectSpread. simpl. now destruct (lastBinding _ key).
Qed.

Lemma objectSpread_NoDup (a b : list (string * V)) :
  NoDup (map fst a) -> NoDup (map fst (objectSpread a b)).
Proof.
  unfold objectSpread. revert a.
  induction b as [|[k0 w] b IH]; intros a Hnd; simpl; [assumption|].
  apply IH. now apply assign_NoDup.
Qed.

Lemma lastBinding_NoDup obj key :
  NoDup (map fst obj) -> lastBinding obj key = lookup obj key.
Proof.
  induction obj as [|[k0 w] obj IH]; intros Hnd; [reflexivity|].
  inversion Hnd as [|? ? Hnot Hnd']; subst.
  change ((k0, w) :: obj) with ([(k0, w)] ++ obj).
  rewrite lastBinding_app, (IH Hnd'). simpl.
  destruct (String.eqb k0 key) eqn:E.
  - apply String.eqb_eq in E. subst k0.
    apply lookup_None in Hnot. rewrite Hnot. unfold lastBinding. simpl.
    now rewrite String.eqb_refl.
  - unfold lastBinding. simpl. rewrite E. now destruct (lookup obj key).
Qed.
End DictionaryFacts.

(** ** Traversal *)

Lemma forEachOption_impl (A B : Type) (f g : A -> option B) (l : list A) (r : list B) :
  (forall x y, In x l -> f x = Some y -> g x = Some y) ->
  forEachOption f l = Some r -> forEachOption g l = Some r.
Proof.
  revert r. induction l as [|x l IH]; intros r Hfg; simpl; [trivial|].
  destruct (f x) as [y|] eqn:Hx; simpl; [|discriminate].
  rewrite (Hfg x y (or_introl eq_refl) Hx). simpl.
  destruct (forEachOption f l) as [ys|] eqn:Hl; simpl; [|discriminate].
  rewrite (IH ys); [trivial | | reflexivity].
  intros x' y' Hin. apply Hfg. now right.
Qed.

Lemma forEachOption_total (A B : Type) (f : A -> option B) (l : list A) :
  (forall x, In x l -> exists y, f x = Some y) -> exists r, forEachOption f l = Some r.
Proof.
  induction l as [|x l IH]; intros Hf; simpl; [now eexists|].
  destruct (Hf x (or_introl eq_refl)) as [y ->]. simpl.
  destruct IH as [ys ->]; [intros x' Hin; apply Hf; now right|].
  simpl. now eexists.
Qed.

Lemma forEachOption_fixed (A : Type) (f : A -> option A) (l : list A) :
  (forall x, In x l -> f x = Some x) -> forEachOption f l = Some l.
Proof.
  induction l as [|x l IH]; intros Hf; simpl; [reflexivity|].
  rewrite (Hf x (or_introl eq_refl)). simpl.
  rewrite IH; [reflexivity | intros x' Hin; apply Hf; now right].
Qed.

Lemma forEachOption_Forall2 (A B : Type) (f : A -> option B) (l : list A) (r : list B) :
  forEachOption f l = Some r -> Forall2 (fun x y => f x = Some y) l r.
Proof.
  revert r. induction l as [|x l IH]; intros r; simpl.
  - intros [= <-]. constructor.
  - destruct (f x) as [y|] eqn:Hx; simpl; [|discriminate].
    destruct (forEachOption f l) as [ys|]; simpl; [|discriminate].
    intros [= <-]. constructor; [assumption | now apply IH].
Qed.

Lemma indexed_In (A : Type) (l : list A) (ix : nat * A) : In ix (indexed l) -> In (snd ix) l.
Proof. destruct ix as [i x]. unfold indexed. apply in_combine_r. Qed.

Lemma maxList_In (l : list nat) (n : nat) : In n l -> (n <= maxList l)%nat.
Proof.
  induction l as [|m l IH]; simpl; [contradiction|].
  intros [-> | H]; [lia | specialize (IH H); lia].
Qed.

Lemma maxList_le (l : list nat) (b : nat) :
  (forall n, In n l -> (n <= b)%nat) -> (maxList l <= b)%nat.
Proof.
  induction l as [|m l IH]; simpl; intros H; [lia|].
  assert (m <= b)%nat by (apply H; now left).
  assert (maxList l <= b)%nat by (apply IH; intros n Hn; apply H; now right).
  lia.
Qed.

Lemma height_children (s c : JSONSchema4) : In c (children s) -> (height c < height s)%nat.
Proof.
  destruct s as [f1 f2 f3 props its f6 one any all f10 f11 f12 f13 f14 f15 f16 f17 f18 f19 f20].
  unfold children. simpl. rewrite !in_app_iff.
  intros [H | [H | [H | [H | H]]]].
  - destruct props as [[m | l]|]; simpl in H; [| | contradiction].
    + apply in_map_iff in H. destruct H as [kv [<- Hin]].
      assert (height (snd kv) <= maxList (map (fun kv => height (snd kv)) m))%nat.
      { apply maxList_In. apply in_map_iff. now exists kv. }
      lia.
    + assert (height c <= maxList (map height l))%nat
        by (apply maxList_In; now apply in_map).
      lia.
  - destruct its as [[item | l]|]; simpl in H; [| | contradiction].
    + destruct H as [<- | []]. lia.
    + assert (height c <= maxList (map height l))%nat
        by (apply maxList_In; now apply in_map).
      lia.
  - destruct one as [l|]; simpl in H; [| contradiction].
    assert (height c <= maxList (map height l))%nat
      by (apply maxList_In; now apply in_map).
    lia.
  - destruct any as [l|]; simpl in H; [| contradiction].
    assert (height c <= maxList (map height l))%nat
      by (apply maxList_In; now apply in_map).
    lia.
  - destruct all as [l|]; simpl in H; [| contradiction].
    assert (height c <= maxList (map height l))%nat
      by (apply maxList_In; now apply in_map).
    lia.
Qed.

(** A bound on the children bounds the node. *)
Lemma height_bound (s : JSONSchema4) (b : nat) :
  (forall c, In c (children s) -> (height c <= b)%nat) -> (height s <= S b)%nat.
Proof.
  destruct s as [f1 f2 f3 props its f6 one any all f10 f11 f12 f13 f14 f15 f16 f17 f18 f19 f20].
  unfold children. simpl. intros H.
  assert (Hl : forall l : list JSONSchema4,
             (forall c, In c l -> (height c <= b)%nat) -> (maxList (map height l) <= b)%nat).
  { intros l Hl. apply maxList_le. intros n Hn.
    apply in_map_iff in Hn. destruct Hn as [c [<- Hc]]. now apply Hl. }
  apply le_n_S. repeat apply Nat.max_lub.
  - destruct props as [[m | l]|]; [| | lia].
    + apply maxList_le. intros n Hn. apply in_map_iff in Hn.
      destruct Hn as [kv [<- Hin]]. apply H. rewrite in_app_iff. left.
      simpl. now apply in_map.
    + apply Hl. intros c Hc. apply H. rewrite in_app_iff. now left.
  - destruct its as [[item | l]|]; [| | lia].
    + apply H. rewrite !in_app_iff. right. left. now left.
    + apply Hl. intros c Hc. apply H. rewrite !in_app_iff. right. now left.
  - destruct one as [l|]; [| lia].
    apply Hl. intros c Hc. apply H. rewrite !in_app_iff. right. right. now left.
  - destruct any as [l|]; [| lia].
    apply Hl. intros c Hc. apply H. rewrite !in_app_iff. do 3 right. now left.
  - destruct all as [l|]; [| lia].
    apply Hl. intros c Hc. apply H. rewrite !in_app_iff. do 4 right. assumption.
Qed.

Section VisitFacts.
Variables visit visit' : JSONSchema4 -> list PathSegment -> option JSONSchema4.
Variable currentPath : list PathSegment.

Lemma visitProperties_impl props r :
  (forall x q y, In x (propertyValues props) -> visit x q = Some y -> visit' x q = Some y) ->
  visitProperties visit currentPath props = Some r ->
  visitProperties visit' currentPath props = Some r.
Proof.
  intros H. destruct props as [[m | l]|]; simpl; [| | trivial].
  - destruct (forEachOption _ m) as [m'|] eqn:Hm; simpl; [|discriminate].
    intros Hr.
    apply forEachOption_impl
      with (g := fun kv => bindOption (visit' (snd kv) (currentPath ++ [PathKey (fst kv)]))
                                      (fun item => Some (fst kv, item))) in Hm.
    + rewrite Hm. exact Hr.
    + intros kv y Hin.
      destruct (visit (snd kv) _) as [item|] eqn:Hv; simpl; [|discriminate].
      intros Hy. rewrite (H _ _ _ (in_map snd _ _ Hin) Hv). exact Hy.
  - destruct (forEachOption _ (indexed l)) as [l'|] eqn:Hl; simpl; [|discriminate].
    intros Hr.
    apply forEachOption_impl
      with (g := fun ix => visit' (snd ix)
                   (currentPath ++ [PathKey (Number_toString (Z.of_nat (fst ix)))])) in Hl.
    + rewrite Hl. exact Hr.
    + intros ix y Hin. apply H. now apply indexed_In.
Qed.

Lemma visitItems_impl its r :
  (forall x q y, In x (itemValues its) -> visit x q = Some y -> visit' x q = Some y) ->
  visitItems visit currentPath its = Some r ->
  visitItems visit' currentPath its = Some r.
Proof.
  intros H. destruct its as [[item | l]|]; simpl; [| | trivial].
  - destruct (visit item _) as [item'|] eqn:Hv; simpl; [|discriminate].
    intros Hr. rewrite (H _ _ _ (or_introl eq_refl) Hv). exact Hr.
  - destruct (forEachOption _ (indexed l)) as [l'|] eqn:Hl; simpl; [|discriminate].
    intros Hr.
    apply forEachOption_impl
      with (g := fun ix => visit' (snd ix) (currentPath ++ [PathIndex (fst ix)])) in Hl.
    + rewrite Hl. exact Hr.
    + intros ix y Hin. apply H. now apply indexed_In.
Qed.

Lemma visitAlternatives_impl alts r :
  (forall x q y, In x (alternativeValues alts) -> visit x q = Some y -> visit' x q = Some y) ->
  visitAlternatives visit currentPath alts = Some r ->
  visitAlternatives visit' currentPath alts = Some r.
Proof.
  intros H. destruct alts as [l|]; simpl; [| trivial].
  destruct (forEachOption _ l) as [l'|] eqn:Hl; simpl; [|discriminate].
  intros Hr.
  apply forEachOption_impl with (g := fun item => visit' item currentPath) in Hl.
  - rewrite Hl. exact Hr.
  - intros x y Hin. now apply H.
Qed.

Lemma visitProperties_total props :
  (forall x q, In x (propertyValues props) -> exists y, visit x q = Some y) ->
  exists r, visitProperties visit currentPath props = Some r.
Proof.
  intros H. destruct props as [[m | l]|]; simpl; [| | now eexists].
  - destruct (forEachOption_total
                (fun kv => bindOption (visit (snd kv) (currentPath ++ [PathKey (fst kv)]))
                                      (fun item => Some (fst kv, item))) m) as [m' ->].
    + intros kv Hin.
      destruct (H (snd kv) (currentPath ++ [PathKey (fst kv)])) as [y ->];
        [now apply in_map | simpl; now eexists].
    + simpl. now eexists.
  - destruct (forEachOption_total
                (fun ix => visit (snd ix)
                                 (currentPath ++ [PathKey (Number_toString (Z.of_nat (fst ix)))]))
                (indexed l)) as [l' ->].
    + intros ix Hin. apply H. now apply indexed_In.
    + simpl. now eexists.
Qed.

Lemma visitItems_total its :
  (forall x q, In x (itemValues its) -> exists y, visit x q = Some y) ->
  exists r, visitItems visit currentPath its = Some r.
Proof.
  intros H. destruct its as [[item | l]|]; simpl; [| | now eexists].
  - destruct (H item (currentPath ++ [PathIndex 0])) as [y ->];
      [now left | simpl; now eexists].
  - destruct (forEachOption_total
                (fun ix => visit (snd ix) (currentPath ++ [PathIndex (fst ix)]))
                (indexed l)) as [l' ->].
    + intros ix Hin. apply H. now apply indexed_In.
    + simpl. now eexists.
Qed.

Lemma visitAlternatives_total alts :
  (forall x q, In x (alternativeValues alts) -> exists y, visit x q = Some y) ->
  exists r, visitAlternatives visit currentPath alts = Some r.
Proof.
  intros H. destruct alts as [l|]; simpl; [| now eexists].
  destruct (forEachOption_total (fun item => visit item currentPath) l) as [l' ->].
  - intros x Hin. now apply H.
  - simpl. now eexists.
Qed.
End VisitFacts.

Section VisitChildrenFacts.
Variables visit visit' : JSONSchema4 -> list PathSegment -> option JSONSchema4.
Variable currentPath : list PathSegment.

Lemma visitChildren_inv (n r : JSONSchema4) :
  visitChildren visit currentPath n = Some r ->
  exists props its one any all,
    visitProperties visit currentPath (properties n) = Some props
    /\ visitItems visit currentPath (items n) = Some its
    /\ visitAlternatives visit currentPath (oneOf n) = Some one
    /\ visitAlternatives visit currentPath (anyOf n) = Some any
    /\ visitAlternatives visit currentPath (allOf n) = Some all
    /\ r = set_allOf all (set_anyOf any (set_oneOf one
             (set_items its (set_properties props n)))).
Proof.
  unfold visitChildren.
  destruct (visitProperties _ _ _) as [props|]; simpl; [|discriminate].
  destruct (visitItems _ _ _) as [its|]; simpl; [|discriminate].
  destruct (visitAlternatives _ _ (oneOf n)) as [one|]; simpl; [|discriminate].
  destruct (visitAlternatives _ _ (anyOf n)) as [any|]; simpl; [|discriminate].
  destruct (visitAlternatives _ _ (allOf n)) as [all|]; simpl; [|discriminate].
  intros [= <-]. now exists props, its, one, any, all.
Qed.

Lemma visitChildren_impl (n r : JSONSchema4) :
  (forall x q y, In x (children n) -> visit x q = Some y -> visit' x q = Some y) ->
  visitChildren visit currentPath n = Some r ->
  visitChildren visit' currentPath n = Some r.
Proof.
  intros H Hr. apply visitChildren_inv in Hr.
  destruct Hr as (props & its & one & any & all & H1 & H2 & H3 & H4 & H5 & ->).
  unfold children in H.
  apply visitProperties_impl with (visit' := visit') in H1;
    [| intros x q y Hin; apply H; rewrite !in_app_iff; tauto].
  apply visitItems_impl with (visit' := visit') in H2;
    [| intros x q y Hin; apply H; rewrite !in_app_iff; tauto].
  apply visitAlternatives_impl with (visit' := visit') in H3;
    [| intros x q y Hin; apply H; rewrite !in_app_iff; tauto].
  apply visitAlternatives_impl with (visit' := visit') in H4;
    [| intros x q y Hin; apply H; rewrite !in_app_iff; tauto].
  apply visitAlternatives_impl with (visit' := visit') in H5;
    [| intros x q y Hin; apply H; rewrite !in_app_iff; tauto].
  unfold visitChildren. rewrite H1, H2, H3, H4, H5. reflexivity.
Qed.

Lemma visitChildren_total (n : JSONSchema4) :
  (forall x q, In x (children n) -> exists y, visit x q = Some y) ->
  exists r, visitChildren visit currentPath n = Some r.
Proof.
  clear visit'. intros H. unfold visitChildren. unfold children in H.
  destruct (@visitProperties_total visit currentPath (properties n)) as [props ->].
  { intros x q Hin. apply H. rewrite !in_app_iff. tauto. }
  destruct (@visitItems_total visit currentPath (items n)) as [its ->].
  { intros x q Hin. apply H. rewrite !in_app_iff. tauto. }
  destruct (@visitAlternatives_total visit currentPath (oneOf n)) as [one ->].
  { intros x q Hin. apply H. rewrite !in_app_iff. tauto. }
  destruct (@visitAlternatives_total visit currentPath (anyOf n)) as [any ->].
  { intros x q Hin. apply H. rewrite !in_app_iff. tauto. }
  destruct (@visitAlternatives_total visit currentPath (allOf n)) as [all ->].
  { intros x q Hin. apply H. rewrite !in_app_iff. tauto. }
  simpl. now eexists.
Qed.
End VisitChildrenFacts.

Section TraverseFacts.
Variable cb : JSONSchema4 -> list PathSegment -> JSONSchema4.

(** More fuel does not change a result. *)
Lemma traverseJsonSchema_more_fuel (fuel : nat) :
  forall s p r,
    traverseJsonSchema cb fuel s p = Some r ->
    traverseJsonSchema cb (S fuel) s p = Some r.
Proof.
  induction fuel as [|fuel IH]; intros s p r; [discriminate|].
  intros H. change (visitChildren (traverseJsonSchema cb (S fuel)) p
                                  (cb (repairProperties s) p) = Some r).
  change (visitChildren (traverseJsonSchema cb fuel) p
                        (cb (repairProperties s) p) = Some r) in H.
  eapply visitChildren_impl; [| exact H].
  intros x q y _. apply IH.
Qed.

Lemma traverseJsonSchema_fuel_le (fuel fuel' : nat) s p r :
  (fuel <= fuel')%nat ->
  traverseJsonSchema cb fuel s p = Some r ->
  traverseJsonSchema cb fuel' s p = Some r.
Proof.
  induction 1 as [|fuel' _ IH]; [trivial|].
  intros H. now apply traverseJsonSchema_more_fuel, IH.
Qed.

Lemma repairProperties_children (s c : JSONSchema4) :
  In c (children (repairProperties s)) -> In c (children s).
Proof.
  unfold repairProperties.
  destruct s as [f1 f2 f3 props its f6 one any all f10 f11 f12 f13 f14 f15 f16 f17 f18 f19 f20].
  simpl. destruct props as [[m | l]|]; trivial.
  unfold children. simpl. rewrite !in_app_iff.
  intros [H | H]; [left | now right].
  assert (Hacc : forall acc : list (string * JSONSchema4),
             In c (map snd (fold_left (fun props js => setMember props (entryName js) js)
                                      l acc))
             -> In c (map snd acc) \/ In c l).
  { clear. induction l as [|js l IH]; intros acc; simpl; [tauto|].
    intros H. destruct (IH _ H) as [H' | H']; [| tauto].
    destruct (setMember_values _ _ _ _ H') as [-> | H'']; tauto. }
  destruct (Hacc [] H) as [[] | H']. exact H'.
Qed.

Hypothesis cb_children :
  forall s p c, In c (children (cb s p)) -> In c (children s).

(** With fuel for its height, the traversal of a tree comes to an end. *)
Lemma traverseJsonSchema_total (fuel : nat) :
  forall s p, (height s <= fuel)%nat -> exists r, traverseJsonSchema cb fuel s p = Some r.
Proof.
  induction fuel as [|fuel IH]; intros s p Hh.
  - destruct s; simpl in Hh; lia.
  - change (exists r, visitChildren (traverseJsonSchema cb fuel) p
                                    (cb (repairProperties s) p) = Some r).
    apply visitChildren_total. intros x q Hin. apply IH.
    apply cb_children, repairProperties_children in Hin.
    apply height_children in Hin. lia.
Qed.
End TraverseFacts.

(** ** Normalisation *)

Lemma mapKeys_objectSpread (V : Type) (f : string -> string) (obj : list (string * V)) :
  mapKeys f obj = objectSpread [] (map (fun kv => (f (fst kv), snd kv)) obj).
Proof.
  unfold mapKeys, objectSpread. generalize (@nil (string * V)).
  induction obj as [|[k0 w] obj IH]; intros acc; simpl; [reflexivity | apply IH].
Qed.

Lemma lastBinding_None (V : Type) (l : list (string * V)) (key : string) :
  (forall kv, In kv l -> fst kv <> key) -> lastBinding l key = None.
Proof.
  induction l as [|[k0 w] l IH]; intros H; [reflexivity|].
  change ((k0, w) :: l) with ([(k0, w)] ++ l). rewrite lastBinding_app.
  rewrite IH by (intros kv Hin; apply H; now right).
  unfold lastBinding. simpl.
  destruct (String.eqb k0 key) eqn:E; [| reflexivity].
  apply String.eqb_eq in E. exfalso. exact (H (k0, w) (or_introl eq_refl) E).
Qed.

(** A custom entry shadows the built-in table; among custom entries whose
    keys agree up to case, the last one counts. *)
Lemma lookup_typeMapping (customTypeMapping : list (string * JSONSchema4TypeName))
      (key : string) :
  lookup (typeMapping customTypeMapping) key
  = match lastBinding (map (fun kv => (toLowerCase (fst kv), snd kv)) customTypeMapping) key with
    | Some target => Some target
    | None => lookup builtinTypeMapping key
    end.
Proof.
  unfold typeMapping. rewrite lookup_objectSpread.
  rewrite lastBinding_NoDup, lookup_mapKeys; [reflexivity|].
  rewrite mapKeys_objectSpread. apply objectSpread_NoDup. constructor.
Qed.

Lemma trimPropertyNames_values (m : list (string * JSONSchema4)) (x : JSONSchema4) :
  In x (map snd (trimPropertyNames m)) -> In x (map snd m).
Proof.
  unfold trimPropertyNames. generalize (map fst m) as keys. revert m.
  intros m keys. revert m.
  induction keys as [|k keys IH]; intros m; simpl; [trivial|].
  intros H. apply IH in H.
  destruct (lookup m k) as [v|] eqn:Hk; [| assumption].
  apply setMember_values in H. destruct H as [-> | H].
  - apply lookup_In in Hk. apply in_map_iff. now exists (k, v).
  - now apply deleteKey_values in H.
Qed.

(** The callback, field by field. *)
Lemma processCallback_eq customTypeMapping (s : JSONSchema4) p :
  processCallback customTypeMapping s p
  = Schema None None
           (normalizeType customTypeMapping (type s))
           (trimmedProperties (properties s))
           (collapsedItems (type s) (items s))
           (trimmedRequired (properties s) (required s))
           (oneOf s) (anyOf s) (allOf s) (name s) (title s) (description s)
           (schemaId s) (minItems s) (maxItems s) (additionalProperties s)
           (default s) (tsType s) (__is_any__ s) (other s).
Proof.
  destruct s as [f1 f2 ty props its req one any all f10 f11 f12 f13 f14 f15 f16 f17 f18 f19 f20].
  destruct ty as [[t | ts]|]; destruct its as [[item | [|first rest]]|];
    destruct props as [[m | l]|]; destruct req as [[b | names]|];
    cbv beta iota zeta delta
        [processCallback normalizeType collapsedItems trimmedProperties trimmedRequired
         type items properties required oneOf anyOf allOf name title description
         schemaId minItems maxItems additionalProperties default tsType __is_any__ other
         set_ref set_ref2 set_items set_type set_properties set_required];
    repeat match goal with
           | |- context [if ?b then _ else _] => destruct b
           end;
    reflexivity.
Qed.

Lemma repairProperties_eq (s : JSONSchema4) :
  repairProperties s = set_properties (repairedProperties (properties s)) s.
Proof.
  destruct s as [f1 f2 ty props its req one any all f10 f11 f12 f13 f14 f15 f16 f17 f18 f19 f20].
  unfold repairProperties. simpl. now destruct props as [[m | l]|].
Qed.

Lemma collapsedItems_values t its x :
  In x (itemValues (collapsedItems t its)) -> In x (itemValues its).
Proof.
  destruct t as [[t | ts]|]; destruct its as [[item | [|first rest]]|]; simpl; trivial.
  destruct (String.eqb t "array"); simpl; tauto.
Qed.

Lemma trimmedProperties_values props x :
  In x (propertyValues (trimmedProperties props)) -> In x (propertyValues props).
Proof.
  destruct props as [[m | l]|]; simpl; trivial. apply trimPropertyNames_values.
Qed.

Lemma processCallback_children customTypeMapping (s : JSONSchema4) p c :
  In c (children (processCallback customTypeMapping s p)) -> In c (children s).
Proof.
  rewrite processCallback_eq. unfold children. simpl. rewrite !in_app_iff.
  intros [H | [H | H]].
  - left. now apply trimmedProperties_values.
  - right. left. eapply collapsedItems_values. exact H.
  - tauto.
Qed.

(** [processJsonSchema] returns on every schema. *)
Lemma processJsonSchema_total (s : JSONSchema4) customTypeMapping :
  exists r, processJsonSchema s customTypeMapping = Some r.
Proof.
  unfold processJsonSchema. apply traverseJsonSchema_total; [| lia].
  intros s' p c. apply processCallback_children.
Qed.

Lemma traverseJsonSchema_inv cb (fuel : nat) s p r :
  traverseJsonSchema cb fuel s p = Some r ->
  exists fuel', fuel = S fuel'
                /\ visitChildren (traverseJsonSchema cb fuel') p
                                 (cb (repairProperties s) p) = Some r.
Proof.
  destruct fuel as [|fuel']; [discriminate|]. intros H. now exists fuel'.
Qed.

(** Visiting the children touches no other keyword. *)
Lemma visitChildren_type visit p n r :
  visitChildren visit p n = Some r -> type r = type n.
Proof.
  intros H. apply visitChildren_inv in H.
  destruct H as (props & its & one & any & all & _ & _ & _ & _ & _ & ->).
  now destruct n.
Qed.

Lemma processJsonSchema_type (s r : JSONSchema4) customTypeMapping :
  processJsonSchema s customTypeMapping = Some r ->
  type r = normalizeType customTypeMapping (type s).
Proof.
  unfold processJsonSchema. intros H. apply traverseJsonSchema_inv in H.
  destruct H as [fuel' [_ H]]. apply visitChildren_type in H.
  rewrite H, processCallback_eq, repairProperties_eq. simpl. now destruct s.
Qed.

(** The reading of [typeMapping[type] || type] as a type name, and the
    names for which it is one. *)
Lemma normalizeTypeName_eq customTypeMapping (t : string) :
  normalizeTypeName customTypeMapping t
  = match lookup (typeMapping customTypeMapping) (toLowerCase t) with
    | Some target => typeNameString target
    | None => toLowerCase t
    end.
Proof.
  unfold normalizeTypeName, mappedType, readMember.
  destruct (lookup (typeMapping customTypeMapping) (toLowerCase t)); [reflexivity |].
  now destruct (inheritedMember (toLowerCase t)).
Qed.

Lemma staysTypeName_eq customTypeMapping (t : string) :
  staysTypeName customTypeMapping t
  = match lookup (typeMapping customTypeMapping) (toLowerCase t) with
    | Some _ => true
    | None => negb (inheritedMember (toLowerCase t))
    end.
Proof.
  unfold staysTypeName, mappedType, readMember.
  destruct (lookup (typeMapping customTypeMapping) (toLowerCase t)); [reflexivity |].
  now destruct (inheritedMember (toLowerCase t)).
Qed.

(** Where the name stays a name, the name is what the code stores. *)
Lemma mappedType_stays customTypeMapping (t : string) :
  staysTypeName customTypeMapping t = true ->
  mappedType customTypeMapping (toLowerCase t)
  = MappedName (normalizeTypeName customTypeMapping t).
Proof.
  unfold staysTypeName, normalizeTypeName.
  now destruct (mappedType customTypeMapping (toLowerCase t)).
Qed.

(** The built-in table, whatever the case of the letters. *)
Lemma normalizeTypeName_builtin (t : string) :
  (In (toLowerCase t) ["byte"; "short"; "int"; "long"] -> normalizeTypeName [] t = "integer")
  /\ (In (toLowerCase t) ["float"; "double"; "bigdecimal"] ->
      normalizeTypeName [] t = "number")
  /\ (toLowerCase t = "char" -> normalizeTypeName [] t = "string")
  /\ (toLowerCase t = "void" -> normalizeTypeName [] t = "null").
Proof.
  rewrite normalizeTypeName_eq. change (typeMapping []) with builtinTypeMapping.
  repeat split; simpl In; intros H;
    repeat (destruct H as [H | H]; [rewrite <- H; reflexivity |]);
    try contradiction; rewrite H; reflexivity.
Qed.

(** A custom entry whose key equals the name up to case gives its target
    (the last such entry, should several agree up to case). *)
Lemma normalizeTypeName_custom (pre post : list (string * JSONSchema4TypeName))
      (key t : string) (target : JSONSchema4TypeName) :
  toLowerCase key = toLowerCase t ->
  (forall kv, In kv post -> toLowerCase (fst kv) <> toLowerCase t) ->
  normalizeTypeName (pre ++ (key, target) :: post) t = typeNameString target.
Proof.
  intros Hkey Hpost. rewrite normalizeTypeName_eq.
  rewrite lookup_typeMapping, map_app, lastBinding_app. simpl map.
  change ((toLowerCase key, target) :: map _ post)
    with ([(toLowerCase key, target)]
            ++ map (fun kv => (toLowerCase (fst kv), snd kv)) post).
  rewrite lastBinding_app, lastBinding_None.
  - unfold lastBinding. simpl. rewrite Hkey, String.eqb_refl. reflexivity.
  - intros kv Hin. apply in_map_iff in Hin. destruct Hin as [kv' [<- Hin']].
    simpl. now apply Hpost.
Qed.

(** A name outside the table is lower-cased and nothing else. *)
Lemma normalizeTypeName_outside customTypeMapping (t : string) :
  lookup (typeMapping customTypeMapping) (toLowerCase t) = None ->
  normalizeTypeName customTypeMapping t = toLowerCase t.
Proof. intros H. now rewrite normalizeTypeName_eq, H. Qed.

(** C4 (failing input).  For the type names ["constructor"] and
    ["__proto__"], in any case of the letters, the lookup
    [typeMapping[type]] finds the member that the table inherits from
    [Object.prototype]: what the code stores in [type] is that member, not
    the lower-cased name and not a name of the table.  A name of the table
    such as ["Int"] is mapped as the table says. *)
Theorem typeMapping_lookup_reads_inherited_members :
  let node := set_type (Some (TypeName "Constructor")) emptySchema in
  lookup (typeMapping []) (toLowerCase "Constructor") = None
  /\ mappedType [] (toLowerCase "Constructor") = MappedMember "constructor"
  /\ mappedType [] (toLowerCase "__proto__") = MappedMember "__proto__"
  /\ mappedType [] (toLowerCase "Constructor") <> MappedName "constructor"
  /\ typeNamesStay [] node = false
  /\ mappedType [] (toLowerCase "Int") = MappedName "integer".
Proof.
  cbv zeta. repeat split; try reflexivity. intros H. discriminate H.
Qed.
(** ** A second normalisation *)

Section KeyCount.
Variable V : Type.
Implicit Types (obj : list (string * V)) (k x : string) (v : V).

Lemma keyCount_deleteKey x obj k :
  keyCount x (deleteKey obj k) = if string_dec x k then 0%nat else keyCount x obj.
Proof.
  unfold keyCount, deleteKey. induction obj as [|[k0 w] obj IH]; simpl.
  - now destruct (string_dec x k).
  - destruct (String.eqb k0 k) eqn:E; simpl.
    + apply String.eqb_eq in E. subst k0. rewrite IH.
      destruct (string_dec x k) as [Heq | Hne]; [reflexivity|].
      destruct (string_dec k x); [congruence | reflexivity].
    + apply String.eqb_neq in E. rewrite IH.
      destruct (string_dec k0 x) as [Heq | Hne]; [| reflexivity].
      destruct (string_dec x k); [congruence | reflexivity].
Qed.

Lemma keyCount_assign x obj k v :
  keyCount x (assign obj k v)
  = if string_dec x k then Nat.max 1 (keyCount x obj) else keyCount x obj.
Proof.
  unfold keyCount. induction obj as [|[k0 w] obj IH]; simpl.
  - destruct (string_dec k x) as [Heq | Hne]; destruct (string_dec x k); congruence.
  - destruct (String.eqb k0 k) eqn:E; simpl.
    + apply String.eqb_eq in E. subst k0.
      destruct (string_dec k x) as [Heq | Hne]; destruct (string_dec x k);
        try congruence; lia.
    + apply String.eqb_neq in E. rewrite IH.
      destruct (string_dec k0 x) as [Heq | Hne]; destruct (string_dec x k);
        try congruence; try lia.
      destruct (count_occ string_dec (map fst obj) x); reflexivity.
Qed.

Lemma keyCount_In x obj : (0 < keyCount x obj)%nat <-> In x (map fst obj).
Proof. unfold keyCount. symmetry. apply count_occ_In. Qed.

Lemma keyCount_NoDup obj :
  (forall x, (keyCount x obj <= 1)%nat) -> NoDup (map fst obj).
Proof. intros H. apply (NoDup_count_occ string_dec). exact H. Qed.

Lemma deleteKey_keys obj k x :
  In x (map fst (deleteKey obj k)) <-> In x (map fst obj) /\ x <> k.
Proof.
  rewrite <- !keyCount_In, keyCount_deleteKey.
  destruct (string_dec x k) as [Heq | Hne]; split; intros H; try lia; tauto.
Qed.

Lemma keyCount_setMember_le x obj k v :
  (keyCount x (setMember obj k v) <= keyCount x (assign obj k v))%nat.
Proof.
  rewrite setMember_eq.
  destruct (String.eqb k "__proto__" && negb (existsb (String.eqb k) (map fst obj)));
    [| lia].
  rewrite keyCount_assign. destruct (string_dec x k); lia.
Qed.

Lemma setMember_keys_assign obj k v x :
  In x (map fst (setMember obj k v)) -> In x (map fst (assign obj k v)).
Proof. rewrite setMember_keys, assign_keys. tauto. Qed.

Lemma deleteKey_absent obj k : ~ In k (map fst obj) -> deleteKey obj k = obj.
Proof.
  unfold deleteKey. induction obj as [|[k0 w] obj IH]; simpl; intros H; [reflexivity|].
  destruct (String.eqb k0 k) eqn:E.
  - apply String.eqb_eq in E. tauto.
  - simpl. f_equal. apply IH. tauto.
Qed.

Lemma assign_absent obj k v : ~ In k (map fst obj) -> assign obj k v = obj ++ [(k, v)].
Proof.
  induction obj as [|[k0 w] obj IH]; simpl; intros H; [reflexivity|].
  destruct (String.eqb k0 k) eqn:E.
  - apply String.eqb_eq in E. tauto.
  - f_equal. apply IH. tauto.
Qed.
End KeyCount.

(** One turn of the loop that trims the property names. *)
Lemma trimPropertyNames_invariant (keys : list string) :
  forall st : list (string * JSONSchema4),
    (forall x, (2 <= keyCount x st)%nat -> In x keys) ->
    (forall x, In x (map fst st) -> trim x <> x -> In x keys) ->
    (In "__proto__" (map fst st) -> In "__proto__" keys) ->
    let st' := fold_left
                 (fun props prop =>
                    match lookup props prop with
                    | Some propDef => setMember (deleteKey props prop) (trim prop) propDef
                    | None => props
                    end) keys st in
    NoDup (map fst st') /\ (forall x, In x (map fst st') -> trim x = x)
    /\ ~ In "__proto__" (map fst st').
Proof.
  induction keys as [|k keys IH]; intros st Hdup Htrim Hproto; simpl.
  - split; [| split].
    + apply keyCount_NoDup. intros x.
      destruct (Nat.le_gt_cases (keyCount x st) 1) as [H | H]; [assumption|].
      destruct (Hdup x H).
    + intros x Hx. destruct (string_dec (trim x) x) as [H | H]; [assumption|].
      destruct (Htrim x Hx H).
    + exact Hproto.
  - apply IH.
    + intros x Hx. destruct (lookup st k) as [v|] eqn:Hk.
      * pose proof (keyCount_setMember_le x (deleteKey st k) (trim k) v) as Hle.
        assert (Hx' : (2 <= keyCount x (assign (deleteKey st k) (trim k) v))%nat) by lia.
        clear Hx Hle. rename Hx' into Hx.
        rewrite keyCount_assign, keyCount_deleteKey in Hx.
        destruct (string_dec x k) as [Heq | Hne].
        -- destruct (string_dec x (trim k)); simpl in Hx; lia.
        -- assert (H2 : (2 <= keyCount x st)%nat)
             by (destruct (string_dec x (trim k)); lia).
           destruct (Hdup x H2) as [Heq | H]; [congruence | assumption].
      * destruct (Hdup x Hx) as [Heq | H]; [| assumption].
        subst x. apply lookup_None in Hk. exfalso. apply Hk.
        apply keyCount_In. lia.
    + intros x Hx Hnt. destruct (lookup st k) as [v|] eqn:Hk.
      * apply setMember_keys_assign, assign_keys in Hx. destruct Hx as [Heq | Hx].
        -- exfalso. apply Hnt. subst x. apply trim_idempotent.
        -- apply keyCount_In in Hx. rewrite keyCount_deleteKey in Hx.
           destruct (string_dec x k) as [Heq | Hne]; [lia|].
           apply keyCount_In in Hx.
           destruct (Htrim x Hx Hnt) as [Heq | H]; [congruence | assumption].
      * destruct (Htrim x Hx Hnt) as [Heq | H]; [| assumption].
        subst x. apply lookup_None in Hk. contradiction.
    + intros Hx. destruct (lookup st k) as [v|] eqn:Hk.
      * apply setMember_keys in Hx. destruct Hx as [Hx | [Heq Hne]]; [| congruence].
        apply deleteKey_keys in Hx. destruct Hx as [Hx Hne].
        destruct (Hproto Hx) as [Heq | H]; [congruence | assumption].
      * destruct (Hproto Hx) as [Heq | H]; [| assumption].
        subst k. apply lookup_None in Hk. contradiction.
Qed.

(** After the loop the names are distinct and trimmed. *)
Lemma trimPropertyNames_normal (m : list (string * JSONSchema4)) :
  NoDup (map fst (trimPropertyNames m))
  /\ forall x, In x (map fst (trimPropertyNames m)) -> trim x = x.
Proof.
  unfold trimPropertyNames.
  destruct (@trimPropertyNames_invariant (map fst m) m) as (Hnd & Htrim & _).
  - intros x Hx. apply keyCount_In. lia.
  - intros x Hx _. assumption.
  - trivial.
  - now split.
Qed.

(** No property is left under the name ["__proto__"]. *)
Lemma trimPropertyNames_no_proto (m : list (string * JSONSchema4)) :
  ~ In "__proto__" (map fst (trimPropertyNames m)).
Proof.
  unfold trimPropertyNames.
  destruct (@trimPropertyNames_invariant (map fst m) m) as (_ & _ & Hproto).
  - intros x Hx. apply keyCount_In. lia.
  - intros x Hx _. assumption.
  - trivial.
  - exact Hproto.
Qed.

(** On distinct, trimmed names the loop puts every entry back in place,
    except an entry named ["__proto__"], which it drops. *)
Lemma trimPropertyNames_round (rest processed : list (string * JSONSchema4)) :
  NoDup (map fst (rest ++ processed)) ->
  (forall x, In x (map fst rest) -> trim x = x) ->
  ~ In "__proto__" (map fst processed) ->
  fold_left
    (fun props prop =>
       match lookup props prop with
       | Some propDef => setMember (deleteKey props prop) (trim prop) propDef
       | None => props
       end) (map fst rest) (rest ++ processed)
  = processed ++ deleteKey rest "__proto__".
Proof.
  revert processed. induction rest as [|[k v] rest IH]; intros processed Hnd Htrim Hproto.
  - simpl. now rewrite app_nil_r.
  - simpl. rewrite String.eqb_refl. simpl.
    simpl in Hnd. inversion Hnd as [|? ? Hnot Hnd']; subst.
    rewrite deleteKey_absent by assumption.
    rewrite (Htrim k (or_introl eq_refl)).
    destruct (String.eqb k "__proto__") eqn:Ek.
    + apply String.eqb_eq in Ek. subst k.
      rewrite setMember_proto_absent by assumption. cbn [negb].
      apply IH; [assumption | | assumption].
      intros x Hx. apply Htrim. now right.
    + assert (Hne : k <> "__proto__") by now apply String.eqb_neq.
      rewrite setMember_plain by assumption.
      rewrite assign_absent by assumption.
      rewrite <- app_assoc.
      rewrite IH.
      * cbn [negb]. rewrite <- app_assoc. reflexivity.
      * apply Permutation_NoDup with (l := k :: map fst (rest ++ processed));
          [| now constructor].
        rewrite app_assoc, (map_app fst (rest ++ processed)). simpl.
        apply Permutation_cons_append.
      * intros x Hx. apply Htrim. now right.
      * rewrite map_app, in_app_iff. cbn [map fst In]. intros [H | [H | []]];
          [contradiction | congruence].
Qed.

(** On distinct, trimmed names the loop drops the entry named
    ["__proto__"] and keeps the others. *)
Lemma trimPropertyNames_clean (m : list (string * JSONSchema4)) :
  NoDup (map fst m) -> (forall x, In x (map fst m) -> trim x = x) ->
  trimPropertyNames m = deleteKey m "__proto__".
Proof.
  intros Hnd Htrim. unfold trimPropertyNames.
  rewrite <- (app_nil_r m) at 2. rewrite trimPropertyNames_round.
  - reflexivity.
  - now rewrite app_nil_r.
  - assumption.
  - intros [].
Qed.

Lemma trimPropertyNames_fixed (m : list (string * JSONSchema4)) :
  NoDup (map fst m) -> (forall x, In x (map fst m) -> trim x = x) ->
  ~ In "__proto__" (map fst m) ->
  trimPropertyNames m = m.
Proof.
  intros Hnd Htrim Hproto. rewrite trimPropertyNames_clean by assumption.
  now apply deleteKey_absent.
Qed.

Ltac schema_simpl :=
  cbn [ref ref2 type properties items required oneOf anyOf allOf name title description
       schemaId minItems maxItems additionalProperties default tsType __is_any__ other
       set_ref set_ref2 set_type set_properties set_items set_required set_oneOf
       set_anyOf set_allOf withChildren].

Ltac schema_simpl_in H :=
  cbn [ref ref2 type properties items required oneOf anyOf allOf name title description
       schemaId minItems maxItems additionalProperties default tsType __is_any__ other
       set_ref set_ref2 set_type set_properties set_items set_required set_oneOf
       set_anyOf set_allOf withChildren] in H.

Lemma normalizeTypeName_stable customTypeMapping :
  stableTypeMapping customTypeMapping = true ->
  forall t, normalizeTypeName customTypeMapping (normalizeTypeName customTypeMapping t)
            = normalizeTypeName customTypeMapping t.
Proof.
  intros Hs t.
  assert (Hcases :
            (exists target, In (toLowerCase t, target) (typeMapping customTypeMapping)
                            /\ normalizeTypeName customTypeMapping t = typeNameString target)
            \/ (lookup (typeMapping customTypeMapping) (toLowerCase t) = None
                /\ normalizeTypeName customTypeMapping t = toLowerCase t)).
  { rewrite normalizeTypeName_eq.
    destruct (lookup (typeMapping customTypeMapping) (toLowerCase t)) as [target|] eqn:Hl.
    - left. exists target. split; [now apply lookup_In | reflexivity].
    - right. now split. }
  destruct Hcases as [(target & Hin & ->) | (Hl & ->)].
  - unfold stableTypeMapping in Hs. rewrite forallb_forall in Hs.
    specialize (Hs _ Hin). cbn [snd] in Hs. now apply String.eqb_eq in Hs.
  - now rewrite normalizeTypeName_eq, toLowerCase_idempotent, Hl.
Qed.

Lemma normalizeType_stable customTypeMapping t :
  stableTypeMapping customTypeMapping = true ->
  normalizeType customTypeMapping (normalizeType customTypeMapping t)
  = normalizeType customTypeMapping t.
Proof.
  intros Hs. destruct t as [[t | ts]|]; [| | reflexivity].
  - cbn [normalizeType]. destruct (nonEmpty t) eqn:Hne; cbn [normalizeType].
    + destruct (nonEmpty (normalizeTypeName customTypeMapping t));
        [now rewrite normalizeTypeName_stable | reflexivity].
    + now rewrite Hne.
  - cbn [normalizeType]. rewrite map_map. do 2 f_equal.
    apply map_ext. intros t. now apply normalizeTypeName_stable.
Qed.

Lemma trimmedProperties_second props props' :
  sameNames (trimmedProperties (repairedProperties props)) props' ->
  repairedProperties props' = props' /\ trimmedProperties props' = props'.
Proof.
  assert (Hobj : forall m m' : list (string * JSONSchema4),
             map fst m' = map fst (trimPropertyNames m) ->
             trimPropertyNames m' = m').
  { intros m m' Hkeys. destruct (trimPropertyNames_normal m) as [Hnd Htrim].
    pose proof (trimPropertyNames_no_proto m) as Hproto.
    apply trimPropertyNames_fixed; rewrite Hkeys; assumption. }
  destruct props as [[m | l]|]; destruct props' as [[m' | l']|]; simpl;
    try contradiction; intros H; split; try reflexivity;
    now rewrite (Hobj _ _ H).
Qed.

Lemma trimmedRequired_second props props' req :
  sameNames (trimmedProperties (repairedProperties props)) props' ->
  trimmedRequired props' (trimmedRequired (repairedProperties props) req)
  = trimmedRequired (repairedProperties props) req.
Proof.
  destruct props as [[m | l]|]; destruct props' as [[m' | l']|]; simpl;
    try contradiction; intros _; destruct req as [[b | names]|]; simpl; try reflexivity;
    rewrite map_map; do 2 f_equal; apply map_ext; intros x; apply trim_idempotent.
Qed.

Lemma collapsedItems_second customTypeMapping (s : JSONSchema4) its' :
  lateArrayTuple customTypeMapping s = false ->
  sameItemsForm (collapsedItems (type s) (items s)) its' ->
  collapsedItems (normalizeType customTypeMapping (type s)) its' = its'.
Proof.
  unfold lateArrayTuple.
  destruct (type s) as [[t | ts]|]; destruct (items s) as [[item | [|first rest]]|];
    destruct its' as [[item' | [|first' rest']]|]; simpl; try contradiction;
    try reflexivity; try discriminate;
    try (destruct (nonEmpty t); reflexivity).
  - destruct (String.eqb t "array") eqn:Harr; simpl; [contradiction|].
    intros Hlate _. destruct (nonEmpty t) eqn:Hne; simpl in *.
    + now rewrite Hlate.
    + now rewrite Harr.
Qed.

Lemma Forall2_length_eq (A B : Type) (R : A -> B -> Prop) (l : list A) (l' : list B) :
  Forall2 R l l' -> List.length l' = List.length l.
Proof. induction 1; simpl; congruence. Qed.

Lemma Forall2_In_r (A B : Type) (R : A -> B -> Prop) (l : list A) (l' : list B) (y : B) :
  Forall2 R l l' -> In y l' -> exists x, In x l /\ R x y.
Proof.
  induction 1 as [|x y' l l' Hxy _ IH]; [contradiction|].
  intros [<- | Hin].
  - exists x. split; [now left | assumption].
  - destruct (IH Hin) as [x' [Hx' Hr]]. exists x'. split; [now right | assumption].
Qed.

Section VisitShape.
Variable visit : JSONSchema4 -> list PathSegment -> option JSONSchema4.
Variable currentPath : list PathSegment.

Lemma visitProperties_shape props props' :
  visitProperties visit currentPath props = Some props' ->
  sameNames props props'
  /\ forall c', In c' (propertyValues props') ->
                exists c q, In c (propertyValues props) /\ visit c q = Some c'.
Proof.
  destruct props as [[m | l]|]; simpl.
  - destruct (forEachOption _ m) as [m'|] eqn:Hm; simpl; [|discriminate].
    intros [= <-]. apply forEachOption_Forall2 in Hm. simpl. split.
    + induction Hm as [|kv kv' m m' Hkv _ IH]; [reflexivity|]. simpl.
      destruct (visit (snd kv) _); simpl in Hkv; [|discriminate].
      injection Hkv as <-. simpl. now rewrite IH.
    + intros c' Hin. apply in_map_iff in Hin. destruct Hin as [kv' [<- Hin]].
      destruct (Forall2_In_r _ Hm Hin) as [kv [Hkv Hv]].
      destruct (visit (snd kv) _) as [item|] eqn:Hvisit; simpl in Hv; [|discriminate].
      injection Hv as <-. exists (snd kv). eexists. split; [now apply in_map|].
      exact Hvisit.
  - destruct (forEachOption _ (indexed l)) as [l'|] eqn:Hl; simpl; [|discriminate].
    intros [= <-]. apply forEachOption_Forall2 in Hl. simpl. split.
    + rewrite (Forall2_length_eq Hl). unfold indexed.
      rewrite length_combine, length_seq. lia.
    + intros c' Hin. destruct (Forall2_In_r _ Hl Hin) as [ix [Hix Hv]].
      exists (snd ix). eexists. split; [now apply indexed_In | exact Hv].
  - intros [= <-]. split; [exact I | intros c' []].
Qed.

Lemma visitItems_shape its its' :
  visitItems visit currentPath its = Some its' ->
  sameItemsForm its its'
  /\ forall c', In c' (itemValues its') ->
                exists c q, In c (itemValues its) /\ visit c q = Some c'.
Proof.
  destruct its as [[item | l]|]; simpl.
  - destruct (visit item _) as [item'|] eqn:Hv; simpl; [|discriminate].
    intros [= <-]. simpl. split; [exact I|].
    intros c' [<- | []]. exists item. eexists. split; [now left | exact Hv].
  - destruct (forEachOption _ (indexed l)) as [l'|] eqn:Hl; simpl; [|discriminate].
    intros [= <-]. apply forEachOption_Forall2 in Hl. simpl. split.
    + rewrite (Forall2_length_eq Hl). unfold indexed.
      rewrite length_combine, length_seq. lia.
    + intros c' Hin. destruct (Forall2_In_r _ Hl Hin) as [ix [Hix Hv]].
      exists (snd ix). eexists. split; [now apply indexed_In | exact Hv].
  - intros [= <-]. split; [exact I | intros c' []].
Qed.

Lemma visitAlternatives_shape alts alts' :
  visitAlternatives visit currentPath alts = Some alts' ->
  forall c', In c' (alternativeValues alts') ->
             exists c q, In c (alternativeValues alts) /\ visit c q = Some c'.
Proof.
  destruct alts as [l|]; simpl.
  - destruct (forEachOption _ l) as [l'|] eqn:Hl; simpl; [|discriminate].
    intros [= <-]. apply forEachOption_Forall2 in Hl. simpl.
    intros c' Hin. destruct (Forall2_In_r _ Hl Hin) as [c [Hc Hv]].
    exists c. eexists. split; [assumption | exact Hv].
  - intros [= <-] c' [].
Qed.

Lemma forEachOption_indexed_fixed (l : list JSONSchema4)
      (f : nat -> list PathSegment) :
  (forall c, In c l -> forall q, visit c q = Some c) ->
  forall start,
    forEachOption (fun ix => visit (snd ix) (f (fst ix)))
                  (combine (seq start (List.length l)) l) = Some l.
Proof.
  induction l as [|c l IH]; intros H start; simpl; [reflexivity|].
  rewrite (H c (or_introl eq_refl)). simpl.
  rewrite IH; [reflexivity | intros c' Hin; apply H; now right].
Qed.

(** Children that the visit leaves alone leave the node alone. *)
Lemma visitChildren_fixed (r : JSONSchema4) :
  (forall c, In c (children r) -> forall q, visit c q = Some c) ->
  visitChildren visit currentPath r = Some r.
Proof.
  destruct r as [f1 f2 ty props its req one any all f10 f11 f12 f13 f14 f15 f16 f17 f18 f19 f20].
  unfold children, visitChildren. schema_simpl. intros H.
  assert (Hp : visitProperties visit currentPath props = Some props).
  { destruct props as [[m | l]|]; simpl; [| | reflexivity].
    - rewrite forEachOption_fixed; [reflexivity|].
      intros [k v] Hin. simpl. rewrite H; [reflexivity|].
      rewrite in_app_iff. left. simpl. apply in_map_iff. now exists (k, v).
    - unfold indexed.
      rewrite (forEachOption_indexed_fixed l
                 (fun i => currentPath ++ [PathKey (Number_toString (Z.of_nat i))]));
        [reflexivity|].
      intros c Hin. apply H. rewrite in_app_iff. now left. }
  assert (Hi : visitItems visit currentPath its = Some its).
  { destruct its as [[item | l]|]; simpl; [| | reflexivity].
    - rewrite H; [reflexivity|]. rewrite !in_app_iff. right. left. now left.
    - unfold indexed.
      rewrite (forEachOption_indexed_fixed l (fun i => currentPath ++ [PathIndex i]));
        [reflexivity|].
      intros c Hin. apply H. rewrite !in_app_iff. right. now left. }
  assert (Ha : forall alts, (forall c, In c (alternativeValues alts) ->
                                       forall q, visit c q = Some c) ->
                            visitAlternatives visit currentPath alts = Some alts).
  { intros [l|] Hl; simpl; [| reflexivity].
    rewrite forEachOption_fixed; [reflexivity|]. intros c Hin. now apply Hl. }
  rewrite Hp, Hi. simpl.
  rewrite !Ha; [reflexivity | | |]; intros c Hin; apply H; rewrite !in_app_iff; tauto.
Qed.
End VisitShape.

Lemma everyNode_inv (p : JSONSchema4 -> bool) (s : JSONSchema4) :
  everyNode p s = true ->
  p s = true /\ forall c, In c (children s) -> everyNode p c = true.
Proof.
  destruct s as [f1 f2 ty props its req one any all f10 f11 f12 f13 f14 f15 f16 f17 f18 f19 f20].
  cbn [everyNode]. intros H.
  apply andb_prop in H. destruct H as [Hp H]. split; [assumption|].
  apply andb_prop in H. destruct H as [H Hall].
  apply andb_prop in H. destruct H as [H Hany].
  apply andb_prop in H. destruct H as [H Hone].
  apply andb_prop in H. destruct H as [Hprops Hits].
  assert (Hl : forall alts,
             match alts with Some l => forallb (everyNode p) l | None => true end = true ->
             forall c, In c (alternativeValues alts) -> everyNode p c = true).
  { intros [l|] Hf c Hin; simpl in Hin; [| contradiction].
    rewrite forallb_forall in Hf. now apply Hf. }
  unfold children. schema_simpl. intros c. rewrite !in_app_iff.
  intros [Hin | [Hin | [Hin | [Hin | Hin]]]].
  - destruct props as [[m | l]|]; simpl in Hin; [| | contradiction].
    + apply in_map_iff in Hin. destruct Hin as [kv [<- Hin]].
      rewrite forallb_forall in Hprops. now apply Hprops.
    + rewrite forallb_forall in Hprops. now apply Hprops.
  - destruct its as [[item | l]|]; simpl in Hin; [| | contradiction].
    + destruct Hin as [<- | []]. assumption.
    + rewrite forallb_forall in Hits. now apply Hits.
  - now apply (Hl one).
  - now apply (Hl any).
  - now apply (Hl all).
Qed.

Lemma children_withChildren props its one any all (n : JSONSchema4) :
  children (withChildren props its one any all n)
  = propertyValues props ++ itemValues its ++ alternativeValues one
    ++ alternativeValues any ++ alternativeValues all.
Proof. now destruct n. Qed.

Lemma visitChildren_withChildren visit p (n r : JSONSchema4) :
  visitChildren visit p n = Some r ->
  exists props its one any all,
    r = withChildren props its one any all n
    /\ sameNames (properties n) props
    /\ sameItemsForm (items n) its
    /\ forall c', In c' (children r) ->
                  exists c q, In c (children n) /\ visit c q = Some c'.
Proof.
  intros H. apply visitChildren_inv in H.
  destruct H as (props & its & one & any & all & H1 & H2 & H3 & H4 & H5 & ->).
  exists props, its, one, any, all.
  apply visitProperties_shape in H1. destruct H1 as [Hn Hp].
  apply visitItems_shape in H2. destruct H2 as [Hf Hi].
  pose proof (visitAlternatives_shape _ _ _ H3) as Ho.
  pose proof (visitAlternatives_shape _ _ _ H4) as Ha.
  pose proof (visitAlternatives_shape _ _ _ H5) as Hl.
  repeat split; try assumption.
  fold (withChildren props its one any all n). rewrite children_withChildren.
  unfold children. intros c'. rewrite !in_app_iff.
  intros [Hin | [Hin | [Hin | [Hin | Hin]]]];
    [destruct (Hp c' Hin) as (c & q & Hc & Hv)
    | destruct (Hi c' Hin) as (c & q & Hc & Hv)
    | destruct (Ho c' Hin) as (c & q & Hc & Hv)
    | destruct (Ha c' Hin) as (c & q & Hc & Hv)
    | destruct (Hl c' Hin) as (c & q & Hc & Hv)];
    exists c, q; (split; [rewrite !in_app_iff; tauto | exact Hv]).
Qed.

(** On a node the first pass has been through, the callback changes
    nothing. *)
Lemma processCallback_second customTypeMapping (s : JSONSchema4) p p'
      props its one any all :
  stableTypeMapping customTypeMapping = true ->
  lateArrayTuple customTypeMapping s = false ->
  sameNames (properties (processCallback customTypeMapping (repairProperties s) p)) props ->
  sameItemsForm (items (processCallback customTypeMapping (repairProperties s) p)) its ->
  processCallback customTypeMapping
                  (repairProperties
                     (withChildren props its one any all
                        (processCallback customTypeMapping (repairProperties s) p))) p'
  = withChildren props its one any all
                 (processCallback customTypeMapping (repairProperties s) p).
Proof.
  intros Hstable Hlate.
  pose proof (fun its' => @collapsedItems_second customTypeMapping s its' Hlate) as Hitems.
  destruct s as [f1 f2 ty props0 its0 req one0 any0 all0 f10 f11 f12 f13 f14 f15 f16 f17 f18 f19 f20].
  rewrite (repairProperties_eq (Schema _ _ _ _ _ _ _ _ _ _ _ _ _ _ _ _ _ _ _ _)).
  rewrite processCallback_eq. schema_simpl. schema_simpl_in Hitems.
  intros Hn Hi.
  rewrite repairProperties_eq, processCallback_eq. schema_simpl.
  destruct (trimmedProperties_second _ _ Hn) as [Hrep Htrim].
  rewrite Hrep, Htrim. rewrite normalizeType_stable by assumption.
  rewrite (Hitems its Hi). rewrite trimmedRequired_second by assumption.
  reflexivity.
Qed.

(** A tree the first pass has been through is a fixed point of the pass. *)
Lemma traverse_process_fixed customTypeMapping :
  stableTypeMapping customTypeMapping = true ->
  forall (fuel : nat) (s : JSONSchema4) p r,
    noLateArrayTuple customTypeMapping s = true ->
    traverseJsonSchema (processCallback customTypeMapping) fuel s p = Some r ->
    forall p', traverseJsonSchema (processCallback customTypeMapping) fuel r p' = Some r.
Proof.
  intros Hstable. induction fuel as [|fuel IH]; intros s p r Hlate Hr p'; [discriminate|].
  change (visitChildren (traverseJsonSchema (processCallback customTypeMapping) fuel) p
                        (processCallback customTypeMapping (repairProperties s) p)
          = Some r) in Hr.
  change (visitChildren (traverseJsonSchema (processCallback customTypeMapping) fuel) p'
                        (processCallback customTypeMapping (repairProperties r) p')
          = Some r).
  apply everyNode_inv in Hlate. destruct Hlate as [Hnode Hchildren].
  apply negb_true_iff in Hnode.
  apply visitChildren_withChildren in Hr.
  destruct Hr as (props & its & one & any & all & -> & Hn & Hi & Hc).
  rewrite processCallback_second by assumption.
  apply visitChildren_fixed. intros c' Hin q.
  destruct (Hc c' Hin) as (c & q0 & Hcin & Hv).
  apply (IH c q0 c'); [| exact Hv].
  apply Hchildren.
  apply repairProperties_children.
  eapply processCallback_children. exact Hcin.
Qed.
(** ** Reaching into a schema *)

(** An own key is what the lookup finds, whatever the prototype holds. *)
Lemma getProperty_own (w next : JSONSchema4) (m : list (string * JSONSchema4))
      (segment : string) :
  properties w = Some (PropertiesObject m) -> lookup m segment = Some next ->
  getProperty (ReachedSchema w) segment = Some (ReachedSchema next).
Proof. intros Hp Hk. cbn [getProperty]. unfold readMember. now rewrite Hp, Hk. Qed.

(** A name that is neither an own key nor an inherited member is not found. *)
Lemma getProperty_absent (w : JSONSchema4) (m : list (string * JSONSchema4))
      (segment : string) :
  properties w = Some (PropertiesObject m) -> lookup m segment = None ->
  inheritedMember segment = false ->
  getProperty (ReachedSchema w) segment = None.
Proof. intros Hp Hk Hi. cbn [getProperty]. unfold readMember. now rewrite Hp, Hk, Hi. Qed.

(** A name that is no own key but names an inherited member finds that
    member, and nothing is found below a member. *)
Lemma reachFrom_inherited (jsonSchema w : JSONSchema4) (m : list (string * JSONSchema4))
      (segment : string) (rest : list string) :
  properties w = Some (PropertiesObject m) -> lookup m segment = None ->
  inheritedMember segment = true ->
  reachFrom jsonSchema (ReachedSchema w) (segment :: rest)
  = match rest with
    | [] => ReachedMember segment
    | _ :: _ => ReachedSchema jsonSchema
    end.
Proof.
  intros Hp Hk Hi. cbn [reachFrom getProperty]. unfold readMember.
  rewrite Hp, Hk, Hi. cbn [truthy]. now destruct rest.
Qed.

(** C7 (failing input).  The schema [{properties: {a: {}}}] has no
    property named [toString], yet reaching for ["toString"] does not
    return the schema: [last.properties?.[segment]] finds the member that
    the object [properties] inherits under that name, and the function
    returns that member. *)
Theorem reachJsonSchema_returns_inherited_member :
  let jsonSchema :=
    set_properties (Some (PropertiesObject [("a", emptySchema)])) emptySchema in
  lookup [("a", emptySchema)] "toString" = None
  /\ reachJsonSchema jsonSchema (One "toString") = ReachedMember "toString"
  /\ reachJsonSchema jsonSchema (One "toString") <> ReachedSchema jsonSchema
  /\ reachJsonSchema jsonSchema (One "b") = ReachedSchema jsonSchema.
Proof.
  cbv zeta. repeat split; try reflexivity. intros H. discriminate H.
Qed.

Lemma reachFrom_nested (root sub : JSONSchema4) (keys : list string) :
  forall w, nestsUnder w keys sub ->
            reachFrom root (ReachedSchema w) keys = ReachedSchema sub.
Proof.
  induction keys as [|key rest IH]; intros w; simpl.
  - now intros ->.
  - intros (m & w' & Hp & Hk & Hn). unfold readMember. rewrite Hp, Hk. simpl.
    now apply IH.
Qed.

Lemma wrapUnder_nests (keys : list string) (sub : JSONSchema4) :
  nestsUnder (wrapUnder keys sub) keys sub.
Proof.
  induction keys as [|key rest IH]; simpl; [reflexivity|].
  exists [(key, wrapUnder rest sub)], (wrapUnder rest sub).
  repeat split; [| assumption]. simpl. now rewrite String.eqb_refl.
Qed.

(** C8.  Reaching along a data-key path into a schema that holds [sub]
    under the chain of properties the path names returns [sub]; this is
    so for the schema that wraps [sub] under the path and nothing else. *)
Theorem reachJsonSchema_unwraps (w sub : JSONSchema4) (dataKey : OneOrMore string) :
  (nestsUnder w (castArray dataKey) sub ->
   reachJsonSchema w dataKey = ReachedSchema sub)
  /\ reachJsonSchema (wrapUnder (castArray dataKey) sub) dataKey = ReachedSchema sub.
Proof.
  split.
  - apply reachFrom_nested.
  - apply reachFrom_nested, wrapUnder_nests.
Qed.

(** A single key and a list of keys. *)
Lemma reachJsonSchema_unwraps_witness :
  reachJsonSchema (wrapUnder ["data"] (set_type (Some (TypeName "string")) emptySchema))
                  (One "data")
  = ReachedSchema (set_type (Some (TypeName "string")) emptySchema)
  /\ reachJsonSchema (wrapUnder ["a"; "b"] emptySchema) (More ["a"; "b"])
     = ReachedSchema emptySchema.
Proof.
  split.
  - destruct (reachJsonSchema_unwraps
                (wrapUnder ["data"] (set_type (Some (TypeName "string")) emptySchema))
                (set_type (Some (TypeName "string")) emptySchema) (One "data"))
      as [Hnested _].
    apply Hnested. simpl.
    exists [("data", set_type (Some (TypeName "string")) emptySchema)].
    exists (set_type (Some (TypeName "string")) emptySchema).
    repeat split.
  - destruct (reachJsonSchema_unwraps (wrapUnder ["a"; "b"] emptySchema) emptySchema
                                      (More ["a"; "b"])) as [_ Hwrap].
    exact Hwrap.
Defined.

(** ** Type synthesis *)

Lemma isEmptySchema_true (s : JSONSchema4) : isEmptySchema s = true -> s = emptySchema.
Proof.
  destruct s as [f1 f2 f3 f4 f5 f6 f7 f8 f9 f10 f11 f12 f13 f14 f15 f16 f17 f18 f19 f20].
  destruct f1; [discriminate|]. destruct f2; [discriminate|].
  destruct f3; [discriminate|]. destruct f4; [discriminate|].
  destruct f5; [discriminate|]. destruct f6; [discriminate|].
  destruct f7; [discriminate|]. destruct f8; [discriminate|].
  destruct f9; [discriminate|]. destruct f10; [discriminate|].
  destruct f11; [discriminate|]. destruct f12; [discriminate|].
  destruct f13; [discriminate|]. destruct f14; [discriminate|].
  destruct f15; [discriminate|]. destruct f16; [discriminate|].
  destruct f17; [discriminate|]. destruct f18; [discriminate|].
  destruct f19; [discriminate|]. destruct f20; [reflexivity | discriminate].
Qed.

Lemma readRef_writeRef_same (st : Store) (r : nat) (v s : JSONSchema4) :
  readRef st r = Some s -> readRef (writeRef st r v) r = Some v.
Proof.
  unfold readRef. revert r. induction st as [|x st IH]; intros [|r]; simpl;
    try discriminate; [reflexivity | apply IH].
Qed.

Lemma readRef_writeRef_other (st : Store) (r r' : nat) (v : JSONSchema4) :
  r' <> r -> readRef (writeRef st r v) r' = readRef st r'.
Proof.
  unfold readRef. revert r r'. induction st as [|x st IH]; intros [|r] [|r'] Hne; simpl;
    try reflexivity; [congruence | apply IH; congruence].
Qed.

Lemma readRef_alloc (st : Store) (v : JSONSchema4) (r' : nat) :
  (r' < List.length st)%nat -> readRef (fst (allocRef st v)) r' = readRef st r'.
Proof. intros H. unfold readRef, allocRef. simpl. now apply nth_error_app1. Qed.

Lemma readRef_Some_lt (st : Store) (r : nat) (s : JSONSchema4) :
  readRef st r = Some s -> (r < List.length st)%nat.
Proof. intros H. apply nth_error_Some. unfold readRef in H. congruence. Qed.

Section SynthesisFacts.
Variable path_resolve : string -> string -> string.
Variable path_dirname : string -> string.
Variable JSON_stringify : string -> string.
Variable compile : JSONSchema4 -> string -> option string.

Lemma jsttCallback_children (typeName : string) (s : JSONSchema4) p :
  children (jsttCallback path_resolve path_dirname JSON_stringify typeName s p)
  = children s.
Proof.
  destruct s as [f1 f2 ty props its req one any all f10 f11 f12 f13 f14 f15 f16 f17 f18 f19 f20].
  unfold jsttCallback, children.
  cbn [title description type properties items oneOf anyOf allOf
       set_tsType set_title set_schemaId set_minItems set_maxItems
       set_additionalProperties set_default].
  destruct f11 as [t|]; [| destruct f12 as [d|]];
    repeat match goal with
           | |- context [if ?b then _ else _] => destruct b
           end;
    destruct ty as [[t' | ts]|];
    cbn [title description type properties items oneOf anyOf allOf
         set_tsType set_title set_schemaId set_minItems set_maxItems
         set_additionalProperties set_default];
    repeat match goal with
           | |- context [if ?b then _ else _] => destruct b
           end;
    reflexivity.
Qed.

(** The pass that prepares a schema for the compiler returns on every
    schema. *)
Lemma jsonSchemaToJSTTJsonSchema_total (s : JSONSchema4) (typeName : string) :
  exists r, jsonSchemaToJSTTJsonSchema path_resolve path_dirname JSON_stringify s typeName
            = Some r.
Proof.
  unfold jsonSchemaToJSTTJsonSchema. apply traverseJsonSchema_total; [| lia].
  intros s' p c. now rewrite jsttCallback_children.
Qed.

Let synthesize := jsonSchemaToType path_resolve path_dirname JSON_stringify compile.

(** Objects other than the argument are never written to, and the argument
    itself only in the branch that answers [any]. *)
Lemma jsonSchemaToType_writes (st : Store) (r r' : nat) (s : JSONSchema4) (typeName : string) :
  readRef st r = Some s ->
  (r' < List.length st)%nat ->
  r' <> r \/ __is_any__ s <> Some true ->
  readRef (snd (synthesize st (Some r) typeName)) r' = readRef st r'.
Proof.
  intros Hs Hlt Hcase. unfold synthesize, jsonSchemaToType. rewrite Hs.
  destruct (isEmptySchema s) eqn:He; [reflexivity|].
  assert (Hclone :
            readRef (snd (let '(st0, clone) := allocRef st s in
                          match jsonSchemaToJSTTJsonSchema path_resolve path_dirname
                                                           JSON_stringify s typeName with
                          | Some jstt =>
                              (option_map
                                 (fun code => trim (replaceFirst "THISISAFAKETYPENAME"
                                                                 typeName code))
                                 (compile jstt "THISISAFAKETYPENAME"),
                               writeRef st0 clone jstt)
                          | None => (None, st0)
                          end)) r' = readRef st r').
  { unfold allocRef.
    destruct (jsonSchemaToJSTTJsonSchema _ _ _ s typeName) as [jstt|]; simpl.
    - rewrite readRef_writeRef_other by lia.
      unfold readRef. now apply nth_error_app1.
    - unfold readRef. now apply nth_error_app1. }
  destruct (__is_any__ s) as [[|]|] eqn:Hany; try exact Hclone.
  simpl. destruct Hcase as [Hne | Hne]; [| congruence].
  now apply readRef_writeRef_other.
Qed.
End SynthesisFacts.

(** C9.  From an absent or an empty schema the synthesis returns the empty
    interface declaration of the given name, and from a schema carrying
    the [__is_any__] marker the [any] alias of the given name. *)
Theorem jsonSchemaToType_empty_and_any
        (path_resolve : string -> string -> string)
        (path_dirname JSON_stringify : string -> string)
        (compile : JSONSchema4 -> string -> option string)
        (st : Store) (typeName : string) :
  fst (jsonSchemaToType path_resolve path_dirname JSON_stringify compile st None typeName)
  = Some ("export interface " ++ typeName ++ " {}")%string
  /\ (forall r s,
         readRef st r = Some s -> isEmptySchema s = true ->
         fst (jsonSchemaToType path_resolve path_dirname JSON_stringify compile
                               st (Some r) typeName)
         = Some ("export interface " ++ typeName ++ " {}")%string)
  /\ (forall r s,
         readRef st r = Some s -> __is_any__ s = Some true ->
         fst (jsonSchemaToType path_resolve path_dirname JSON_stringify compile
                               st (Some r) typeName)
         = Some ("export type " ++ typeName ++ " = any")%string).
Proof.
  split; [reflexivity|]. split.
  - intros r s Hs He. unfold jsonSchemaToType. now rewrite Hs, He.
  - intros r s Hs Hany. unfold jsonSchemaToType. rewrite Hs.
    destruct (isEmptySchema s) eqn:He.
    + apply isEmptySchema_true in He. subst s. discriminate Hany.
    + now rewrite Hany.
Qed.

(** Both declarations for the name [Resp]. *)
Lemma jsonSchemaToType_empty_and_any_witness :
  fst (jsonSchemaToType (fun _ to => to) (fun p => p) (fun k => k) (fun _ _ => None)
                        [emptySchema; set___is_any__ (Some true) emptySchema]
                        (Some 0%nat) "Resp")
  = Some "export interface Resp {}"
  /\ fst (jsonSchemaToType (fun _ to => to) (fun p => p) (fun k => k) (fun _ _ => None)
                           [emptySchema; set___is_any__ (Some true) emptySchema]
                           (Some 1%nat) "Resp")
     = Some "export type Resp = any".
Proof.
  destruct (jsonSchemaToType_empty_and_any
              (fun _ to => to) (fun p => p) (fun k => k) (fun _ _ => None)
              [emptySchema; set___is_any__ (Some true) emptySchema] "Resp")
    as [_ [Hempty Hany]].
  split.
  - apply (Hempty 0%nat emptySchema); reflexivity.
  - apply (Hany 1%nat (set___is_any__ (Some true) emptySchema)); reflexivity.
Defined.

(** C6 (counterexample).  Called on a schema that carries the marker, the
    synthesis deletes the marker from the caller's object. *)
Lemma jsonSchemaToType_deletes_marker :
  let s := set___is_any__ (Some true) emptySchema in
  readRef (snd (jsonSchemaToType (fun _ to => to) (fun p => p) (fun k => k)
                                 (fun _ _ => None) [s] (Some 0%nat) "Resp")) 0
  = Some emptySchema
  /\ emptySchema <> s.
Proof. split; [reflexivity | discriminate]. Qed.

(** C6 (amended).  The synthesis leaves every object of the store as it
    was, the schema it is called on included, unless that schema carries
    the [__is_any__] marker: then the marker, and nothing else, is deleted
    from it. *)
Theorem jsonSchemaToType_mutates_only_marker
        (path_resolve : string -> string -> string)
        (path_dirname JSON_stringify : string -> string)
        (compile : JSONSchema4 -> string -> option string)
        (st : Store) (r : nat) (s : JSONSchema4) (typeName : string) :
  readRef st r = Some s ->
  let st' := snd (jsonSchemaToType path_resolve path_dirname JSON_stringify compile
                                   st (Some r) typeName) in
  (forall r', (r' < List.length st)%nat -> r' <> r -> readRef st' r' = readRef st r')
  /\ (__is_any__ s <> Some true -> readRef st' r = Some s)
  /\ (__is_any__ s = Some true -> readRef st' r = Some (set___is_any__ None s)).
Proof.
  intros Hs st'. split; [| split].
  - intros r' Hlt Hne. apply jsonSchemaToType_writes with (s := s); auto.
  - intros Hany. rewrite <- Hs.
    apply jsonSchemaToType_writes with (s := s); auto.
    now apply readRef_Some_lt with (s := s).
  - intros Hany. subst st'. unfold jsonSchemaToType. rewrite Hs.
    destruct (isEmptySchema s) eqn:He.
    + apply isEmptySchema_true in He. subst s. discriminate Hany.
    + rewrite Hany. simpl. now apply readRef_writeRef_same with (s := s).
Qed.

(** A schema with a title goes through the compiling branch and is found
    unchanged; a schema with the marker loses the marker. *)
Lemma jsonSchemaToType_mutates_only_marker_witness :
  readRef (snd (jsonSchemaToType (fun _ to => to) (fun p => p) (fun k => k)
                                 (fun _ name => Some name)
                                 [set_title (Some "&x") emptySchema] (Some 0%nat) "Resp")) 0
  = Some (set_title (Some "&x") emptySchema)
  /\ readRef (snd (jsonSchemaToType (fun _ to => to) (fun p => p) (fun k => k)
                                    (fun _ name => Some name)
                                    [set___is_any__ (Some true) emptySchema]
                                    (Some 0%nat) "Resp")) 0
     = Some emptySchema.
Proof.
  split.
  - destruct (jsonSchemaToType_mutates_only_marker
                (fun _ to => to) (fun p => p) (fun k => k) (fun _ name => Some name)
                [set_title (Some "&x") emptySchema] 0 "Resp" eq_refl) as [_ [Hkeep _]].
    apply Hkeep. discriminate.
  - destruct (jsonSchemaToType_mutates_only_marker
                (fun _ to => to) (fun p => p) (fun k => k) (fun _ name => Some name)
                [set___is_any__ (Some true) emptySchema] 0 "Resp" eq_refl) as [_ [_ Hdel]].
    apply Hdel. reflexivity.
Defined.

(** ** Request schemas *)

Lemma propDefinitionsToJsonSchema_total (propDefinitions : list PropDefinition)
      customTypeMapping :
  exists s, propDefinitionsToJsonSchema propDefinitions customTypeMapping = Some s.
Proof. apply processJsonSchema_total. Qed.

Lemma requestBodySchema_get_like (JSONValue : Type)
      (JSON_parse : string -> option JSONSchema4)
      (JSON5_parse : string -> option JSONValue)
      (toJsonSchema : JSONValue -> JSONSchema4)
      (interfaceInfo : Interface) customTypeMapping :
  isGetLikeMethod (method interfaceInfo) = true ->
  requestBodySchema JSON_parse JSON5_parse toJsonSchema interfaceInfo customTypeMapping
  = Some None.
Proof. intros H. unfold requestBodySchema, isPostLikeMethod. now rewrite H. Qed.

(** C10.  For a GET, OPTIONS or HEAD interface the request schema does not
    depend on the request-body descriptors, nor on what the body parsers
    would answer: two such interfaces with the same query and path
    parameters get the same schema, under any parsers.  The function
    returns, and when both parameter lists are empty it returns [{}]. *)
Theorem getRequestDataJsonSchema_get_like_ignores_body
        (JSONValue JSONValue' : Type)
        (JSON_parse JSON_parse' : string -> option JSONSchema4)
        (JSON5_parse : string -> option JSONValue)
        (JSON5_parse' : string -> option JSONValue')
        (toJsonSchema : JSONValue -> JSONSchema4)
        (toJsonSchema' : JSONValue' -> JSONSchema4)
        (interfaceInfo interfaceInfo' : Interface)
        (customTypeMapping : list (string * JSONSchema4TypeName)) :
  isGetLikeMethod (method interfaceInfo) = true ->
  isGetLikeMethod (method interfaceInfo') = true ->
  req_query interfaceInfo = req_query interfaceInfo' ->
  req_params interfaceInfo = req_params interfaceInfo' ->
  getRequestDataJsonSchema JSON_parse JSON5_parse toJsonSchema
                           interfaceInfo customTypeMapping
  = getRequestDataJsonSchema JSON_parse' JSON5_parse' toJsonSchema'
                             interfaceInfo' customTypeMapping
  /\ (exists s, getRequestDataJsonSchema JSON_parse JSON5_parse toJsonSchema
                                         interfaceInfo customTypeMapping = Some s)
  /\ (req_query interfaceInfo = [] -> req_params interfaceInfo = [] ->
      getRequestDataJsonSchema JSON_parse JSON5_parse toJsonSchema
                               interfaceInfo customTypeMapping = Some emptySchema).
Proof.
  intros Hget Hget' Hq Hp. unfold getRequestDataJsonSchema.
  rewrite !requestBodySchema_get_like by assumption.
  rewrite <- Hq, <- Hp. simpl.
  split; [reflexivity|]. split.
  - destruct (req_query interfaceInfo) as [|q qs]; simpl.
    + destruct (req_params interfaceInfo) as [|a ps]; simpl; [now eexists|].
      destruct (propDefinitionsToJsonSchema_total
                  (map paramItemDefinition (a :: ps)) customTypeMapping) as [s Hs].
      simpl in Hs. rewrite Hs. simpl. now eexists.
    + destruct (propDefinitionsToJsonSchema_total
                  (map queryItemDefinition (q :: qs)) customTypeMapping) as [s Hs].
      simpl in Hs. rewrite Hs. simpl.
      destruct (req_params interfaceInfo) as [|a ps]; simpl; [now eexists|].
      destruct (propDefinitionsToJsonSchema_total
                  (map paramItemDefinition (a :: ps)) customTypeMapping) as [s' Hs'].
      simpl in Hs'. rewrite Hs'. simpl. now eexists.
  - intros -> ->. reflexivity.
Qed.

(** Two GET interfaces with one query parameter: one declares a JSON body
    that does not parse, the other a form body. *)
Lemma getRequestDataJsonSchema_get_like_ignores_body_witness :
  let q := {| query_name := "page"; query_required := RequiredTrue;
              query_desc := None; query_type := Some "Int"; query_schema := None |} in
  let a := {| method := "GET"; path := "/api/list"; req_body_type := BodyJson;
              req_body_form := []; req_body_other := "{"; req_body_is_json_schema := true;
              req_query := [q]; req_params := [] |} in
  let b := {| method := "HEAD"; path := "/api/list"; req_body_type := BodyForm;
              req_body_form := [ {| form_name := "f"; form_type := FormFile;
                                    form_required := RequiredTrue; form_desc := None |} ];
              req_body_other := ""; req_body_is_json_schema := false;
              req_query := [q]; req_params := [] |} in
  getRequestDataJsonSchema (fun _ => None) (fun _ => @None unit) (fun _ => emptySchema) a []
  = getRequestDataJsonSchema (fun _ => Some emptySchema) (fun _ => Some true)
                             (fun _ : bool => emptySchema) b [].
Proof.
  intros q a b.
  apply (getRequestDataJsonSchema_get_like_ignores_body
           (fun _ => None) (fun _ => Some emptySchema)
           (fun _ => @None unit) (fun _ => Some true)
           (fun _ => emptySchema) (fun _ : bool => emptySchema) a b []);
    reflexivity.
Defined.

(** ** Identifier generation *)

Lemma string_app_assoc (a b c : string) : ((a ++ b) ++ c)%string = (a ++ (b ++ c))%string.
Proof. induction a as [|x a IH]; simpl; [reflexivity | now rewrite IH]. Qed.

Lemma string_app_nil_r (a : string) : (a ++ "")%string = a.
Proof. induction a as [|x a IH]; simpl; [reflexivity | now rewrite IH]. Qed.

Lemma concat_cons (x : string) (xs : list string) :
  String.concat "" (x :: xs) = (x ++ String.concat "" xs)%string.
Proof.
  destruct xs as [|y ys]; simpl; [now rewrite string_app_nil_r | reflexivity].
Qed.

Lemma hasChar_app (c : ascii) (a b : string) :
  hasChar c (a ++ b) = hasChar c a || hasChar c b.
Proof.
  induction a as [|x a IH]; simpl; [reflexivity|].
  rewrite IH. now rewrite orb_assoc.
Qed.

Lemma nonEmpty_app (a b : string) : nonEmpty (a ++ b) = nonEmpty a || nonEmpty b.
Proof. destruct a; reflexivity. Qed.

Lemma split_no_separator (sep : ascii) (t : string) :
  hasChar sep t = false -> split sep t = [t].
Proof.
  induction t as [|c t IH]; simpl; [reflexivity|].
  intros H. apply orb_false_elim in H. destruct H as [Hc Ht].
  rewrite Ascii.eqb_sym in Hc. rewrite Hc, (IH Ht). reflexivity.
Qed.

Lemma split_app (sep : ascii) (t rest : string) :
  hasChar sep t = false -> split sep (t ++ String sep rest) = t :: split sep rest.
Proof.
  induction t as [|c t IH]; simpl.
  - intros _. now rewrite Ascii.eqb_refl.
  - intros H. apply orb_false_elim in H. destruct H as [Hc Ht].
    rewrite Ascii.eqb_sym in Hc. rewrite Hc, (IH Ht). reflexivity.
Qed.

Lemma split_join (sep : ascii) (texts : list string) :
  texts <> [] ->
  Forall (fun t => hasChar sep t = false) texts ->
  split sep (join (String sep "") texts) = texts.
Proof.
  induction texts as [|t texts IH]; [congruence|]. intros _ Hall.
  inversion Hall as [|? ? Ht Hrest]; subst.
  destruct texts as [|u texts].
  - simpl. now apply split_no_separator.
  - change (join (String sep "") (t :: u :: texts))
      with (t ++ String sep (join (String sep "") (u :: texts)))%string.
    rewrite split_app by assumption. f_equal. apply IH; [discriminate | assumption].
Qed.

Lemma filter_all_true (A : Type) (f : A -> bool) (l : list A) :
  Forall (fun x => f x = true) l -> filter f l = l.
Proof.
  induction 1 as [|x l Hx _ IH]; simpl; [reflexivity|]. now rewrite Hx, IH.
Qed.

Lemma dropPrefix_app (p rest : string) : dropPrefix p (p ++ rest) = Some rest.
Proof.
  induction p as [|c p IH]; simpl; [reflexivity|]. now rewrite Ascii.eqb_refl.
Qed.

Lemma matchParam_found (param rest : string) :
  nonEmpty param = true -> hasChar "}" param = false ->
  matchParam (param ++ String "}" rest) = Some param.
Proof.
  induction param as [|c param IH]; [discriminate|]. intros _ H.
  cbn [hasChar] in H. apply orb_false_elim in H. destruct H as [Hc Hp].
  rewrite Ascii.eqb_sym in Hc.
  change (matchParam (String c param ++ String "}" rest))
    with (if Ascii.eqb c "}" then None
          else match (param ++ String "}" rest)%string with
               | String d _ =>
                   if Ascii.eqb d "}" then Some (String c EmptyString)
                   else option_map (String c) (matchParam (param ++ String "}" rest))
               | EmptyString => None
               end).
  rewrite Hc. destruct param as [|d param].
  - reflexivity.
  - assert (Hd : Ascii.eqb d "}" = false).
    { cbn [hasChar] in Hp. apply orb_false_elim in Hp. destruct Hp as [Hd _].
      now rewrite Ascii.eqb_sym. }
    change ((String d param ++ String "}" rest)%string)
      with (String d (param ++ String "}" rest)).
    cbv beta iota. rewrite Hd.
    change (String d (param ++ String "}" rest))
      with ((String d param ++ String "}" rest)%string).
    rewrite IH; [reflexivity | reflexivity | assumption].
Qed.

Section NamingFacts.
Variable pascalCase : string -> string.

Lemma replaceParams_skip (u rest : string) (c : ascii) :
  replaceParams pascalCase (S (String.length u)) (u ++ String c rest)
  = replaceParams pascalCase O rest.
Proof. induction u as [|x u IH]; simpl; [reflexivity | exact IH]. Qed.

Lemma replaceParams_literal (text rest : string) :
  hasChar "{" text = false ->
  replaceParams pascalCase O (text ++ rest)
  = (text ++ replaceParams pascalCase O rest)%string.
Proof.
  induction text as [|c text IH]; [reflexivity|]. intros H.
  cbn [hasChar] in H. apply orb_false_elim in H. destruct H as [Hc Ht].
  rewrite Ascii.eqb_sym in Hc.
  change (replaceParams pascalCase O (String c text ++ rest))
    with (if Ascii.eqb c "{"
          then match matchParam (text ++ rest) with
               | Some param =>
                   ("By" ++ pascalCase param
                    ++ replaceParams pascalCase (S (String.length param)) (text ++ rest))%string
               | None => String c (replaceParams pascalCase O (text ++ rest))
               end
          else String c (replaceParams pascalCase O (text ++ rest))).
  rewrite Hc, (IH Ht). reflexivity.
Qed.

Lemma replaceParams_placeholder (param rest : string) :
  nonEmpty param = true -> hasChar "}" param = false ->
  replaceParams pascalCase O (("{" ++ param ++ "}") ++ rest)
  = ("By" ++ pascalCase param ++ replaceParams pascalCase O rest)%string.
Proof.
  intros Hne Hp.
  replace ((("{" ++ param ++ "}") ++ rest)%string)
    with (String "{" (param ++ String "}" rest)).
  2: { simpl. f_equal. now rewrite string_app_assoc. }
  change (replaceParams pascalCase O (String "{" (param ++ String "}" rest)))
    with (match matchParam (param ++ String "}" rest) with
          | Some p =>
              ("By" ++ pascalCase p
               ++ replaceParams pascalCase (S (String.length p))
                                (param ++ String "}" rest))%string
          | None => String "{" (replaceParams pascalCase O (param ++ String "}" rest))
          end).
  rewrite matchParam_found by assumption. rewrite replaceParams_skip. reflexivity.
Qed.

Lemma replaceParams_piece (p : PathPiece) (rest : string) :
  pieceOk pascalCase p = true ->
  replaceParams pascalCase O (pieceSource p ++ rest)
  = (pieceText pascalCase p ++ replaceParams pascalCase O rest)%string.
Proof.
  destruct p as [text | param]; cbn [pieceOk]; intros H.
  - apply andb_prop in H. destruct H as [_ H]. apply negb_true_iff in H.
    now apply replaceParams_literal.
  - apply andb_prop in H. destruct H as [H _]. apply andb_prop in H.
    destruct H as [Hne Hp]. apply negb_true_iff in Hp.
    unfold pieceSource, pieceText.
    rewrite replaceParams_placeholder by assumption.
    now rewrite !string_app_assoc.
Qed.

Lemma replaceParams_segment (segment : list PathPiece) (rest : string) :
  forallb (pieceOk pascalCase) segment = true ->
  replaceParams pascalCase O (segmentSource segment ++ rest)
  = (segmentText pascalCase segment ++ replaceParams pascalCase O rest)%string.
Proof.
  unfold segmentSource, segmentText.
  induction segment as [|p segment IH]; [reflexivity|]. intros H.
  simpl in H. apply andb_prop in H. destruct H as [Hp Hs].
  simpl map. rewrite !concat_cons, !string_app_assoc.
  rewrite replaceParams_piece by assumption. rewrite (IH Hs). reflexivity.
Qed.

Lemma replaceParams_join (segments : list (list PathPiece)) :
  forallb (segmentOk pascalCase) segments = true ->
  replaceParams pascalCase O (join "/" (map segmentSource segments))
  = join "/" (map (segmentText pascalCase) segments).
Proof.
  induction segments as [|seg segments IH]; [reflexivity|]. intros H.
  simpl in H. apply andb_prop in H. destruct H as [Hseg Hrest].
  apply andb_prop in Hseg. destruct Hseg as [Hpieces _].
  destruct segments as [|seg' segments].
  - simpl. rewrite <- (string_app_nil_r (segmentSource seg)).
    rewrite replaceParams_segment by assumption. simpl. now rewrite !string_app_nil_r.
  - change (join "/" (map segmentSource (seg :: seg' :: segments)))
      with (segmentSource seg
            ++ String "/" (join "/" (map segmentSource (seg' :: segments))))%string.
    rewrite replaceParams_segment by assumption.
    change (replaceParams pascalCase O
              (String "/" (join "/" (map segmentSource (seg' :: segments)))))
      with (String "/" (replaceParams pascalCase O
                          (join "/" (map segmentSource (seg' :: segments))))).
    rewrite (IH Hrest). reflexivity.
Qed.

Lemma pieceText_no_slash (p : PathPiece) :
  pieceOk pascalCase p = true -> hasChar "/" (pieceText pascalCase p) = false.
Proof.
  destruct p as [text | param]; cbn [pieceOk pieceText]; intros H.
  - apply andb_prop in H. destruct H as [H _]. now apply negb_true_iff in H.
  - apply andb_prop in H. destruct H as [_ H]. apply negb_true_iff in H.
    rewrite hasChar_app, H. reflexivity.
Qed.

Lemma segmentText_no_slash (segment : list PathPiece) :
  forallb (pieceOk pascalCase) segment = true ->
  hasChar "/" (segmentText pascalCase segment) = false.
Proof.
  unfold segmentText. induction segment as [|p segment IH]; [reflexivity|].
  intros H. simpl in H. apply andb_prop in H. destruct H as [Hp Hs].
  simpl map. rewrite concat_cons, hasChar_app, pieceText_no_slash by assumption.
  rewrite (IH Hs). reflexivity.
Qed.

Lemma segmentText_nonEmpty (segment : list PathPiece) :
  nonEmpty (segmentSource segment) = true ->
  nonEmpty (segmentText pascalCase segment) = true.
Proof.
  unfold segmentSource, segmentText.
  induction segment as [|p segment IH]; [discriminate|].
  simpl map. rewrite !concat_cons, !nonEmpty_app.
  destruct p as [text | param]; simpl pieceSource; simpl pieceText.
  - destruct (nonEmpty text); [reflexivity | exact IH].
  - reflexivity.
Qed.

Lemma segmentSource_first (segment : list PathPiece) :
  segmentOk pascalCase segment = true ->
  exists c r, segmentSource segment = String c r /\ isSlash c = false.
Proof.
  unfold segmentOk, segmentSource. intros H. apply andb_prop in H.
  destruct H as [Hpieces Hne].
  induction segment as [|p segment IH]; [discriminate|].
  simpl in Hpieces. apply andb_prop in Hpieces. destruct Hpieces as [Hp Hs].
  simpl map in *. rewrite concat_cons in *.
  destruct p as [[|c text] | param].
  - simpl in *. now apply IH.
  - exists c. eexists. split; [reflexivity|].
    cbn [pieceOk hasChar] in Hp. apply andb_prop in Hp. destruct Hp as [Hp _].
    apply negb_true_iff in Hp. apply orb_false_elim in Hp. destruct Hp as [Hc _].
    unfold isSlash. now rewrite Ascii.eqb_sym.
  - exists "{"%char. eexists. split; reflexivity.
Qed.

Lemma stripLeadingSlashes_join (segments : list (list PathPiece)) :
  forallb (segmentOk pascalCase) segments = true ->
  stripLeadingSlashes (join "/" (map segmentSource segments))
  = join "/" (map segmentSource segments).
Proof.
  destruct segments as [|seg segments]; [reflexivity|]. intros H.
  simpl in H. apply andb_prop in H. destruct H as [Hseg _].
  apply segmentSource_first in Hseg. destruct Hseg as (c & r & Hsrc & Hc).
  assert (Hhead : exists r', join "/" (map segmentSource (seg :: segments)) = String c r').
  { destruct segments as [|seg' segments]; simpl; rewrite Hsrc; now eexists. }
  destruct Hhead as [r' ->]. simpl. now rewrite Hc.
Qed.

(** The path part of a well-formed template: every segment, with its
    placeholders replaced, in PascalCase. *)
Lemma pathPart_template (underApi : bool) (segments : list (list PathPiece)) :
  templateOk pascalCase underApi segments = true ->
  pathPart pascalCase (templatePath underApi segments)
  = String.concat "" (map (fun seg => pascalCase (segmentText pascalCase seg)) segments).
Proof.
  unfold templateOk. intros H. apply andb_prop in H. destruct H as [Hsegs Hapi].
  unfold pathPart, templatePath.
  assert (Hstrip : stripApiPrefix
                     (stripLeadingSlashes
                        ("/" ++ (if underApi then "api/" else "")
                             ++ join "/" (map segmentSource segments)))
                   = join "/" (map segmentSource segments)).
  { destruct underApi.
    - change (stripLeadingSlashes ("/" ++ "api/" ++ join "/" (map segmentSource segments)))
        with ("api/" ++ join "/" (map segmentSource segments))%string.
      unfold stripApiPrefix. rewrite dropPrefix_app.
      now apply stripLeadingSlashes_join.
    - cbn [orb] in Hapi.
      change (stripLeadingSlashes ("/" ++ "" ++ join "/" (map segmentSource segments)))
        with (stripLeadingSlashes (join "/" (map segmentSource segments))).
      rewrite stripLeadingSlashes_join by assumption. unfold stripApiPrefix.
      destruct (dropPrefix "api/" _); [discriminate | reflexivity]. }
  rewrite Hstrip. rewrite replaceParams_join by assumption.
  assert (Hall : Forall (fun seg => forallb (pieceOk pascalCase) seg = true
                                    /\ nonEmpty (segmentSource seg) = true) segments).
  { apply Forall_forall. intros seg Hin.
    rewrite forallb_forall in Hsegs. specialize (Hsegs seg Hin).
    unfold segmentOk in Hsegs. now apply andb_prop in Hsegs. }
  destruct segments as [|seg segments]; [reflexivity|].
  rewrite split_join.
  - rewrite filter_all_true, map_map; [reflexivity|].
    apply Forall_map. eapply Forall_impl; [| exact Hall].
    intros seg' [_ Hne]. now apply segmentText_nonEmpty.
  - discriminate.
  - apply Forall_map. eapply Forall_impl; [| exact Hall].
    intros seg' [Hp _]. now apply segmentText_no_slash.
Qed.
End NamingFacts.




(** ** What holds at every node after a traversal *)

Section TraverseInvariant.
Variable cb : JSONSchema4 -> list PathSegment -> JSONSchema4.
Variable P : JSONSchema4 -> Prop.
Hypothesis cb_P : forall s p, P (cb (repairProperties s) p).
Hypothesis P_children :
  forall n props its one any all,
    sameNames (properties n) props -> sameItemsForm (items n) its ->
    P n -> P (withChildren props its one any all n).

Lemma traverseJsonSchema_every_node (fuel : nat) :
  forall s p r,
    traverseJsonSchema cb fuel s p = Some r -> forall n, nodeOf r n -> P n.
Proof.
  induction fuel as [|fuel IH]; intros s p r Hr n Hn; [discriminate Hr|].
  apply traverseJsonSchema_inv in Hr. destruct Hr as (fuel' & Hf & Hr).
  injection Hf as <-.
  apply visitChildren_withChildren in Hr.
  destruct Hr as (props & its & one & any & all & Hreq & Hnames & Hitems & Hc).
  inversion Hn as [root Hroot | root c n' Hin Hbelow]; subst.
  - apply P_children; [assumption | assumption | apply cb_P].
  - destruct (Hc c Hin) as (c0 & q & _ & Hv).
    exact (IH c0 q c Hv n Hbelow).
Qed.
End TraverseInvariant.

Lemma properties_repairProperties (s : JSONSchema4) :
  properties (repairProperties s) = repairedProperties (properties s).
Proof. rewrite repairProperties_eq. destruct s. reflexivity. Qed.

Lemma type_repairProperties (s : JSONSchema4) : type (repairProperties s) = type s.
Proof. rewrite repairProperties_eq. destruct s. reflexivity. Qed.

Lemma required_repairProperties (s : JSONSchema4) :
  required (repairProperties s) = required s.
Proof. rewrite repairProperties_eq. destruct s. reflexivity. Qed.

Lemma items_repairProperties (s : JSONSchema4) : items (repairProperties s) = items s.
Proof. rewrite repairProperties_eq. destruct s. reflexivity. Qed.

Lemma namedProperties_trimmed (props : option (PropertiesOf JSONSchema4)) (n : JSONSchema4) :
  properties n = trimmedProperties (repairedProperties props) -> namedProperties n.
Proof.
  unfold namedProperties. intros ->.
  destruct props as [[m | l]|]; cbn [repairedProperties trimmedProperties];
    try exact I; apply trimPropertyNames_normal.
Qed.

Lemma normalizeTypeName_plain customTypeMapping (t : string) :
  toLowerCase (normalizeTypeName customTypeMapping t) = normalizeTypeName customTypeMapping t
  /\ ~ In (normalizeTypeName customTypeMapping t) (map fst builtinTypeMapping).
Proof.
  rewrite normalizeTypeName_eq.
  destruct (lookup (typeMapping customTypeMapping) (toLowerCase t)) as [target|] eqn:E.
  - destruct target; (split; [reflexivity |]);
      cbv [builtinTypeMapping map fst typeNameString In];
      intros H; repeat (destruct H as [H | H]; [discriminate H |]); exact H.
  - split; [apply toLowerCase_idempotent |].
    rewrite lookup_typeMapping in E.
    destruct (lastBinding _ _); [discriminate E |].
    now apply lookup_None in E.
Qed.

Lemma normalizeType_plain customTypeMapping (t : option SchemaType) (n : JSONSchema4) :
  type n = normalizeType customTypeMapping t -> plainTypeNames n.
Proof.
  unfold plainTypeNames. intros -> x Hin.
  destruct t as [[t | ts]|]; cbn [normalizeType] in Hin.
  - destruct (nonEmpty t) eqn:E; cbn [typeNamesOf In] in Hin;
      destruct Hin as [<- | []].
    + apply normalizeTypeName_plain.
    + destruct t; [| discriminate E]. split; [reflexivity |].
      cbv [builtinTypeMapping map fst In].
      intros H; repeat (destruct H as [H | H]; [discriminate H |]); exact H.
  - cbn [typeNamesOf] in Hin. apply in_map_iff in Hin.
    destruct Hin as (t & <- & _). apply normalizeTypeName_plain.
  - destruct Hin.
Qed.

(** At every node of a normalised schema: no reference, name-keyed
    properties under trimmed distinct names. *)
Lemma processJsonSchema_every_node
      (s r : JSONSchema4) (customTypeMapping : list (string * JSONSchema4TypeName)) :
  processJsonSchema s customTypeMapping = Some r ->
  forall n, nodeOf r n -> noReference n /\ namedProperties n.
Proof.
  unfold processJsonSchema. intros Hr.
  refine (@traverseJsonSchema_every_node
            (processCallback customTypeMapping)
            (fun n => noReference n /\ namedProperties n)
            _ _ _ _ _ _ Hr).
  - intros s0 p. rewrite processCallback_eq. split; [split; reflexivity |].
    apply namedProperties_trimmed with (props := properties s0).
    cbn [properties]. now rewrite properties_repairProperties.
  - intros n props its one any all Hnames _ [[Href Href2] Hprops].
    destruct n. cbn in Href, Href2. subst.
    split; [split; reflexivity |].
    unfold namedProperties in *. cbn [withChildren set_allOf set_anyOf set_oneOf set_items
                                       set_properties properties] in *.
    unfold sameNames in Hnames.
    destruct properties0 as [[m | l]|]; destruct props as [[m' | l']|];
      try contradiction; try exact I.
    now rewrite Hnames.
Qed.

(** X1.  Whatever schema [processJsonSchema] is given, it returns, and at
    every node of the result [$ref] and [$$ref] are gone and [properties],
    when present, is an object keyed by distinct names without surrounding
    white space (the array form has been repaired). *)
Theorem processJsonSchema_nodes_are_normal
        (s : JSONSchema4) (customTypeMapping : list (string * JSONSchema4TypeName)) :
  exists r, processJsonSchema s customTypeMapping = Some r
            /\ forall n, nodeOf r n -> noReference n /\ namedProperties n.
Proof.
  destruct (processJsonSchema_total s customTypeMapping) as [r Hr].
  exists r. split; [exact Hr |]. intros n Hn.
  exact (processJsonSchema_every_node _ _ Hr Hn).
Qed.

(** An array-form [properties] with a reference and a padded name below it. *)
Lemma processJsonSchema_nodes_are_normal_witness :
  let child := set_ref (Some "#/definitions/User")
                       (set_properties
                          (Some (PropertiesObject [(" id ", emptySchema)])) emptySchema) in
  let s := set_properties (Some (PropertiesArray [child])) emptySchema in
  exists r, processJsonSchema s [] = Some r
            /\ exists n, nodeOf r n
                         /\ properties n = Some (PropertiesObject [("id", emptySchema)])
                         /\ noReference n /\ namedProperties n.
Proof.
  cbv zeta.
  destruct (processJsonSchema_nodes_are_normal
              (set_properties
                 (Some (PropertiesArray
                          [set_ref (Some "#/definitions/User")
                                   (set_properties
                                      (Some (PropertiesObject [(" id ", emptySchema)]))
                                      emptySchema)]))
                 emptySchema) []) as [r [Hr Hall]].
  exists r. split; [exact Hr |].
  vm_compute in Hr. injection Hr as <-.
  eexists. split; [| split; [| apply Hall]].
  - eapply nodeOf_child; [left; reflexivity | apply nodeOf_root].
  - reflexivity.
  - eapply nodeOf_child; [left; reflexivity | apply nodeOf_root].
Defined.

(** ** Which nodes the normaliser visits *)

Lemma Forall2_In_l (A B : Type) (R : A -> B -> Prop) (l : list A) (l' : list B) (x : A) :
  Forall2 R l l' -> In x l -> exists y, In y l' /\ R x y.
Proof.
  induction 1 as [|x' y l l' Hxy _ IH]; [contradiction|].
  intros [<- | Hin].
  - exists y. split; [now left | assumption].
  - destruct (IH Hin) as [y' [Hy' Hr]]. exists y'. split; [now right | assumption].
Qed.

Lemma indexed_In_r (A : Type) (l : list A) (x : A) :
  In x l -> exists i, In (i, x) (indexed l).
Proof.
  unfold indexed. generalize 0%nat.
  induction l as [|y l IH]; intros start; [contradiction|].
  cbn [List.length seq combine]. intros [<- | Hin].
  - exists start. now left.
  - destruct (IH (S start) Hin) as [i Hi]. exists i. now right.
Qed.

Section VisitCovers.
Variable visit : JSONSchema4 -> list PathSegment -> option JSONSchema4.
Variable currentPath : list PathSegment.

Lemma visitProperties_covers props props' :
  visitProperties visit currentPath props = Some props' ->
  forall c, In c (propertyValues props) ->
            exists c' q, In c' (propertyValues props') /\ visit c q = Some c'.
Proof.
  destruct props as [[m | l]|]; simpl.
  - destruct (forEachOption _ m) as [m'|] eqn:Hm; simpl; [|discriminate].
    intros [= <-]. apply forEachOption_Forall2 in Hm. simpl.
    intros c Hin. apply in_map_iff in Hin. destruct Hin as [kv [<- Hin]].
    destruct (Forall2_In_l _ Hm Hin) as [kv' [Hkv' Hv]].
    destruct (visit (snd kv) _) as [item|] eqn:Hvisit; simpl in Hv; [|discriminate].
    injection Hv as <-. exists item. eexists. split; [| exact Hvisit].
    apply in_map_iff. now exists (fst kv, item).
  - destruct (forEachOption _ (indexed l)) as [l'|] eqn:Hl; simpl; [|discriminate].
    intros [= <-]. apply forEachOption_Forall2 in Hl. simpl.
    intros c Hin. destruct (indexed_In_r _ _ Hin) as [i Hi].
    destruct (Forall2_In_l _ Hl Hi) as [c' [Hc' Hv]].
    exists c'. eexists. split; [assumption | exact Hv].
  - intros [= <-] c [].
Qed.

Lemma visitItems_covers its its' :
  visitItems visit currentPath its = Some its' ->
  forall c, In c (itemValues its) ->
            exists c' q, In c' (itemValues its') /\ visit c q = Some c'.
Proof.
  destruct its as [[item | l]|]; simpl.
  - destruct (visit item _) as [item'|] eqn:Hv; simpl; [|discriminate].
    intros [= <-] c [<- | []]. exists item'. eexists. split; [now left | exact Hv].
  - destruct (forEachOption _ (indexed l)) as [l'|] eqn:Hl; simpl; [|discriminate].
    intros [= <-]. apply forEachOption_Forall2 in Hl. simpl.
    intros c Hin. destruct (indexed_In_r _ _ Hin) as [i Hi].
    destruct (Forall2_In_l _ Hl Hi) as [c' [Hc' Hv]].
    exists c'. eexists. split; [assumption | exact Hv].
  - intros [= <-] c [].
Qed.

Lemma visitAlternatives_covers alts alts' :
  visitAlternatives visit currentPath alts = Some alts' ->
  forall c, In c (alternativeValues alts) ->
            exists c' q, In c' (alternativeValues alts') /\ visit c q = Some c'.
Proof.
  destruct alts as [l|]; simpl.
  - destruct (forEachOption _ l) as [l'|] eqn:Hl; simpl; [|discriminate].
    intros [= <-]. apply forEachOption_Forall2 in Hl. simpl.
    intros c Hin. destruct (Forall2_In_l _ Hl Hin) as [c' [Hc' Hv]].
    exists c'. eexists. split; [assumption | exact Hv].
  - intros [= <-] c [].
Qed.

(** Every child of the node is visited, and what the visit makes of it is
    a child of the result. *)
Lemma visitChildren_covers (n r : JSONSchema4) :
  visitChildren visit currentPath n = Some r ->
  forall c, In c (children n) ->
            exists c' q, In c' (children r) /\ visit c q = Some c'.
Proof.
  intros H. apply visitChildren_inv in H.
  destruct H as (props & its & one & any & all & H1 & H2 & H3 & H4 & H5 & ->).
  pose proof (visitProperties_covers _ H1) as Hp.
  pose proof (visitItems_covers _ H2) as Hi.
  pose proof (visitAlternatives_covers _ H3) as Ho.
  pose proof (visitAlternatives_covers _ H4) as Ha.
  pose proof (visitAlternatives_covers _ H5) as Hl.
  fold (withChildren props its one any all n). rewrite children_withChildren.
  unfold children. intros c. rewrite !in_app_iff.
  intros [Hin | [Hin | [Hin | [Hin | Hin]]]];
    [destruct (Hp c Hin) as (c' & q & Hc & Hv)
    | destruct (Hi c Hin) as (c' & q & Hc & Hv)
    | destruct (Ho c Hin) as (c' & q & Hc & Hv)
    | destruct (Ha c Hin) as (c' & q & Hc & Hv)
    | destruct (Hl c Hin) as (c' & q & Hc & Hv)];
    exists c', q; (split; [rewrite !in_app_iff; tauto | exact Hv]).
Qed.
End VisitCovers.

Lemma processCallback_path customTypeMapping s p p' :
  processCallback customTypeMapping s p = processCallback customTypeMapping s p'.
Proof. now rewrite !processCallback_eq. Qed.

Lemma traverse_process_type customTypeMapping (fuel : nat) s p r :
  traverseJsonSchema (processCallback customTypeMapping) fuel s p = Some r ->
  type r = normalizeType customTypeMapping (type s).
Proof.
  intros H. apply traverseJsonSchema_inv in H.
  destruct H as [fuel' [_ H]]. apply visitChildren_type in H.
  rewrite H, processCallback_eq. cbn [type]. now rewrite type_repairProperties.
Qed.

(** Every node the normaliser visits has its node in the result, with the
    normalised type. *)
Lemma traverse_process_forward customTypeMapping (s n0 : JSONSchema4) :
  visitedFrom customTypeMapping s n0 ->
  forall (fuel : nat) p r,
    traverseJsonSchema (processCallback customTypeMapping) fuel s p = Some r ->
    exists n, nodeOf r n /\ type n = normalizeType customTypeMapping (type n0).
Proof.
  induction 1 as [s | s c n0 Hin _ IH]; intros fuel p r Hr.
  - exists r. split; [apply nodeOf_root | exact (traverse_process_type _ _ _ _ Hr)].
  - apply traverseJsonSchema_inv in Hr. destruct Hr as (fuel' & _ & Hv).
    rewrite (processCallback_path customTypeMapping _ [] p) in Hin.
    destruct (visitChildren_covers _ _ _ Hv c Hin) as (c' & q & Hc' & Hvisit).
    destruct (IH _ _ _ Hvisit) as (n & Hn & Htype).
    exists n. split; [| exact Htype].
    eapply nodeOf_child; [exact Hc' | exact Hn].
Qed.

(** Every node of the result is the node of a visited one. *)
Lemma traverse_process_backward customTypeMapping (fuel : nat) :
  forall s p r,
    traverseJsonSchema (processCallback customTypeMapping) fuel s p = Some r ->
    forall n, nodeOf r n ->
              exists n0, visitedFrom customTypeMapping s n0
                         /\ type n = normalizeType customTypeMapping (type n0).
Proof.
  induction fuel as [|fuel IH]; intros s p r Hr n Hn; [discriminate Hr|].
  inversion Hn as [root Hroot | root c' n' Hin Hbelow]; subst.
  - exists s. split; [apply visitedFrom_root | exact (traverse_process_type _ _ _ _ Hr)].
  - apply traverseJsonSchema_inv in Hr. destruct Hr as (fuel' & Hf & Hv).
    injection Hf as <-.
    apply visitChildren_withChildren in Hv.
    destruct Hv as (props & its & one & any & all & Hreq & _ & _ & Hc).
    destruct (Hc c' Hin) as (c & q & Hcin & Hvisit).
    destruct (IH _ _ _ Hvisit n Hbelow) as (n0 & Hn0 & Htype).
    exists n0. split; [| exact Htype].
    eapply visitedFrom_child; [| exact Hn0].
    now rewrite (processCallback_path customTypeMapping _ [] p).
Qed.

(** A predicate that holds at every node of a tree holds at the nodes the
    normaliser visits. *)
Lemma visitedFrom_everyNode (p : JSONSchema4 -> bool) customTypeMapping
      (s n0 : JSONSchema4) :
  visitedFrom customTypeMapping s n0 -> everyNode p s = true -> p n0 = true.
Proof.
  induction 1 as [s | s c n0 Hin _ IH]; intros Hall.
  - now apply everyNode_inv in Hall.
  - apply IH. apply everyNode_inv in Hall. destruct Hall as [_ Hchildren].
    apply Hchildren. apply repairProperties_children.
    eapply processCallback_children. exact Hin.
Qed.

(** A name that stays a name is normalised to a name that stays one. *)
Lemma staysTypeName_normalizeTypeName customTypeMapping (t : string) :
  staysTypeName customTypeMapping t = true ->
  staysTypeName customTypeMapping (normalizeTypeName customTypeMapping t) = true.
Proof.
  rewrite !staysTypeName_eq, normalizeTypeName_eq.
  destruct (lookup (typeMapping customTypeMapping) (toLowerCase t)) as [target|] eqn:E.
  - intros _.
    destruct (lookup (typeMapping customTypeMapping)
                     (toLowerCase (typeNameString target))); [reflexivity |].
    now destruct target.
  - intros H. now rewrite toLowerCase_idempotent, E.
Qed.

Lemma typeNamesStay_normalizeType customTypeMapping (t : option SchemaType) :
  forallb (staysTypeName customTypeMapping) (typeNamesOf t) = true ->
  forallb (staysTypeName customTypeMapping)
          (typeNamesOf (normalizeType customTypeMapping t)) = true.
Proof.
  destruct t as [[t | ts]|]; cbn [normalizeType typeNamesOf]; [| | trivial].
  - destruct (nonEmpty t); cbn [typeNamesOf forallb]; [| trivial].
    rewrite !andb_true_r. apply staysTypeName_normalizeTypeName.
  - rewrite !forallb_forall. intros H x Hx. apply in_map_iff in Hx.
    destruct Hx as (t & <- & Ht). apply staysTypeName_normalizeTypeName. now apply H.
Qed.

(** The type names of a normalised tree stay names, when those of the
    tree it was made from do. *)
Lemma processJsonSchema_names_stay
      (s r : JSONSchema4) (customTypeMapping : list (string * JSONSchema4TypeName)) :
  everyNode (typeNamesStay customTypeMapping) s = true ->
  processJsonSchema s customTypeMapping = Some r ->
  forall n, nodeOf r n -> typeNamesStay customTypeMapping n = true.
Proof.
  intros Hstay Hr n Hn. unfold processJsonSchema in Hr.
  destruct (@traverse_process_backward _ _ _ _ _ Hr n Hn) as (n0 & Hn0 & Htype).
  unfold typeNamesStay. rewrite Htype. apply typeNamesStay_normalizeType.
  exact (visitedFrom_everyNode _ Hn0 Hstay).
Qed.

(** X2.  Take a tree none of whose type names, lower-cased, names a
    member inherited from [Object.prototype] that the type table lacks
    ([typeNamesStay]).  Then [processJsonSchema] returns; every node of
    the result is the node of a node the normaliser visited and carries
    that node's normalised type, and every visited node has such a node in
    the result; every type name in the result is lower-case and none of
    the built-in aliases ([byte], [short], [int], ...).  At every visited
    node, what [typeMapping[type] || type] leaves for a type name is the
    normalised name.  The normalised name of a name is the target of the
    last custom entry whose key equals it up to case, else the target the
    built-in table gives its lower-case spelling, else that lower-case
    spelling. *)
Theorem processJsonSchema_type_names_follow_the_table
        (s : JSONSchema4) (customTypeMapping : list (string * JSONSchema4TypeName)) :
  everyNode (typeNamesStay customTypeMapping) s = true ->
  (exists r,
      processJsonSchema s customTypeMapping = Some r
      /\ (forall n, nodeOf r n ->
                    plainTypeNames n
                    /\ exists n0, visitedFrom customTypeMapping s n0
                                  /\ type n = normalizeType customTypeMapping (type n0))
      /\ (forall n0, visitedFrom customTypeMapping s n0 ->
                     exists n, nodeOf r n
                               /\ type n = normalizeType customTypeMapping (type n0)))
  /\ (forall n0 t,
         visitedFrom customTypeMapping s n0 -> In t (typeNamesOf (type n0)) ->
         mappedType customTypeMapping (toLowerCase t)
         = MappedName (normalizeTypeName customTypeMapping t))
  /\ (forall t : string,
         staysTypeName customTypeMapping t = true ->
         normalizeTypeName customTypeMapping t
         = match lastBinding (map (fun kv => (toLowerCase (fst kv), snd kv))
                                  customTypeMapping) (toLowerCase t) with
           | Some target => typeNameString target
           | None =>
               match lookup builtinTypeMapping (toLowerCase t) with
               | Some target => typeNameString target
               | None => toLowerCase t
               end
           end).
Proof.
  intros Hstay. split; [| split].
  - destruct (processJsonSchema_total s customTypeMapping) as [r Hr].
    exists r. split; [exact Hr |].
    pose proof Hr as Hr'. unfold processJsonSchema in Hr'. split.
    + intros n Hn.
      destruct (@traverse_process_backward _ _ _ _ _ Hr' n Hn) as (n0 & Hn0 & Htype).
      split; [exact (@normalizeType_plain _ _ _ Htype) | now exists n0].
    + intros n0 Hn0. eapply traverse_process_forward; eassumption.
  - intros n0 t Hn0 Ht. apply mappedType_stays.
    pose proof (visitedFrom_everyNode _ Hn0 Hstay) as Hnode.
    unfold typeNamesStay in Hnode. rewrite forallb_forall in Hnode. now apply Hnode.
  - intros t _. rewrite normalizeTypeName_eq, lookup_typeMapping.
    now destruct (lastBinding _ (toLowerCase t)).
Qed.

(** A tuple of a Java [Long] and a [Double] below an [Int] answer, with a
    custom entry for [long]. *)
Lemma processJsonSchema_type_names_follow_the_table_witness :
  let s := set_items (Some (ItemsMany [set_type (Some (TypeName "Long")) emptySchema;
                                       set_type (Some (TypeNames ["Double"; "Char"]))
                                                emptySchema]))
                     (set_type (Some (TypeName "Int")) emptySchema) in
  exists r, processJsonSchema s [("LONG", TString)] = Some r
            /\ type r = Some (TypeName "integer")
            /\ (exists n, nodeOf r n /\ type n = Some (TypeName "string"))
            /\ (exists n, nodeOf r n /\ type n = Some (TypeNames ["number"; "string"])
                          /\ plainTypeNames n)
            /\ normalizeTypeName [("LONG", TString)] "Long" = "string".
Proof.
  cbv zeta.
  destruct (@processJsonSchema_type_names_follow_the_table
              (set_items (Some (ItemsMany [set_type (Some (TypeName "Long")) emptySchema;
                                           set_type (Some (TypeNames ["Double"; "Char"]))
                                                    emptySchema]))
                         (set_type (Some (TypeName "Int")) emptySchema))
              [("LONG", TString)] eq_refl) as [(r & Hr & Hback & Hforw) [_ Htable]].
  exists r. split; [exact Hr |].
  vm_compute in Hr. injection Hr as <-.
  split; [reflexivity |]. split; [| split].
  - eexists. split.
    + eapply nodeOf_child; [left; reflexivity | apply nodeOf_root].
    + reflexivity.
  - eexists. split; [| split].
    + eapply nodeOf_child; [right; left; reflexivity | apply nodeOf_root].
    + reflexivity.
    + apply Hback.
      eapply nodeOf_child; [right; left; reflexivity | apply nodeOf_root].
  - rewrite (Htable "Long" eq_refl). reflexivity.
Defined.

(** ** Children of a normalised node *)

Lemma forEachOption_ext (A B : Type) (f g : A -> option B) (l : list A) :
  (forall x, In x l -> f x = g x) -> forEachOption f l = forEachOption g l.
Proof.
  induction l as [|x l IH]; intros H; [reflexivity|].
  cbn [forEachOption]. rewrite (H x (or_introl eq_refl)).
  rewrite IH; [reflexivity|]. intros y Hy. apply H. now right.
Qed.

Section VisitPath.
Variable visit : JSONSchema4 -> list PathSegment -> option JSONSchema4.
Hypothesis visit_path : forall x q q', visit x q = visit x q'.

Lemma visitChildren_path (p p' : list PathSegment) (n : JSONSchema4) :
  visitChildren visit p n = visitChildren visit p' n.
Proof.
  unfold visitChildren.
  assert (Hprops : visitProperties visit p (properties n)
                   = visitProperties visit p' (properties n)).
  { unfold visitProperties. destruct (properties n) as [[m | l]|]; [| | reflexivity].
    - rewrite (forEachOption_ext
                 (fun kv => bindOption (visit (snd kv) (p ++ [PathKey (fst kv)]))
                                       (fun item => Some (fst kv, item)))
                 (fun kv => bindOption (visit (snd kv) (p' ++ [PathKey (fst kv)]))
                                       (fun item => Some (fst kv, item))));
        [reflexivity|].
      intros kv _. now rewrite (visit_path (snd kv) _ (p' ++ [PathKey (fst kv)])).
    - rewrite (forEachOption_ext
                 (fun ix => visit (snd ix)
                                  (p ++ [PathKey (Number_toString (Z.of_nat (fst ix)))]))
                 (fun ix => visit (snd ix)
                                  (p' ++ [PathKey (Number_toString (Z.of_nat (fst ix)))])));
        [reflexivity|].
      intros ix _. apply visit_path. }
  assert (Hitems : visitItems visit p (items n) = visitItems visit p' (items n)).
  { unfold visitItems. destruct (items n) as [[item | l]|]; [| | reflexivity].
    - now rewrite (visit_path item _ (p' ++ [PathIndex 0])).
    - rewrite (forEachOption_ext
                 (fun ix => visit (snd ix) (p ++ [PathIndex (fst ix)]))
                 (fun ix => visit (snd ix) (p' ++ [PathIndex (fst ix)])));
        [reflexivity|].
      intros ix _. apply visit_path. }
  assert (Halts : forall alts,
             visitAlternatives visit p alts = visitAlternatives visit p' alts).
  { intros [l|]; [| reflexivity]. unfold visitAlternatives.
    rewrite (forEachOption_ext (fun item => visit item p) (fun item => visit item p'));
      [reflexivity|].
    intros item _. apply visit_path. }
  rewrite Hprops, Hitems, !Halts. reflexivity.
Qed.
End VisitPath.

(** A callback that does not look at the path makes the traversal
    independent of where it starts. *)
Lemma traverseJsonSchema_path cb :
  (forall s p p', cb s p = cb s p') ->
  forall (fuel : nat) s p p',
    traverseJsonSchema cb fuel s p = traverseJsonSchema cb fuel s p'.
Proof.
  intros Hcb. induction fuel as [|fuel IH]; intros s p p'; [reflexivity|].
  cbn [traverseJsonSchema]. rewrite (Hcb _ p p').
  apply visitChildren_path. exact IH.
Qed.

(** What the traversal of [processJsonSchema] leaves of a node, at any
    depth and with any fuel that suffices, is the normalisation of that node. *)
Lemma processJsonSchema_below customTypeMapping (fuel : nat) c q c' :
  traverseJsonSchema (processCallback customTypeMapping) fuel c q = Some c' ->
  processJsonSchema c customTypeMapping = Some c'.
Proof.
  intros H. destruct (processJsonSchema_total c customTypeMapping) as [r1 Hr1].
  rewrite Hr1. unfold processJsonSchema in Hr1.
  rewrite (@traverseJsonSchema_path _ (@processCallback_path customTypeMapping)
                                    fuel c q []) in H.
  destruct (Nat.le_ge_cases (height c) fuel) as [Hle | Hge].
  - apply traverseJsonSchema_fuel_le with (fuel' := fuel) in Hr1; [congruence | exact Hle].
  - apply traverseJsonSchema_fuel_le with (fuel' := height c) in H; [congruence | exact Hge].
Qed.

Lemma visitChildren_items visit p n r :
  visitChildren visit p n = Some r ->
  visitItems visit p (items n) = Some (items r).
Proof.
  intros H. apply visitChildren_inv in H.
  destruct H as (props & its & one & any & all & _ & Hi & _ & _ & _ & ->).
  now destruct n.
Qed.

Lemma visitChildren_properties visit p n r :
  visitChildren visit p n = Some r ->
  visitProperties visit p (properties n) = Some (properties r).
Proof.
  intros H. apply visitChildren_inv in H.
  destruct H as (props & its & one & any & all & Hp & _ & _ & _ & _ & ->).
  now destruct n.
Qed.

Lemma visitChildren_required visit p n r :
  visitChildren visit p n = Some r -> required r = required n.
Proof.
  intros H. apply visitChildren_inv in H.
  destruct H as (props & its & one & any & all & _ & _ & _ & _ & _ & ->).
  now destruct n.
Qed.

(** X3.  A node whose type is spelled exactly ["array"] and whose [items]
    is a tuple keeps the first element only: the result holds, as its one
    item schema, the normalisation of that element; the other elements are
    dropped. *)
Theorem processJsonSchema_collapses_tuples
        (s first : JSONSchema4) (rest : list JSONSchema4)
        (customTypeMapping : list (string * JSONSchema4TypeName)) :
  type s = Some (TypeName "array") ->
  items s = Some (ItemsMany (first :: rest)) ->
  exists r first',
    processJsonSchema s customTypeMapping = Some r
    /\ processJsonSchema first customTypeMapping = Some first'
    /\ items r = Some (ItemsOne first').
Proof.
  intros Htype Hitems.
  destruct (processJsonSchema_total s customTypeMapping) as [r Hr].
  pose proof Hr as Hr'. unfold processJsonSchema in Hr'.
  apply traverseJsonSchema_inv in Hr'. destruct Hr' as (fuel' & _ & Hv).
  apply visitChildren_items in Hv.
  rewrite processCallback_eq in Hv. cbn [items] in Hv.
  rewrite type_repairProperties, items_repairProperties, Htype, Hitems in Hv.
  cbn [collapsedItems String.eqb Ascii.eqb Bool.eqb visitItems] in Hv.
  destruct (traverseJsonSchema (processCallback customTypeMapping) fuel' first
                               ([] ++ [PathIndex 0])) as [first'|] eqn:Hfirst;
    [| discriminate Hv].
  cbn [bindOption] in Hv. injection Hv as Hv.
  exists r, first'. split; [exact Hr|]. split; [| now symmetry].
  exact (processJsonSchema_below _ _ _ _ Hfirst).
Qed.

(** A pair of a [Long] and a string becomes a list of integers. *)
Lemma processJsonSchema_collapses_tuples_witness :
  exists r first',
    processJsonSchema
      (set_items (Some (ItemsMany [set_type (Some (TypeName "Long")) emptySchema;
                                   set_type (Some (TypeName "string")) emptySchema]))
                 (set_type (Some (TypeName "array")) emptySchema)) [] = Some r
    /\ processJsonSchema (set_type (Some (TypeName "Long")) emptySchema) [] = Some first'
    /\ items r = Some (ItemsOne first').
Proof.
  apply (@processJsonSchema_collapses_tuples
           (set_items (Some (ItemsMany [set_type (Some (TypeName "Long")) emptySchema;
                                        set_type (Some (TypeName "string")) emptySchema]))
                      (set_type (Some (TypeName "array")) emptySchema))
           (set_type (Some (TypeName "Long")) emptySchema)
           [set_type (Some (TypeName "string")) emptySchema] []); reflexivity.
Defined.

(** ** Property names after normalisation *)

(** The keys the re-keying loop leaves after the names in [done] had their
    turn: the trimmed names of [done], except ["__proto__"], and the names
    of [orig] still to come. *)
Lemma trimPropertyNames_keys_step (orig keys : list string) :
  forall (done : list string) (st : list (string * JSONSchema4)),
    (forall k, In k keys -> In k orig) ->
    (forall x, In x (map fst st)
               <-> ((exists k, In k done /\ x = trim k) /\ x <> "__proto__")
                   \/ (In x orig /\ ~ In x done)) ->
    forall x,
      In x (map fst (fold_left
                       (fun props prop =>
                          match lookup props prop with
                          | Some propDef =>
                              setMember (deleteKey props prop) (trim prop) propDef
                          | None => props
                          end) keys st))
      <-> ((exists k, In k (done ++ keys) /\ x = trim k) /\ x <> "__proto__")
          \/ (In x orig /\ ~ In x (done ++ keys)).
Proof.
  induction keys as [|k keys IH]; intros done st Hkeys Hinv x.
  - cbn [fold_left]. rewrite app_nil_r. apply Hinv.
  - cbn [fold_left].
    replace (done ++ k :: keys) with ((done ++ [k]) ++ keys)
      by (rewrite <- app_assoc; reflexivity).
    apply IH; [intros k' Hk'; apply Hkeys; now right |].
    clear IH x. intros x.
    assert (Hk : In k orig) by (apply Hkeys; now left).
    destruct (lookup st k) as [propDef|] eqn:E.
    + rewrite setMember_keys, deleteKey_keys, Hinv. split.
      * intros [[[[(k' & Hk' & ->) Hne] | [Hx Hnd]] Hxk] | [-> Hne]].
        -- left. split; [| assumption].
           exists k'. split; [apply in_or_app; now left | reflexivity].
        -- right. split; [assumption|]. intros Hin. apply in_app_or in Hin.
           destruct Hin as [Hin | [Heq | []]]; [tauto | congruence].
        -- left. split; [| assumption].
           exists k. split; [apply in_or_app; right; now left | reflexivity].
      * intros [[(k' & Hk' & ->) Hne] | [Hx Hnd]].
        -- apply in_app_or in Hk'. destruct Hk' as [Hk' | [<- | []]]; [| now right].
           destruct (string_dec (trim k') k) as [Heq | Hnk].
           ++ right.
              assert (Hkk : trim k = trim k') by (rewrite <- Heq; apply trim_idempotent).
              rewrite Hkk. now split.
           ++ left. split; [| assumption]. left. split; [| assumption]. now exists k'.
        -- left. split.
           ++ right. split; [assumption|]. intros Hin. apply Hnd.
              apply in_or_app. now left.
           ++ intros ->. apply Hnd. apply in_or_app. right. now left.
    + assert (Hdone : In k done).
      { destruct (in_dec string_dec k done) as [Hd | Hnd]; [assumption |].
        exfalso. apply lookup_None in E. apply E. apply Hinv. right. now split. }
      rewrite Hinv. split.
      * intros [[(k' & Hk' & ->) Hne] | [Hx Hnd]].
        -- left. split; [| assumption].
           exists k'. split; [apply in_or_app; now left | reflexivity].
        -- right. split; [assumption|]. intros Hin. apply in_app_or in Hin.
           destruct Hin as [Hin | [<- | []]]; tauto.
      * intros [[(k' & Hk' & ->) Hne] | [Hx Hnd]].
        -- left. split; [| assumption]. exists k'. split; [| reflexivity].
           apply in_app_or in Hk'. destruct Hk' as [Hk' | [<- | []]]; assumption.
        -- right. split; [assumption|]. intros Hin. apply Hnd.
           apply in_or_app. now left.
Qed.

Lemma trimPropertyNames_keys (m : list (string * JSONSchema4)) (x : string) :
  In x (map fst (trimPropertyNames m))
  <-> (exists k, In k (map fst m) /\ x = trim k) /\ x <> "__proto__".
Proof.
  unfold trimPropertyNames.
  rewrite (@trimPropertyNames_keys_step (map fst m) (map fst m) [] m).
  - cbn [app]. tauto.
  - tauto.
  - intros y. cbn [In]. split; [intros H; right; tauto |].
    intros [[(k & [] & _) _] | [H _]]. exact H.
Qed.

Lemma processJsonSchema_required (s r : JSONSchema4) customTypeMapping :
  processJsonSchema s customTypeMapping = Some r ->
  required r = trimmedRequired (repairedProperties (properties s)) (required s).
Proof.
  unfold processJsonSchema. intros H. apply traverseJsonSchema_inv in H.
  destruct H as [fuel' [_ H]]. apply visitChildren_required in H.
  rewrite H, processCallback_eq. cbn [required].
  now rewrite properties_repairProperties, required_repairProperties.
Qed.

Lemma processJsonSchema_properties (s r : JSONSchema4) customTypeMapping :
  processJsonSchema s customTypeMapping = Some r ->
  sameNames (trimmedProperties (repairedProperties (properties s))) (properties r).
Proof.
  unfold processJsonSchema. intros H. apply traverseJsonSchema_inv in H.
  destruct H as [fuel' [_ H]]. apply visitChildren_properties in H.
  rewrite processCallback_eq in H. cbn [properties] in H.
  rewrite properties_repairProperties in H.
  now apply visitProperties_shape in H.
Qed.

(** X4.  A node with name-keyed [properties] comes out with the trimmed
    names, except the name ["__proto__"], and no others: the assignment
    that re-keys a property under the trimmed name ["__proto__"] adds no
    key.  A [required] list is trimmed name by name. *)
Theorem processJsonSchema_trims_names
        (s : JSONSchema4) (m : list (string * JSONSchema4))
        (customTypeMapping : list (string * JSONSchema4TypeName)) :
  properties s = Some (PropertiesObject m) ->
  exists r m',
    processJsonSchema s customTypeMapping = Some r
    /\ properties r = Some (PropertiesObject m')
    /\ (forall x, In x (map fst m')
                  <-> (exists k, In k (map fst m) /\ x = trim k) /\ x <> "__proto__")
    /\ required r = match required s with
                    | Some (RequiredNames names) => Some (RequiredNames (map trim names))
                    | other => other
                    end.
Proof.
  intros Hprops.
  destruct (processJsonSchema_total s customTypeMapping) as [r Hr].
  pose proof (processJsonSchema_properties _ _ Hr) as Hnames.
  pose proof (processJsonSchema_required _ _ Hr) as Hreq.
  rewrite Hprops in Hnames, Hreq.
  cbn [repairedProperties trimmedProperties trimmedRequired sameNames] in Hnames, Hreq.
  destruct (properties r) as [[m' | l']|] eqn:E; try contradiction.
  exists r, m'. split; [assumption |]. split; [exact E |]. split.
  - intros x. rewrite Hnames. apply trimPropertyNames_keys.
  - rewrite Hreq. now destruct (required s) as [[b | names]|].
Qed.

(** A padded name that is required, beside a padded [__proto__]. *)
Lemma processJsonSchema_trims_names_witness :
  exists r m',
    processJsonSchema
      (set_properties
         (Some (PropertiesObject [(" id ", emptySchema); ("name", emptySchema);
                                  (" __proto__", emptySchema)]))
         (set_required (Some (RequiredNames [" id "])) emptySchema)) []
    = Some r
    /\ properties r = Some (PropertiesObject m')
    /\ (forall x, In x (map fst m')
                  <-> (exists k, In k [" id "; "name"; " __proto__"] /\ x = trim k)
                      /\ x <> "__proto__")
    /\ required r = Some (RequiredNames ["id"]).
Proof.
  apply (@processJsonSchema_trims_names
           (set_properties
              (Some (PropertiesObject [(" id ", emptySchema); ("name", emptySchema);
                                       (" __proto__", emptySchema)]))
              (set_required (Some (RequiredNames [" id "])) emptySchema))
           [(" id ", emptySchema); ("name", emptySchema); (" __proto__", emptySchema)] []).
  reflexivity.
Defined.

(** ** What the compiler is handed ([jsonSchemaToJSTTJsonSchema]) *)

Section CompilerInput.
Variable path_resolve : string -> string -> string.
Variable path_dirname : string -> string.
Variable JSON_stringify : string -> string.

Lemma jsttCallback_stripped (typeName : string) (s : JSONSchema4) p :
  strippedForCompiler (jsttCallback path_resolve path_dirname JSON_stringify typeName s p)
  /\ description (jsttCallback path_resolve path_dirname JSON_stringify typeName s p)
     = description s.
Proof.
  destruct s as [f1 f2 ty props its req one any all f10 f11 f12 f13 f14 f15 f16 f17 f18 f19 f20].
  unfold jsttCallback, strippedForCompiler.
  cbn [title description type
       set_tsType set_title set_schemaId set_minItems set_maxItems
       set_additionalProperties set_default].
  destruct f11 as [t|]; [| destruct f12 as [d|]];
    repeat match goal with
           | |- context [if startsWith ?a ?b then _ else _] => destruct (startsWith a b)
           end;
    destruct ty as [[t' | ts]|];
    cbn [title description type schemaId minItems maxItems default additionalProperties
         set_tsType set_title set_schemaId set_minItems set_maxItems
         set_additionalProperties set_default];
    try (destruct (String.eqb t' "object") eqn:E);
    cbn [title description type schemaId minItems maxItems default additionalProperties
         set_tsType set_title set_schemaId set_minItems set_maxItems
         set_additionalProperties set_default];
    repeat split; try reflexivity; intros H; try discriminate H;
    injection H as ->; discriminate E.
Qed.

Lemma visitChildren_description visit p n r :
  visitChildren visit p n = Some r -> description r = description n.
Proof.
  intros H. apply visitChildren_inv in H.
  destruct H as (props & its & one & any & all & _ & _ & _ & _ & _ & ->).
  now destruct n.
Qed.

(** X5.  The pass that prepares a schema for the type compiler returns on
    every schema; its result has no [description] at the root, and at every
    node no [title], [id], [minItems], [maxItems] or [default] is left and
    a node of type ["object"] has [additionalProperties] set to [false]. *)
Theorem jsonSchemaToJSTTJsonSchema_strips_every_node (s : JSONSchema4) (typeName : string) :
  exists r,
    jsonSchemaToJSTTJsonSchema path_resolve path_dirname JSON_stringify s typeName = Some r
    /\ description r = None
    /\ forall n, nodeOf r n -> strippedForCompiler n.
Proof.
  destruct (jsonSchemaToJSTTJsonSchema_total path_resolve path_dirname JSON_stringify
                                             s typeName) as [r Hr].
  exists r. split; [exact Hr |]. unfold jsonSchemaToJSTTJsonSchema in Hr. split.
  - apply traverseJsonSchema_inv in Hr. destruct Hr as (fuel' & _ & Hv).
    apply visitChildren_description in Hv. rewrite Hv.
    rewrite (proj2 (jsttCallback_stripped _ _ _)), repairProperties_eq.
    now destruct s.
  - refine (@traverseJsonSchema_every_node
              (jsttCallback path_resolve path_dirname JSON_stringify typeName)
              strippedForCompiler _ _ _ _ _ _ Hr).
    + intros s0 p. apply jsttCallback_stripped.
    + intros n props its one any all _ _ Hn. destruct n. exact Hn.
Qed.
End CompilerInput.

(** A titled object with a bounded, defaulted list below it. *)
Lemma jsonSchemaToJSTTJsonSchema_strips_every_node_witness :
  let tags := set_default (Some "[]")
                (set_minItems (Some 1)
                   (set_title (Some "Tags") (set_type (Some (TypeName "array")) emptySchema))) in
  let s := set_description (Some "A user")
             (set_title (Some "User")
                (set_properties (Some (PropertiesObject [("tags", tags)]))
                   (set_type (Some (TypeName "object")) emptySchema))) in
  exists r,
    jsonSchemaToJSTTJsonSchema (fun _ to => to) (fun from => from) (fun key => key) s "User"
    = Some r
    /\ description r = None
    /\ additionalProperties r = Some (inl false)
    /\ exists n, nodeOf r n /\ type n = Some (TypeName "array") /\ strippedForCompiler n.
Proof.
  cbv zeta.
  destruct (jsonSchemaToJSTTJsonSchema_strips_every_node
              (fun _ to => to) (fun from => from) (fun key => key)
              (set_description (Some "A user")
                 (set_title (Some "User")
                    (set_properties
                       (Some (PropertiesObject
                                [("tags",
                                  set_default (Some "[]")
                                    (set_minItems (Some 1)
                                       (set_title (Some "Tags")
                                          (set_type (Some (TypeName "array")) emptySchema))))]))
                       (set_type (Some (TypeName "object")) emptySchema))))
              "User") as (r & Hr & Hd & Hall).
  exists r. split; [exact Hr |]. split; [exact Hd |].
  vm_compute in Hr. injection Hr as <-. split; [reflexivity |].
  eexists. split; [| split; [| apply Hall]].
  - eapply nodeOf_child; [left; reflexivity | apply nodeOf_root].
  - reflexivity.
  - eapply nodeOf_child; [left; reflexivity | apply nodeOf_root].
Defined.

(** ** The second pass *)

(** C3 (counterexamples).  A tuple under the type ["Array"] survives the
    first pass and is collapsed by the second; with a custom table that
    sends integer to number and number to string, ["integer"] becomes
    ["number"] and then ["string"].  (For the type name ["constructor"]
    the first pass leaves no name for a second pass to normalise: what it
    reads under that name is an inherited member.) *)
Lemma processJsonSchema_second_pass_differs :
  (let tuple :=
     set_items (Some (ItemsMany [emptySchema; emptySchema]))
               (set_type (Some (TypeName "Array")) emptySchema) in
   bindOption (processJsonSchema tuple []) (fun r => processJsonSchema r [])
   <> processJsonSchema tuple [])
  /\ (let chained := [("integer", TNumber); ("number", TString)] in
      let s := set_type (Some (TypeName "integer")) emptySchema in
      bindOption (processJsonSchema s chained) (fun r => processJsonSchema r chained)
      <> processJsonSchema s chained)
  /\ mappedType [] (toLowerCase "constructor") = MappedMember "constructor".
Proof.
  split; [| split]; cbv zeta; try reflexivity; intros H; vm_compute in H; discriminate H.
Qed.

(** C3 (amended).  When the type table is stable (no name it produces is
    changed by it), the tree holds no late array tuple (a tuple [items]
    under a type that only reads ["array"] once normalised) and none of
    its type names, lower-cased, names an inherited member that the table
    lacks (["constructor"], ["__proto__"]: the first pass would leave that
    member in [type], and no name), [processJsonSchema] returns, and
    applied to its own result with the same table it returns that result
    again; the type names of the result are again names that stay names. *)
Theorem processJsonSchema_idempotent_when_stable
        (s : JSONSchema4) (customTypeMapping : list (string * JSONSchema4TypeName)) :
  stableTypeMapping customTypeMapping = true ->
  noLateArrayTuple customTypeMapping s = true ->
  everyNode (typeNamesStay customTypeMapping) s = true ->
  exists r, processJsonSchema s customTypeMapping = Some r
            /\ processJsonSchema r customTypeMapping = Some r
            /\ forall n, nodeOf r n -> typeNamesStay customTypeMapping n = true.
Proof.
  intros Hstable Hlate Hstay.
  destruct (processJsonSchema_total s customTypeMapping) as [r Hr].
  exists r. split; [assumption|]. split;
    [| intros n Hn; exact (processJsonSchema_names_stay _ _ Hstay Hr Hn)].
  destruct (processJsonSchema_total r customTypeMapping) as [r2 Hr2].
  rewrite Hr2. f_equal.
  unfold processJsonSchema in Hr, Hr2.
  pose proof (@traverse_process_fixed customTypeMapping Hstable _ _ _ _ Hlate Hr [])
    as Hfix.
  apply traverseJsonSchema_fuel_le with (fuel' := Nat.max (height s) (height r)) in Hfix;
    [| lia].
  apply traverseJsonSchema_fuel_le with (fuel' := Nat.max (height s) (height r)) in Hr2;
    [| lia].
  congruence.
Qed.

(** An object with an untrimmed property name, a tuple under ["array"] and
    a custom table, normalised twice. *)
Lemma processJsonSchema_idempotent_when_stable_witness :
  let s :=
    set_properties
      (Some (PropertiesObject
               [(" id ", set_type (Some (TypeName "Long")) emptySchema);
                ("tags", set_items (Some (ItemsMany [set_type (Some (TypeName "String"))
                                                              emptySchema;
                                                     emptySchema]))
                                   (set_type (Some (TypeName "array")) emptySchema))]))
      (set_required (Some (RequiredNames [" id "]))
                    (set_type (Some (TypeName "Object")) emptySchema)) in
  exists r, processJsonSchema s [("LONG", TString)] = Some r
            /\ processJsonSchema r [("LONG", TString)] = Some r
            /\ forall n, nodeOf r n -> typeNamesStay [("LONG", TString)] n = true.
Proof.
  intros s.
  apply (processJsonSchema_idempotent_when_stable s [("LONG", TString)]); reflexivity.
Defined.

(** ** Response schemas *)

Lemma reachJsonSchema_no_properties (s : JSONSchema4) (path : OneOrMore string) :
  properties s = None -> reachJsonSchema s path = ReachedSchema s.
Proof.
  intros H. unfold reachJsonSchema.
  destruct (castArray path) as [|segment rest]; [reflexivity|].
  cbn [reachFrom getProperty]. now rewrite H.
Qed.




(** X6.  A response whose body type is not JSON gets the schema
    [{__is_any__: true}], and a JSON response without a body gets [{}]; in
    both cases whatever the data key is and whatever the parsers would
    answer. *)
Theorem getResponseDataJsonSchema_without_json_body
        (JSONValue : Type) (JSON_parse : string -> option JSONSchema4)
        (JSON5_parse : string -> option JSONValue)
        (toJsonSchema : JSONValue -> JSONSchema4)
        (rewriteTemplate : JSONValue -> JSONValue)
        (interfaceInfo : InterfaceResponse)
        (customTypeMapping : list (string * JSONSchema4TypeName))
        (dataKey : option (OneOrMore string)) :
  (res_body_type interfaceInfo = ResponseNotJson ->
   getResponseDataJsonSchema JSON_parse JSON5_parse toJsonSchema rewriteTemplate
                             interfaceInfo customTypeMapping dataKey
   = Some (ReachedSchema anySchema))
  /\ (res_body_type interfaceInfo = ResponseJson -> res_body interfaceInfo = "" ->
      getResponseDataJsonSchema JSON_parse JSON5_parse toJsonSchema rewriteTemplate
                                interfaceInfo customTypeMapping dataKey
      = Some (ReachedSchema emptySchema)).
Proof.
  unfold getResponseDataJsonSchema, responseBodySchema.
  split; [intros -> | intros -> ->]; cbn [nonEmpty bindOption];
    destruct dataKey as [key|]; try reflexivity;
    rewrite reachJsonSchema_no_properties by reflexivity;
    now destruct (truthyDataKey (Some key)).
Qed.

(** A raw response read under the data key ["data"], and an empty JSON one. *)
Lemma getResponseDataJsonSchema_without_json_body_witness :
  getResponseDataJsonSchema (fun _ => None) (fun _ => @None unit) (fun _ => emptySchema)
                            (fun template => template)
                            {| res_body_type := ResponseNotJson; res_body := "<html/>";
                               res_body_is_json_schema := false |}
                            [] (Some (One "data"))
  = Some (ReachedSchema anySchema)
  /\ getResponseDataJsonSchema (fun _ => None) (fun _ => @None unit) (fun _ => emptySchema)
                               (fun template => template)
                               {| res_body_type := ResponseJson; res_body := "";
                                  res_body_is_json_schema := true |}
                               [] (Some (One "data"))
     = Some (ReachedSchema emptySchema).
Proof.
  split.
  - apply (getResponseDataJsonSchema_without_json_body
             (fun _ => None) (fun _ => @None unit) (fun _ => emptySchema)
             (fun template => template)
             {| res_body_type := ResponseNotJson; res_body := "<html/>";
                res_body_is_json_schema := false |} [] (Some (One "data"))).
    reflexivity.
  - apply (getResponseDataJsonSchema_without_json_body
             (fun _ => None) (fun _ => @None unit) (fun _ => emptySchema)
             (fun template => template)
             {| res_body_type := ResponseJson; res_body := "";
                res_body_is_json_schema := true |} [] (Some (One "data")));
      reflexivity.
Defined.



(** ** Unwrapping after normalising *)

Lemma visitProperties_lookup visit p (m m' : list (string * JSONSchema4)) :
  forEachOption (fun kv => bindOption (visit (snd kv) (p ++ [PathKey (fst kv)]))
                                      (fun item => Some (fst kv, item))) m = Some m' ->
  forall (key : string) (w : JSONSchema4),
    lookup m key = Some w ->
    exists w', lookup m' key = Some w' /\ visit w (p ++ [PathKey key]) = Some w'.
Proof.
  revert m'. induction m as [|[k c] m IH]; intros m' H key w Hlookup; [discriminate|].
  cbn [forEachOption fst snd] in H.
  destruct (visit c (p ++ [PathKey k])) as [c'|] eqn:Hc; [| discriminate H].
  cbn [bindOption] in H.
  destruct (forEachOption _ m) as [rest|] eqn:Hrest; [| discriminate H].
  cbn [bindOption] in H. injection H as <-.
  cbn [lookup] in *. destruct (String.eqb k key) eqn:E.
  - apply String.eqb_eq in E. subst k. injection Hlookup as <-. now exists c'.
  - now apply (IH rest).
Qed.

(** Reaching through cleanly named objects into a normalised tree finds
    the normalisation of what was there. *)
Lemma reachFrom_normalised (customTypeMapping : list (string * JSONSchema4TypeName))
      (root : JSONSchema4) (keys : list string) :
  forall (fuel : nat) (w : JSONSchema4) (p : list PathSegment) (r sub : JSONSchema4),
    traverseJsonSchema (processCallback customTypeMapping) fuel w p = Some r ->
    nestsCleanlyUnder w keys sub ->
    exists sub', processJsonSchema sub customTypeMapping = Some sub'
                 /\ reachFrom root (ReachedSchema r) keys = ReachedSchema sub'.
Proof.
  induction keys as [|key rest IH]; intros fuel w p r sub Hr Hnest.
  - cbn [nestsCleanlyUnder] in Hnest. subst w. exists r. split; [| reflexivity].
    exact (processJsonSchema_below _ _ _ _ Hr).
  - cbn [nestsCleanlyUnder] in Hnest.
    destruct Hnest as (m & w' & Hprops & Hnodup & Htrim & Hkey & Hlookup & Hnest).
    apply traverseJsonSchema_inv in Hr. destruct Hr as (fuel' & _ & Hv).
    apply visitChildren_properties in Hv.
    rewrite processCallback_eq in Hv. cbn [properties] in Hv.
    rewrite properties_repairProperties, Hprops in Hv.
    cbn [repairedProperties trimmedProperties] in Hv.
    rewrite (trimPropertyNames_clean _ Hnodup Htrim) in Hv.
    cbn [visitProperties] in Hv.
    destruct (forEachOption _ (deleteKey m "__proto__")) as [m'|] eqn:Hm;
      [| discriminate Hv].
    cbn [bindOption] in Hv. injection Hv as Hv.
    assert (Hkept : lookup (deleteKey m "__proto__") key = Some w').
    { rewrite lookup_deleteKey.
      assert (E : String.eqb "__proto__" key = false)
        by (apply String.eqb_neq; congruence).
      now rewrite E. }
    destruct (visitProperties_lookup _ _ _ Hm _ Hkept) as (w'' & Hlookup' & Hw'').
    destruct (IH _ _ _ _ _ Hw'' Hnest) as (sub' & Hsub & Hreach).
    exists sub'. split; [exact Hsub |].
    cbn [reachFrom getProperty]. unfold readMember. rewrite <- Hv, Hlookup'.
    exact Hreach.
Qed.

(** X8.  Unwrapping commutes with normalising: when the JSON-schema body
    of a response holds a schema under the chain of properties named by the
    data key, no key of the chain is ["__proto__"], and the objects on the
    way are keyed by distinct trimmed names, [getResponseDataJsonSchema]
    returns the normalisation of the schema that was wrapped. *)
Theorem getResponseDataJsonSchema_unwraps_normalised
        (JSONValue : Type) (JSON_parse : string -> option JSONSchema4)
        (JSON5_parse : string -> option JSONValue)
        (toJsonSchema : JSONValue -> JSONSchema4)
        (rewriteTemplate : JSONValue -> JSONValue)
        (interfaceInfo : InterfaceResponse)
        (customTypeMapping : list (string * JSONSchema4TypeName))
        (keys : list string) (w sub : JSONSchema4) :
  res_body_type interfaceInfo = ResponseJson ->
  nonEmpty (res_body interfaceInfo) = true ->
  res_body_is_json_schema interfaceInfo = true ->
  JSON_parse (res_body interfaceInfo) = Some w ->
  nestsCleanlyUnder w keys sub ->
  exists sub',
    processJsonSchema sub customTypeMapping = Some sub'
    /\ getResponseDataJsonSchema JSON_parse JSON5_parse toJsonSchema rewriteTemplate
                                 interfaceInfo customTypeMapping (Some (More keys))
       = Some (ReachedSchema sub').
Proof.
  intros Htype Hbody Hschema Hparse Hnest.
  unfold getResponseDataJsonSchema, responseBodySchema, jsonSchemaStringToJsonSchema.
  rewrite Htype, Hbody, Hschema, Hparse. cbn [bindOption truthyDataKey].
  destruct (processJsonSchema_total w customTypeMapping) as [r Hr].
  rewrite Hr. cbn [bindOption].
  unfold processJsonSchema in Hr.
  destruct (@reachFrom_normalised customTypeMapping r keys _ _ _ _ _ Hr Hnest)
    as (sub' & Hsub & Hreach).
  exists sub'. split; [exact Hsub |].
  unfold reachJsonSchema. cbn [castArray]. now rewrite Hreach.
Qed.

(** The usual envelope: the payload, a [Long], sits under [data]. *)
Lemma getResponseDataJsonSchema_unwraps_normalised_witness :
  let payload := set_type (Some (TypeName "Long")) emptySchema in
  let envelope :=
    set_properties
      (Some (PropertiesObject
               [("code", set_type (Some (TypeName "Int")) emptySchema); ("data", payload)]))
      (set_type (Some (TypeName "object")) emptySchema) in
  exists sub',
    processJsonSchema payload [] = Some sub'
    /\ getResponseDataJsonSchema (fun _ => Some envelope) (fun _ => @None unit)
                                 (fun _ => emptySchema) (fun template => template)
                                 {| res_body_type := ResponseJson; res_body := "{...}";
                                    res_body_is_json_schema := true |}
                                 [] (Some (More ["data"]))
       = Some (ReachedSchema sub').
Proof.
  intros payload envelope.
  apply (@getResponseDataJsonSchema_unwraps_normalised
           unit (fun _ => Some envelope) (fun _ => @None unit)
           (fun _ => emptySchema) (fun template => template)
           {| res_body_type := ResponseJson; res_body := "{...}";
              res_body_is_json_schema := true |}
           [] ["data"] envelope payload); try reflexivity.
  cbn [nestsCleanlyUnder].
  exists [("code", set_type (Some (TypeName "Int")) emptySchema); ("data", payload)], payload.
  split; [reflexivity |]. split.
  - cbn [map fst]. repeat constructor; cbn [In]; intros H;
      repeat (destruct H as [H | H]; [discriminate H |]); exact H.
  - split; [| split; [intros H; discriminate H | split; reflexivity]].
    cbn [map fst In]. intros k [<- | [<- | []]]; reflexivity.
Defined.

(** ** Property definitions and path parameters *)

Lemma requiredNames_fold (propDefinitions : list PropDefinition) (acc : list string) :
  fold_left (fun res prop => if prop_required prop then res ++ [prop_name prop] else res)
            propDefinitions acc
  = acc ++ map prop_name (filter prop_required propDefinitions).
Proof.
  revert acc. induction propDefinitions as [|prop rest IH]; intros acc; cbn [fold_left filter].
  - now rewrite app_nil_r.
  - rewrite IH. destruct (prop_required prop); [| reflexivity].
    cbn [map]. now rewrite <- app_assoc.
Qed.

Lemma propertyNames_fold (propDefinitions : list PropDefinition)
      (acc : list (string * JSONSchema4)) (k : string) :
  In k (map fst (fold_left (fun res prop =>
                              setMember res (prop_name prop) (propertySchema prop))
                           propDefinitions acc))
  <-> In k (map fst acc)
      \/ exists prop, In prop propDefinitions /\ prop_name prop = k /\ k <> "__proto__".
Proof.
  revert acc. induction propDefinitions as [|prop rest IH]; intros acc; cbn [fold_left].
  - split; [now left | intros [H | (prop & [] & _)]; exact H].
  - rewrite IH, setMember_keys. split.
    + intros [[H | [-> Hne]] | (prop' & Hin & Hname)].
      * now left.
      * right. exists prop. split; [now left | now split].
      * right. exists prop'. split; [now right | assumption].
    + intros [H | (prop' & [<- | Hin] & Hname & Hne)].
      * left. now left.
      * left. right. split; [now symmetry | congruence].
      * right. now exists prop'.
Qed.

(** The schema of a list of property definitions, read at its root. *)
Lemma propDefinitionsToJsonSchema_root
      (propDefinitions : list PropDefinition)
      (customTypeMapping : list (string * JSONSchema4TypeName)) (r : JSONSchema4) :
  propDefinitionsToJsonSchema propDefinitions customTypeMapping = Some r ->
  required r
  = Some (RequiredNames (map trim (map prop_name (filter prop_required propDefinitions))))
  /\ exists m, properties r = Some (PropertiesObject m)
               /\ forall x, In x (map fst m)
                            <-> (exists prop, In prop propDefinitions
                                              /\ x = trim (prop_name prop))
                                /\ x <> "__proto__".
Proof.
  unfold propDefinitionsToJsonSchema. intros Hr.
  pose proof (processJsonSchema_required _ _ Hr) as Hreq.
  pose proof (processJsonSchema_properties _ _ Hr) as Hnames.
  cbn [properties required set_properties set_required set_type emptySchema
       repairedProperties trimmedProperties trimmedRequired sameNames] in Hreq, Hnames.
  rewrite requiredNames_fold in Hreq. cbn [app] in Hreq. split; [exact Hreq |].
  destruct (properties r) as [[m | l]|]; try contradiction.
  exists m. split; [reflexivity |]. intros x.
  rewrite Hnames, trimPropertyNames_keys. split.
  - intros [(k & Hk & ->) Hne]. split; [| exact Hne]. apply propertyNames_fold in Hk.
    destruct Hk as [[] | (prop & Hin & <- & _)]. now exists prop.
  - intros [(prop & Hin & ->) Hne]. split; [| exact Hne].
    exists (prop_name prop). split; [| reflexivity].
    apply propertyNames_fold. right. exists prop. split; [assumption |].
    split; [reflexivity |]. intros Hname. apply Hne. now rewrite Hname.
Qed.

(** X9.  The schema built from a list of property definitions always
    exists.  Its properties are the trimmed names of the definitions,
    except the name ["__proto__"]: the assignment [res[prop.name] = ...]
    under that name, or the re-keying under it once trimmed, adds no key.
    Its [required] list holds the trimmed names of the definitions marked
    required, in their order, ["__proto__"] included. *)
Theorem propDefinitionsToJsonSchema_names_and_required
        (propDefinitions : list PropDefinition)
        (customTypeMapping : list (string * JSONSchema4TypeName)) :
  exists r m,
    propDefinitionsToJsonSchema propDefinitions customTypeMapping = Some r
    /\ properties r = Some (PropertiesObject m)
    /\ (forall x, In x (map fst m)
                  <-> (exists prop, In prop propDefinitions /\ x = trim (prop_name prop))
                      /\ x <> "__proto__")
    /\ required r
       = Some (RequiredNames
                 (map trim (map prop_name (filter prop_required propDefinitions)))).
Proof.
  destruct (propDefinitionsToJsonSchema_total propDefinitions customTypeMapping) as [r Hr].
  destruct (propDefinitionsToJsonSchema_root _ _ Hr) as (Hreq & m & Hprops & Hnames).
  now exists r, m.
Qed.

Lemma lastBinding_In (V : Type) (entries : list (string * V)) (key : string) :
  In key (map fst entries) -> exists v, lastBinding entries key = Some v.
Proof.
  induction entries as [|[k v] rest IH] using rev_ind; [intros [] |].
  rewrite map_app, in_app_iff, lastBinding_app. cbn [map fst In].
  unfold lastBinding at 1. cbn [fold_left fst snd].
  destruct (String.eqb k key) eqn:E; [intros _; now exists v |].
  apply String.eqb_neq in E. intros [H | [H | []]]; [| contradiction].
  exact (IH H).
Qed.

Lemma mergeRequestSchema_extra (jsonSchema : option JSONSchema4) (extra : JSONSchema4)
      (m : list (string * JSONSchema4)) (names : list string) (x : string) :
  properties extra = Some (PropertiesObject m) ->
  required extra = Some (RequiredNames names) ->
  (In x names -> In x (requiredNames (required (mergeRequestSchema jsonSchema extra))))
  /\ (In x (map fst m) ->
      exists c, lookup (spreadProperties (properties (mergeRequestSchema jsonSchema extra))) x
                = Some c).
Proof.
  intros Hprops Hreq. destruct jsonSchema as [js|]; cbn [mergeRequestSchema].
  - destruct js. cbn [set_properties set_required properties required requiredNames
                      spreadProperties].
    rewrite Hprops, Hreq. cbn [spreadProperties requiredNames]. split.
    + intros H. apply in_or_app. now right.
    + intros H. rewrite lookup_objectSpread.
      destruct (lastBinding_In m x H) as [v ->]. now exists v.
  - rewrite Hprops, Hreq. cbn [spreadProperties requiredNames]. split; [tauto |].
    intros H. destruct (lookup m x) as [c|] eqn:E; [now exists c |].
    apply lookup_None in E. contradiction.
Qed.

(** ** No request property is named [__proto__] *)

Lemma processJsonSchema_no_proto (s r : JSONSchema4)
      (customTypeMapping : list (string * JSONSchema4TypeName)) :
  processJsonSchema s customTypeMapping = Some r ->
  lookup (spreadProperties (properties r)) "__proto__" = None.
Proof.
  intros Hr. pose proof (processJsonSchema_properties _ _ Hr) as Hnames.
  assert (Hobj : forall m m' : list (string * JSONSchema4),
             map fst m' = map fst (trimPropertyNames m) -> lookup m' "__proto__" = None).
  { intros m m' Hkeys. apply lookup_None. rewrite Hkeys.
    apply trimPropertyNames_no_proto. }
  destruct (properties s) as [[m | l]|];
    cbn [repairedProperties trimmedProperties sameNames] in Hnames;
    destruct (properties r) as [[m' | l']|]; try contradiction;
    cbn [spreadProperties]; try reflexivity; exact (Hobj _ _ Hnames).
Qed.

Lemma mergeRequestSchema_no_proto (jsonSchema : option JSONSchema4) (extra : JSONSchema4) :
  (forall js, jsonSchema = Some js ->
              lookup (spreadProperties (properties js)) "__proto__" = None) ->
  lookup (spreadProperties (properties extra)) "__proto__" = None ->
  lookup (spreadProperties (properties (mergeRequestSchema jsonSchema extra))) "__proto__"
  = None.
Proof.
  intros Hjs Hextra. destruct jsonSchema as [js|]; cbn [mergeRequestSchema]; [| exact Hextra].
  specialize (Hjs js eq_refl). destruct js.
  cbn [set_properties set_required properties spreadProperties] in *.
  rewrite lookup_objectSpread, lastBinding_None; [exact Hjs |].
  apply lookup_None in Hextra. intros kv Hin Hk. apply Hextra.
  apply in_map_iff. now exists kv.
Qed.

Section RequestNames.
Variable JSONValue : Type.
Variable JSON_parse : string -> option JSONSchema4.
Variable JSON5_parse : string -> option JSONValue.
Variable toJsonSchema : JSONValue -> JSONSchema4.

Lemma requestBodySchema_no_proto (interfaceInfo : Interface)
      (customTypeMapping : list (string * JSONSchema4TypeName)) (body : JSONSchema4) :
  requestBodySchema JSON_parse JSON5_parse toJsonSchema interfaceInfo customTypeMapping
  = Some (Some body) ->
  lookup (spreadProperties (properties body)) "__proto__" = None.
Proof.
  unfold requestBodySchema, propDefinitionsToJsonSchema, jsonSchemaStringToJsonSchema,
    jsonToJsonSchema.
  destruct (isPostLikeMethod (method interfaceInfo)); [| discriminate].
  destruct (req_body_type interfaceInfo); try discriminate.
  - match goal with
    | |- option_map Some ?x = _ -> _ => destruct x as [r|] eqn:Hr; [| discriminate]
    end.
    cbn [option_map]. intros H. injection H as <-.
    exact (processJsonSchema_no_proto _ _ Hr).
  - destruct (nonEmpty (req_body_other interfaceInfo)); [| discriminate].
    destruct (req_body_is_json_schema interfaceInfo).
    + destruct (JSON_parse (req_body_other interfaceInfo)) as [w|]; [| discriminate].
      cbn [bindOption].
      destruct (processJsonSchema w customTypeMapping) as [r|] eqn:Hr; [| discriminate].
      cbn [option_map]. intros H. injection H as <-.
      exact (processJsonSchema_no_proto _ _ Hr).
    + destruct (JSON5_parse (req_body_other interfaceInfo)) as [json|]; [| discriminate].
      cbn [bindOption].
      match goal with
      | |- option_map Some ?x = _ -> _ => destruct x as [r|] eqn:Hr; [| discriminate]
      end.
      cbn [option_map]. intros H. injection H as <-.
      exact (processJsonSchema_no_proto _ _ Hr).
Qed.

(** Whatever the sources, the request schema has no property named
    [__proto__]. *)
Lemma getRequestDataJsonSchema_no_proto (interfaceInfo : Interface)
      (customTypeMapping : list (string * JSONSchema4TypeName)) (r : JSONSchema4) :
  getRequestDataJsonSchema JSON_parse JSON5_parse toJsonSchema interfaceInfo
                           customTypeMapping = Some r ->
  lookup (spreadProperties (properties r)) "__proto__" = None.
Proof.
  unfold getRequestDataJsonSchema.
  destruct (requestBodySchema JSON_parse JSON5_parse toJsonSchema interfaceInfo
                              customTypeMapping) as [js0|] eqn:Hbody; [| discriminate].
  cbn [bindOption].
  assert (H0 : forall js, js0 = Some js ->
                          lookup (spreadProperties (properties js)) "__proto__" = None).
  { intros js ->. exact (requestBodySchema_no_proto _ _ Hbody). }
  clear Hbody.
  assert (Hquery :
            forall js1,
              match req_query interfaceInfo with
              | [] => Some js0
              | _ :: _ =>
                  bindOption
                    (propDefinitionsToJsonSchema
                       (map queryItemDefinition (req_query interfaceInfo)) customTypeMapping)
                    (fun queryJsonSchema =>
                       Some (Some (mergeRequestSchema js0 queryJsonSchema)))
              end = Some js1 ->
              forall js, js1 = Some js ->
                         lookup (spreadProperties (properties js)) "__proto__" = None).
  { intros js1. destruct (req_query interfaceInfo) as [|q qs].
    - intros H. injection H as <-. exact H0.
    - destruct (propDefinitionsToJsonSchema (map queryItemDefinition (q :: qs))
                                            customTypeMapping) as [Q|] eqn:HQ;
        [| discriminate].
      cbn [bindOption]. intros H. injection H as <-. intros js Hjs. injection Hjs as <-.
      apply mergeRequestSchema_no_proto; [exact H0 |].
      exact (processJsonSchema_no_proto _ _ HQ). }
  match goal with
  | |- bindOption ?query _ = _ -> _ => destruct query as [js1|] eqn:Hq; [| discriminate]
  end.
  specialize (Hquery js1 eq_refl). cbn [bindOption].
  destruct (req_params interfaceInfo) as [|a ps].
  - cbn [bindOption]. intros H. injection H as <-.
    destruct js1 as [js|]; [now apply Hquery | reflexivity].
  - destruct (propDefinitionsToJsonSchema (map paramItemDefinition (a :: ps))
                                          customTypeMapping) as [P|] eqn:HP;
      [| discriminate].
    cbn [bindOption]. intros H. injection H as <-.
    apply mergeRequestSchema_no_proto; [exact Hquery |].
    exact (processJsonSchema_no_proto _ _ HP).
Qed.
End RequestNames.

(** X10.  Whenever [getRequestDataJsonSchema] returns, every path parameter
    of the interface is, under its trimmed name, one of the required names
    of the request schema, whatever the body and the query contribute; and
    it is a property of the request schema exactly when that trimmed name is
    not ["__proto__"]. *)
Theorem getRequestDataJsonSchema_requires_path_params
        (JSONValue : Type) (JSON_parse : string -> option JSONSchema4)
        (JSON5_parse : string -> option JSONValue)
        (toJsonSchema : JSONValue -> JSONSchema4)
        (interfaceInfo : Interface)
        (customTypeMapping : list (string * JSONSchema4TypeName))
        (r : JSONSchema4) (item : RequestParamItem) :
  getRequestDataJsonSchema JSON_parse JSON5_parse toJsonSchema interfaceInfo
                           customTypeMapping = Some r ->
  In item (req_params interfaceInfo) ->
  In (trim (param_name item)) (requiredNames (required r))
  /\ ((exists c, lookup (spreadProperties (properties r)) (trim (param_name item)) = Some c)
      <-> trim (param_name item) <> "__proto__").
Proof.
  intros Hr Hitem.
  pose proof (getRequestDataJsonSchema_no_proto _ _ _ _ _ Hr) as Hproto.
  unfold getRequestDataJsonSchema in Hr.
  destruct (requestBodySchema JSON_parse JSON5_parse toJsonSchema interfaceInfo
                              customTypeMapping) as [js0|]; [| discriminate Hr].
  cbn [bindOption] in Hr.
  match type of Hr with
  | bindOption ?query _ = _ => destruct query as [js1|]; [| discriminate Hr]
  end.
  cbn [bindOption] in Hr.
  destruct (req_params interfaceInfo) as [|a ps] eqn:Hps; [destruct Hitem |].
  destruct (propDefinitionsToJsonSchema (map paramItemDefinition (a :: ps))
                                        customTypeMapping) as [pj|] eqn:Hpj;
    [| discriminate Hr].
  cbn [bindOption] in Hr. injection Hr as <-.
  destruct (propDefinitionsToJsonSchema_root _ _ Hpj) as (Hreq & m & Hprops & Hnames).
  assert (Hall : filter prop_required (map paramItemDefinition (a :: ps))
                 = map paramItemDefinition (a :: ps)).
  { apply filter_all_true. apply Forall_forall. intros d Hd. apply in_map_iff in Hd.
    now destruct Hd as (i & <- & _). }
  rewrite Hall in Hreq.
  destruct (mergeRequestSchema_extra js1 pj (trim (param_name item)) Hprops Hreq)
    as [Hrequired Hproperty].
  split; [| split].
  - apply Hrequired. apply in_map.
    change (param_name item) with (prop_name (paramItemDefinition item)).
    apply in_map. now apply in_map.
  - intros [c Hc] Hname. rewrite Hname, Hproto in Hc. discriminate Hc.
  - intros Hname. apply Hproperty. apply Hnames. split; [| exact Hname].
    exists (paramItemDefinition item). split; [now apply in_map | reflexivity].
Qed.

(** A POST with a form field and the path parameters [{ id }] and
    [{__proto__}]. *)
Lemma getRequestDataJsonSchema_requires_path_params_witness :
  let id := {| param_name := " id "; param_desc := None; param_type := None;
               param_schema := None |} in
  let proto := {| param_name := "__proto__"; param_desc := None; param_type := None;
                  param_schema := None |} in
  let info := {| method := "POST"; path := "/api/user/{id}/{__proto__}";
                 req_body_type := BodyForm;
                 req_body_form := [ {| form_name := "avatar"; form_type := FormFile;
                                       form_required := RequiredFalse; form_desc := None |} ];
                 req_body_other := ""; req_body_is_json_schema := false;
                 req_query := []; req_params := [id; proto] |} in
  exists r,
    getRequestDataJsonSchema (fun _ => None) (fun _ => @None unit) (fun _ => emptySchema)
                             info [] = Some r
    /\ In "id" (requiredNames (required r))
    /\ (exists c, lookup (spreadProperties (properties r)) "id" = Some c)
    /\ In "__proto__" (requiredNames (required r))
    /\ lookup (spreadProperties (properties r)) "__proto__" = None.
Proof.
  intros id proto info. eexists. split; [vm_compute; reflexivity |].
  match goal with
  | |- In _ (requiredNames (required ?r)) /\ _ =>
      destruct (@getRequestDataJsonSchema_requires_path_params
                  unit (fun _ => None) (fun _ => @None unit) (fun _ => emptySchema)
                  info [] r id)
        as [Hrequired Hproperty]; [vm_compute; reflexivity | left; reflexivity |]
  end.
  split; [exact Hrequired |]. split.
  - apply Hproperty. intros H. discriminate H.
  - split; [vm_compute; tauto | reflexivity].
Defined.

(** ** Which source of a request property wins *)

Lemma propDefinitionsToJsonSchema_NoDup
      (propDefinitions : list PropDefinition)
      (customTypeMapping : list (string * JSONSchema4TypeName)) (r : JSONSchema4) :
  propDefinitionsToJsonSchema propDefinitions customTypeMapping = Some r ->
  exists m, properties r = Some (PropertiesObject m) /\ NoDup (map fst m).
Proof.
  intros Hr.
  destruct (propDefinitionsToJsonSchema_root _ _ Hr) as (_ & m & Hprops & _).
  exists m. split; [exact Hprops |].
  unfold propDefinitionsToJsonSchema in Hr.
  destruct (processJsonSchema_every_node _ _ Hr (nodeOf_root r)) as (_ & Hnamed).
  unfold namedProperties in Hnamed. rewrite Hprops in Hnamed. apply Hnamed.
Qed.

Lemma mergeRequestSchema_lookup (js extra : JSONSchema4)
      (m : list (string * JSONSchema4)) (key : string) :
  properties extra = Some (PropertiesObject m) -> NoDup (map fst m) ->
  lookup (spreadProperties (properties (mergeRequestSchema (Some js) extra))) key
  = match lookup m key with
    | Some v => Some v
    | None => lookup (spreadProperties (properties js)) key
    end.
Proof.
  intros Hprops Hnodup. cbn [mergeRequestSchema]. destruct js.
  cbn [set_properties set_required properties spreadProperties].
  rewrite Hprops. cbn [spreadProperties].
  now rewrite lookup_objectSpread, lastBinding_NoDup.
Qed.

(** X11.  When an interface has query parameters and path parameters, a
    property of its request schema is the one the path parameters define
    under that name; failing that, the one the query parameters define;
    failing that, the one of the request body.  Later sources win. *)
Theorem getRequestDataJsonSchema_later_sources_win
        (JSONValue : Type) (JSON_parse : string -> option JSONSchema4)
        (JSON5_parse : string -> option JSONValue)
        (toJsonSchema : JSONValue -> JSONSchema4)
        (interfaceInfo : Interface)
        (customTypeMapping : list (string * JSONSchema4TypeName))
        (r : JSONSchema4) :
  getRequestDataJsonSchema JSON_parse JSON5_parse toJsonSchema interfaceInfo
                           customTypeMapping = Some r ->
  req_query interfaceInfo <> [] ->
  req_params interfaceInfo <> [] ->
  exists queryJsonSchema paramsJsonSchema,
    propDefinitionsToJsonSchema (map queryItemDefinition (req_query interfaceInfo))
                                customTypeMapping = Some queryJsonSchema
    /\ propDefinitionsToJsonSchema (map paramItemDefinition (req_params interfaceInfo))
                                   customTypeMapping = Some paramsJsonSchema
    /\ forall key,
         lookup (spreadProperties (properties r)) key
         = match lookup (spreadProperties (properties paramsJsonSchema)) key with
           | Some v => Some v
           | None =>
               match lookup (spreadProperties (properties queryJsonSchema)) key with
               | Some v => Some v
               | None =>
                   match requestBodySchema JSON_parse JSON5_parse toJsonSchema
                                           interfaceInfo customTypeMapping with
                   | Some (Some body) => lookup (spreadProperties (properties body)) key
                   | _ => None
                   end
               end
           end.
Proof.
  unfold getRequestDataJsonSchema. intros Hr Hquery Hparams.
  destruct (requestBodySchema JSON_parse JSON5_parse toJsonSchema interfaceInfo
                              customTypeMapping) as [body|]; [| discriminate Hr].
  cbn [bindOption] in Hr.
  destruct (req_query interfaceInfo) as [|q qs]; [contradiction |].
  destruct (req_params interfaceInfo) as [|a ps]; [contradiction |].
  destruct (propDefinitionsToJsonSchema (map queryItemDefinition (q :: qs))
                                        customTypeMapping) as [Q|] eqn:HQ;
    [| discriminate Hr].
  cbn [bindOption] in Hr.
  destruct (propDefinitionsToJsonSchema (map paramItemDefinition (a :: ps))
                                        customTypeMapping) as [P|] eqn:HP;
    [| discriminate Hr].
  assert (Hr' : r = mergeRequestSchema (Some (mergeRequestSchema body Q)) P).
  { cbn [bindOption] in Hr. injection Hr as <-. reflexivity. }
  clear Hr. subst r.
  exists Q, P. split; [reflexivity |]. split; [reflexivity |].
  destruct (propDefinitionsToJsonSchema_NoDup _ _ HQ) as (mq & HQprops & HQnodup).
  destruct (propDefinitionsToJsonSchema_NoDup _ _ HP) as (mp & HPprops & HPnodup).
  intros key. rewrite (@mergeRequestSchema_lookup _ _ _ key HPprops HPnodup).
  rewrite HPprops. cbn [spreadProperties].
  destruct (lookup mp key) as [v|]; [reflexivity |].
  destruct body as [body|].
  - rewrite (@mergeRequestSchema_lookup _ _ _ key HQprops HQnodup).
    rewrite HQprops. cbn [spreadProperties]. reflexivity.
  - cbn [mergeRequestSchema]. now destruct (lookup (spreadProperties (properties Q)) key).
Qed.

(** [id] is a query parameter of type [string] and a path parameter of
    type [Long]: the request type has the integer. *)
Lemma getRequestDataJsonSchema_later_sources_win_witness :
  let info := {| method := "GET"; path := "/api/user/{id}"; req_body_type := BodyNone;
                 req_body_form := []; req_body_other := ""; req_body_is_json_schema := false;
                 req_query := [ {| query_name := "id"; query_required := RequiredFalse;
                                   query_desc := None; query_type := Some "string";
                                   query_schema := None |} ];
                 req_params := [ {| param_name := "id"; param_desc := None;
                                    param_type := Some "Long"; param_schema := None |} ] |} in
  exists r,
    getRequestDataJsonSchema (fun _ => None) (fun _ => @None unit) (fun _ => emptySchema)
                             info [] = Some r
    /\ lookup (spreadProperties (properties r)) "id"
       = Some (set_type (Some (TypeName "integer")) emptySchema).
Proof.
  intros info. eexists. split; [vm_compute; reflexivity |].
  destruct (@getRequestDataJsonSchema_later_sources_win
              unit (fun _ => None) (fun _ => @None unit) (fun _ => emptySchema) info []
              _ eq_refl) as (Q & P & HQ & HP & Hlookup); try discriminate.
  rewrite Hlookup. vm_compute in HP. injection HP as <-. reflexivity.
Defined.

(** ** Path parameters in the request template *)

Lemma substitutePathParams_plain (path : string) :
  hasPathParams path = false -> substitutePathParams O path = (path, ([], [])).
Proof.
  induction path as [|c rest IH]; [reflexivity|]. cbn [hasPathParams substitutePathParams].
  intros H. apply orb_false_elim in H. destruct H as [Hhere Hrest].
  rewrite (IH Hrest).
  destruct (Ascii.eqb c "{"); [| reflexivity].
  destruct (matchParam rest); [discriminate Hhere | reflexivity].
Qed.

Lemma substitutePathParams_found (path : string) :
  hasPathParams path = true -> snd (snd (substitutePathParams O path)) <> [].
Proof.
  induction path as [|c rest IH]; [discriminate|].
  cbn [hasPathParams substitutePathParams]. intros H.
  destruct (Ascii.eqb c "{").
  - destruct (matchParam rest) as [paramName|].
    + destruct (substitutePathParams (S (String.length paramName)) rest)
        as [processed [names originals]]. discriminate.
    + cbn [andb orb] in H. specialize (IH H).
      destruct (substitutePathParams O rest) as [processed lists]. exact IH.
  - cbn [andb orb] in H. specialize (IH H).
    destruct (substitutePathParams O rest) as [processed lists]. exact IH.
Qed.

Lemma substitutePathParams_names (path : string) :
  forall skip : nat,
    fst (snd (substitutePathParams skip path))
    = map (fun paramName =>
             if isNumeric paramName then ("param_" ++ paramName)%string else paramName)
          (snd (snd (substitutePathParams skip path)))
    /\ Forall (fun name => isNumeric name = false)
              (fst (snd (substitutePathParams skip path))).
Proof.
  induction path as [|c rest IH]; intros skip; [split; [reflexivity | constructor] |].
  cbn [substitutePathParams]. destruct skip as [|skip']; [| apply IH].
  destruct (Ascii.eqb c "{").
  - destruct (matchParam rest) as [paramName|].
    + specialize (IH (S (String.length paramName))).
      destruct (substitutePathParams (S (String.length paramName)) rest)
        as [processed [names originals]].
      cbn [fst snd map] in *. destruct IH as [-> Hall]. split; [reflexivity |].
      constructor; [| exact Hall].
      destruct (isNumeric paramName) eqn:E; [reflexivity | exact E].
    + specialize (IH O). destruct (substitutePathParams O rest) as [processed lists].
      exact IH.
  - specialize (IH O). destruct (substitutePathParams O rest) as [processed lists].
    exact IH.
Qed.

(** X12.  The four results of [processPathParams] agree with each other:
    the names used in the template are the captured names, those made of
    digits only prefixed by [param_], so that no name used in the template
    is a number; [useTemplate] is set exactly when a parameter was
    captured; and a path processed without the template is the path
    itself. *)
Theorem processPathParams_results_agree (path : string) :
  pathParamNames (processPathParams path)
  = map (fun paramName =>
           if isNumeric paramName then ("param_" ++ paramName)%string else paramName)
        (originalPathParamNames (processPathParams path))
  /\ Forall (fun name => isNumeric name = false) (pathParamNames (processPathParams path))
  /\ (useTemplate (processPathParams path) = true
      <-> originalPathParamNames (processPathParams path) <> [])
  /\ (useTemplate (processPathParams path) = false
      -> processedPath (processPathParams path) = path).
Proof.
  unfold processPathParams. destruct (hasPathParams path) eqn:E.
  - pose proof (substitutePathParams_names path O) as [Hnames Hall].
    pose proof (substitutePathParams_found path E) as Hfound.
    destruct (substitutePathParams O path) as [processed [names originals]].
    cbn [fst snd pathParamNames originalPathParamNames useTemplate processedPath] in *.
    split; [exact Hnames |]. split; [exact Hall |]. split; [tauto | discriminate].
  - cbn [pathParamNames originalPathParamNames useTemplate processedPath map].
    split; [reflexivity |]. split; [constructor |].
    split; [split; [discriminate | congruence] | reflexivity].
Qed.

Lemma substitutePathParams_skip (u rest : string) (c : ascii) :
  substitutePathParams (S (String.length u)) (u ++ String c rest)
  = substitutePathParams O rest.
Proof. induction u as [|x u IH]; simpl; [reflexivity | exact IH]. Qed.

Lemma substitutePathParams_literal (text rest : string) :
  hasChar "{" text = false ->
  substitutePathParams O (text ++ rest)
  = ((text ++ fst (substitutePathParams O rest))%string, snd (substitutePathParams O rest)).
Proof.
  induction text as [|c text IH]; intros H.
  - cbn [append]. now destruct (substitutePathParams O rest).
  - cbn [hasChar] in H. apply orb_false_elim in H. destruct H as [Hc Ht].
    rewrite Ascii.eqb_sym in Hc.
    change ((String c text ++ rest)%string) with (String c (text ++ rest)).
    cbn [substitutePathParams]. rewrite Hc, (IH Ht). reflexivity.
Qed.

Lemma substitutePathParams_placeholder (param rest : string) :
  nonEmpty param = true -> hasChar "}" param = false ->
  substitutePathParams O (("{" ++ param ++ "}") ++ rest)
  = ((pieceTemplate (Placeholder param) ++ fst (substitutePathParams O rest))%string,
     ((if isNumeric param then ("param_" ++ param)%string else param)
        :: fst (snd (substitutePathParams O rest)),
      param :: snd (snd (substitutePathParams O rest)))).
Proof.
  intros Hne Hp.
  replace ((("{" ++ param ++ "}") ++ rest)%string)
    with (String "{" (param ++ String "}" rest)).
  2: { simpl. f_equal. now rewrite string_app_assoc. }
  cbn [substitutePathParams]. rewrite Ascii.eqb_refl.
  rewrite matchParam_found by assumption. rewrite substitutePathParams_skip.
  destruct (substitutePathParams O rest) as [processed [names originals]].
  cbn [fst snd pieceTemplate]. now rewrite !string_app_assoc.
Qed.

Lemma substitutePathParams_pieces (pieces : list PathPiece) :
  forallb pieceWellFormed pieces = true ->
  substitutePathParams O (String.concat "" (map pieceSource pieces))
  = (String.concat "" (map pieceTemplate pieces),
     (map (fun paramName =>
             if isNumeric paramName then ("param_" ++ paramName)%string else paramName)
          (placeholders pieces),
      placeholders pieces)).
Proof.
  induction pieces as [|p pieces IH]; [reflexivity|]. intros H.
  cbn [forallb] in H. apply andb_prop in H. destruct H as [Hp Hrest].
  cbn [map]. rewrite !concat_cons.
  destruct p as [text | param]; cbn [pieceWellFormed] in Hp.
  - apply negb_true_iff in Hp. cbn [pieceSource].
    rewrite substitutePathParams_literal by assumption.
    rewrite (IH Hrest). reflexivity.
  - apply andb_prop in Hp. destruct Hp as [Hne Hclose]. apply negb_true_iff in Hclose.
    cbn [pieceSource]. rewrite substitutePathParams_placeholder by assumption.
    rewrite (IH Hrest). reflexivity.
Qed.

(** X13.  For a path written as literal text and [{param}] placeholders,
    [processPathParams] captures the parameters of the placeholders in
    order and writes every placeholder as [${params.name}], an all-digit
    name as [${params.param_name}]; without a placeholder the path is
    returned as it is and no template is used. *)
Theorem processPathParams_on_templates (pieces : list PathPiece) :
  forallb pieceWellFormed pieces = true ->
  processPathParams (String.concat "" (map pieceSource pieces))
  = {| processedPath := String.concat "" (map pieceTemplate pieces);
       useTemplate := match placeholders pieces with [] => false | _ :: _ => true end;
       pathParamNames :=
         map (fun paramName =>
                if isNumeric paramName then ("param_" ++ paramName)%string else paramName)
             (placeholders pieces);
       originalPathParamNames := placeholders pieces |}.
Proof.
  intros Hok. pose proof (substitutePathParams_pieces pieces Hok) as Hsub.
  unfold processPathParams.
  destruct (hasPathParams (String.concat "" (map pieceSource pieces))) eqn:E.
  - apply substitutePathParams_found in E. rewrite Hsub in *. cbn [snd] in E.
    destruct (placeholders pieces); [contradiction | reflexivity].
  - rewrite (substitutePathParams_plain _ E) in Hsub.
    injection Hsub as Hpath Hnames Horiginals.
    rewrite <- Horiginals, <- Hpath. reflexivity.
Qed.

(** The path of an interface with a named and a numbered parameter. *)
Lemma processPathParams_on_templates_witness :
  processPathParams "/api/user/{userId}/order/{2}"
  = {| processedPath := "/api/user/${params.userId}/order/${params.param_2}";
       useTemplate := true;
       pathParamNames := ["userId"; "param_2"];
       originalPathParamNames := ["userId"; "2"] |}.
Proof.
  apply (processPathParams_on_templates
           [Literal "/api/user/"; Placeholder "userId"; Literal "/order/"; Placeholder "2"]).
  reflexivity.
Defined.

(** ** The base path of a project *)

Lemma stripTrailingSlashes_idempotent (s : string) :
  stripTrailingSlashes (stripTrailingSlashes s) = stripTrailingSlashes s.
Proof.
  induction s as [|c s IH]; simpl; [reflexivity|].
  destruct (stripTrailingSlashes s) as [|d r] eqn:Hr.
  - destruct (isSlash c) eqn:Hc; simpl; [reflexivity | now rewrite Hc].
  - simpl in *. rewrite IH. reflexivity.
Qed.

Lemma stripTrailingSlashes_head (c : ascii) (s : string) :
  stripTrailingSlashes (String c s) = EmptyString
  \/ exists r, stripTrailingSlashes (String c s) = String c r.
Proof.
  simpl. destruct (stripTrailingSlashes s) as [|d r].
  - destruct (isSlash c); [now left | right; now eexists].
  - right. now eexists.
Qed.

Lemma noTrailingSlash_tail (c : ascii) (s : string) :
  noTrailingSlash (String c s) -> s <> EmptyString -> noTrailingSlash s.
Proof.
  unfold noTrailingSlash. simpl. intros H Hs.
  destruct (stripTrailingSlashes s) as [|d r] eqn:Hr.
  - destruct (isSlash c); [discriminate H |]. injection H as H. congruence.
  - now injection H.
Qed.

Lemma noTrailingSlash_cons (c : ascii) (s : string) :
  noTrailingSlash s -> s <> EmptyString -> noTrailingSlash (String c s).
Proof.
  unfold noTrailingSlash. simpl. intros -> Hs. destruct s; [contradiction | reflexivity].
Qed.

Lemma noTrailingSlash_not_slash (c : ascii) :
  noTrailingSlash (String c EmptyString) -> isSlash c = false.
Proof. unfold noTrailingSlash. simpl. now destruct (isSlash c). Qed.

(** A non-empty string that does not end with a slash still holds
    something once its leading slashes are gone, and that does not start
    with a slash nor end with one. *)
Lemma stripLeadingSlashes_body (s : string) :
  noTrailingSlash s -> s <> EmptyString ->
  exists c rest, stripLeadingSlashes s = String c rest /\ isSlash c = false
                 /\ noTrailingSlash (String c rest).
Proof.
  induction s as [|c s IH]; [contradiction|]. intros Hfixed _.
  cbn [stripLeadingSlashes]. destruct (isSlash c) eqn:Hc.
  - destruct s as [|d s'].
    + apply noTrailingSlash_not_slash in Hfixed. congruence.
    + apply IH; [| discriminate]. now apply (noTrailingSlash_tail Hfixed).
  - now exists c, s.
Qed.

Lemma noTrailingSlash_endsWith (s : string) :
  noTrailingSlash s <-> endsWith "/" s = false.
Proof.
  unfold noTrailingSlash. induction s as [|c s IH]; [split; reflexivity |].
  change (endsWith "/" (String c s))
    with (String.eqb (String c s) "/" || endsWith "/" s).
  cbn [stripTrailingSlashes]. split.
  - intros H. destruct (stripTrailingSlashes s) as [|d r] eqn:Hs.
    + destruct (isSlash c) eqn:Hc; [discriminate H |]. injection H as <-.
      unfold isSlash in Hc. cbn [String.eqb]. now rewrite Hc.
    + injection H as <-. rewrite (proj1 IH eq_refl), orb_false_r.
      cbn [String.eqb]. now destruct (Ascii.eqb c "/").
  - intros H. apply orb_false_elim in H. destruct H as [Hhere Hrest].
    rewrite (proj2 IH Hrest). destruct s as [|d r]; [| reflexivity].
    cbn [String.eqb] in Hhere. unfold isSlash.
    destruct (Ascii.eqb c "/"); [discriminate Hhere | reflexivity].
Qed.

(** X14.  The base path [fetchProject] stores is in normal form: it is
    empty, or it starts with exactly one slash; it never ends with a slash;
    and normalising it again changes nothing.  An absent, an empty and a
    ["/"] base path all give the empty one. *)
Theorem normalizeBasePath_normal_form (basepath : option string) :
  (normalizeBasePath basepath = ""
   \/ exists c rest, normalizeBasePath basepath = String "/" (String c rest)
                     /\ isSlash c = false)
  /\ endsWith "/" (normalizeBasePath basepath) = false
  /\ normalizeBasePath (Some (normalizeBasePath basepath)) = normalizeBasePath basepath
  /\ normalizeBasePath None = "" /\ normalizeBasePath (Some "") = ""
  /\ normalizeBasePath (Some "/") = "".
Proof.
  assert (Hform : normalizeBasePath basepath = ""
                  \/ exists c rest, normalizeBasePath basepath = String "/" (String c rest)
                                    /\ isSlash c = false
                                    /\ noTrailingSlash (String c rest)).
  { unfold normalizeBasePath.
    set (given := match basepath with
                  | Some b => if nonEmpty b then b else "/"
                  | None => "/"
                  end).
    change (("/" ++ given)%string) with (String "/" given).
    destruct (stripTrailingSlashes_head "/" given) as [-> | [r Hr]]; [now left |].
    right. rewrite Hr. cbn [collapseLeadingSlashes isSlash Ascii.eqb Bool.eqb
                            stripLeadingSlashes].
    assert (Hfixed : noTrailingSlash (String "/" r)).
    { unfold noTrailingSlash. rewrite <- Hr. apply stripTrailingSlashes_idempotent. }
    destruct r as [|d r'].
    - apply noTrailingSlash_not_slash in Hfixed. discriminate Hfixed.
    - destruct (@stripLeadingSlashes_body (String d r')) as (c & rest & -> & Hc & Hrest);
        [now apply (noTrailingSlash_tail Hfixed) | discriminate |].
      now exists c, rest. }
  split; [| split; [| split; [| repeat split]]].
  - destruct Hform as [H | (c & rest & H & Hc & _)]; [now left |].
    right. now exists c, rest.
  - apply noTrailingSlash_endsWith.
    destruct Hform as [-> | (c & rest & -> & _ & Hrest)]; [reflexivity |].
    now apply noTrailingSlash_cons.
  - destruct Hform as [-> | (c & rest & -> & Hc & Hrest)]; [reflexivity |].
    unfold normalizeBasePath. cbn [nonEmpty].
    change (("/" ++ String "/" (String c rest))%string)
      with (String "/" (String "/" (String c rest))).
    assert (Hfixed : stripTrailingSlashes (String "/" (String "/" (String c rest)))
                     = String "/" (String "/" (String c rest))).
    { apply noTrailingSlash_cons; [| discriminate].
      apply noTrailingSlash_cons; [exact Hrest | discriminate]. }
    rewrite Hfixed.
    cbn [collapseLeadingSlashes isSlash Ascii.eqb Bool.eqb stripLeadingSlashes].
    fold (isSlash c). now rewrite Hc.
Qed.

(** ** Targets of [write] *)

Lemma string_length_app (a b : string) :
  String.length (a ++ b) = (String.length a + String.length b)%nat.
Proof. induction a as [|c a IH]; simpl; [reflexivity | now rewrite IH]. Qed.

Lemma retargetExtension_eq (p : string) :
  retargetExtension p
  = if String.eqb p ".js" then ".ts"
    else if String.eqb p ".jsx" then ".tsx"
         else match p with
              | EmptyString => EmptyString
              | String c p' => String c (retargetExtension p')
              end.
Proof. destruct p; reflexivity. Qed.

Lemma endsWith_eq (suffix s : string) :
  endsWith suffix s
  = (String.eqb s suffix
     || match s with
        | EmptyString => false
        | String _ s' => endsWith suffix s'
        end).
Proof. destruct s; reflexivity. Qed.

(** Text without a dot comes from itself only. *)
Lemma retargetExtension_no_dot (p t : string) :
  retargetExtension p = t -> hasChar "." t = false -> p = t.
Proof.
  revert t. induction p as [|c p IH]; intros t; rewrite retargetExtension_eq.
  - cbn. now intros <-.
  - destruct (String.eqb_spec (String c p) ".js") as [-> | _]; [intros <-; discriminate |].
    destruct (String.eqb_spec (String c p) ".jsx") as [-> | _]; [intros <-; discriminate |].
    intros <- H. cbn [hasChar] in H. apply orb_false_elim in H. destruct H as [_ H].
    f_equal. now apply IH.
Qed.

Lemma retargetExtension_cons (c : ascii) (p suffix : string) :
  String c p <> ".js" -> String c p <> ".jsx" ->
  suffix = ".js" \/ suffix = ".jsx" ->
  String.eqb (String c (retargetExtension p)) suffix = false.
Proof.
  intros Hjs Hjsx Hsuffix. apply String.eqb_neq. intros H.
  destruct Hsuffix as [-> | ->]; injection H as Hc H; subst c;
    apply retargetExtension_no_dot in H; try reflexivity; subst p; contradiction.
Qed.

(** X15.  The path [write] writes to never ends in [.js] or [.jsx]: such an
    ending has become [.ts] or [.tsx], the rest of the path and its length
    are kept, a path with another ending is left alone, and rewriting
    twice is rewriting once. *)
Theorem retargetExtension_leaves_no_js (p : string) :
  endsWith ".js" (retargetExtension p) = false
  /\ endsWith ".jsx" (retargetExtension p) = false
  /\ retargetExtension (retargetExtension p) = retargetExtension p
  /\ String.length (retargetExtension p) = String.length p
  /\ (forall stem, retargetExtension (stem ++ ".js") = (stem ++ ".ts")%string
                   /\ retargetExtension (stem ++ ".jsx") = (stem ++ ".tsx")%string)
  /\ (endsWith ".js" p = false -> endsWith ".jsx" p = false -> retargetExtension p = p).
Proof.
  split; [| split; [| split; [| split; [| split]]]].
  - induction p as [|c p IH]; [reflexivity |]. rewrite retargetExtension_eq.
    destruct (String.eqb_spec (String c p) ".js") as [_ | Hjs]; [reflexivity |].
    destruct (String.eqb_spec (String c p) ".jsx") as [_ | Hjsx]; [reflexivity |].
    rewrite endsWith_eq, IH, retargetExtension_cons; auto.
  - induction p as [|c p IH]; [reflexivity |]. rewrite retargetExtension_eq.
    destruct (String.eqb_spec (String c p) ".js") as [_ | Hjs]; [reflexivity |].
    destruct (String.eqb_spec (String c p) ".jsx") as [_ | Hjsx]; [reflexivity |].
    rewrite endsWith_eq, IH, retargetExtension_cons; auto.
  - induction p as [|c p IH]; [reflexivity |]. rewrite (retargetExtension_eq (String c p)).
    destruct (String.eqb_spec (String c p) ".js") as [_ | Hjs]; [reflexivity |].
    destruct (String.eqb_spec (String c p) ".jsx") as [_ | Hjsx]; [reflexivity |].
    rewrite retargetExtension_eq, !retargetExtension_cons by auto.
    now rewrite IH.
  - induction p as [|c p IH]; [reflexivity |]. rewrite retargetExtension_eq.
    destruct (String.eqb_spec (String c p) ".js") as [-> | Hjs]; [reflexivity |].
    destruct (String.eqb_spec (String c p) ".jsx") as [-> | Hjsx]; [reflexivity |].
    cbn [String.length]. now rewrite IH.
  - induction stem as [|c stem [IHjs IHjsx]]; [split; reflexivity |].
    split; rewrite retargetExtension_eq.
    + destruct (String.eqb_spec (String c stem ++ ".js") ".js") as [H | _].
      { apply (f_equal String.length) in H. cbn in H.
        rewrite string_length_app in H. cbn in H. lia. }
      destruct (String.eqb_spec (String c stem ++ ".js") ".jsx") as [H | _].
      { injection H as _ H.
        assert (Hdot : hasChar "." (stem ++ ".js") = false) by (now rewrite H).
        rewrite hasChar_app in Hdot. apply orb_false_elim in Hdot.
        destruct Hdot as [_ Hdot]. discriminate Hdot. }
      cbn [append]. now rewrite IHjs.
    + destruct (String.eqb_spec (String c stem ++ ".jsx") ".js") as [H | _].
      { injection H as _ H.
        assert (Hdot : hasChar "." (stem ++ ".jsx") = false) by (now rewrite H).
        rewrite hasChar_app in Hdot. apply orb_false_elim in Hdot.
        destruct Hdot as [_ Hdot]. discriminate Hdot. }
      destruct (String.eqb_spec (String c stem ++ ".jsx") ".jsx") as [H | _].
      { apply (f_equal String.length) in H. cbn in H.
        rewrite string_length_app in H. cbn in H. lia. }
      cbn [append]. now rewrite IHjsx.
  - induction p as [|c p IH]; [reflexivity |]. rewrite retargetExtension_eq.
    rewrite !(endsWith_eq _ (String c p)). intros Hjs Hjsx.
    apply orb_false_elim in Hjs. destruct Hjs as [Hjs Hjs'].
    apply orb_false_elim in Hjsx. destruct Hjsx as [Hjsx Hjsx'].
    rewrite Hjs, Hjsx. f_equal. now apply IH.
Qed.

(** ** Root directories *)

Lemma prefix_app_iff (p s : string) :
  String.prefix p s = true <-> exists rest, s = (p ++ rest)%string.
Proof.
  revert s. induction p as [|c p IH]; intros s.
  - destruct s; cbn; split; try reflexivity; intros _; now eexists.
  - destruct s as [|d s]; cbn [String.prefix append].
    + split; [discriminate | intros [rest H]; discriminate H].
    + destruct (ascii_dec c d) as [<- | Hne].
      * rewrite IH. split; intros [rest H]; exists rest; [now rewrite H | now injection H].
      * split; [discriminate | intros [rest H]; injection H as H _; congruence].
Qed.

Lemma liesIn_shorter (sep dir otherDir : string) :
  liesIn sep dir otherDir = true -> (String.length otherDir < String.length dir)%nat.
Proof.
  unfold liesIn, startsWith. intros H. apply andb_prop in H. destruct H as [Hne Hpre].
  apply negb_true_iff, String.eqb_neq in Hne.
  apply prefix_app_iff in Hpre. destruct Hpre as [rest ->].
  rewrite !string_length_app.
  destruct sep as [|c sep]; [| cbn [String.length]; lia].
  destruct rest as [|c rest]; [| cbn [String.length]; lia].
  exfalso. apply Hne. now rewrite !string_app_nil_r.
Qed.

Lemma liesIn_trans (sep dir middle root : string) :
  liesIn sep dir middle = true -> liesIn sep middle root = true ->
  liesIn sep dir root = true.
Proof.
  intros Hdm Hmr.
  pose proof (liesIn_shorter _ _ _ Hdm) as Hlt.
  pose proof (liesIn_shorter _ _ _ Hmr) as Hlt'.
  unfold liesIn, startsWith in *.
  apply andb_prop in Hdm. destruct Hdm as [_ Hdm].
  apply andb_prop in Hmr. destruct Hmr as [_ Hmr].
  apply prefix_app_iff in Hdm. destruct Hdm as [rest Hd].
  apply prefix_app_iff in Hmr. destruct Hmr as [rest' Hm].
  apply andb_true_intro. split.
  - apply negb_true_iff, String.eqb_neq. intros ->. lia.
  - apply prefix_app_iff. exists (rest' ++ sep ++ rest)%string.
    rewrite Hd, Hm. now rewrite !string_app_assoc.
Qed.

(** X16.  The directories handed to the index generator are the roots of
    the written directories: each is a written directory that lies in no
    other written directory, and every written directory is one of them or
    lies in one of them. *)
Theorem rootDirs_are_the_roots (sep : string) (directories : list string) :
  (forall root, In root (rootDirs sep directories) ->
                In root directories
                /\ forall otherDir, In otherDir directories ->
                                    liesIn sep root otherDir = false)
  /\ (forall dir, In dir directories ->
                  In dir (rootDirs sep directories)
                  \/ exists root, In root (rootDirs sep directories)
                                  /\ liesIn sep dir root = true).
Proof.
  assert (Hroot : forall dir,
             In dir (rootDirs sep directories)
             <-> In dir directories
                 /\ forall otherDir, In otherDir directories ->
                                     liesIn sep dir otherDir = false).
  { intros dir. unfold rootDirs. rewrite filter_In, negb_true_iff.
    split; intros [Hin H]; (split; [exact Hin |]).
    - intros otherDir Hother.
      destruct (liesIn sep dir otherDir) eqn:E; [| reflexivity].
      assert (Hex : existsb (liesIn sep dir) directories = true)
        by (apply existsb_exists; now exists otherDir).
      congruence.
    - destruct (existsb (liesIn sep dir) directories) eqn:E; [| reflexivity].
      apply existsb_exists in E. destruct E as (otherDir & Hother & Hlies).
      rewrite (H otherDir Hother) in Hlies. discriminate Hlies. }
  split; [intros root; apply Hroot |].
  intros dir. remember (String.length dir) as n eqn:Hn. revert dir Hn.
  induction n as [n IH] using lt_wf_ind. intros dir -> Hin.
  destruct (existsb (liesIn sep dir) directories) eqn:E.
  - apply existsb_exists in E. destruct E as (otherDir & Hother & Hlies).
    pose proof (liesIn_shorter _ _ _ Hlies) as Hlt.
    destruct (IH _ Hlt otherDir eq_refl Hother) as [Hr | (root & Hr & Hlies')].
    + right. now exists otherDir.
    + right. exists root. split; [exact Hr |].
      exact (liesIn_trans _ _ _ _ Hlies Hlies').
  - left. apply Hroot. split; [exact Hin |]. intros otherDir Hother.
    destruct (liesIn sep dir otherDir) eqn:E'; [| reflexivity].
    assert (Hex : existsb (liesIn sep dir) directories = true)
      by (apply existsb_exists; now exists otherDir).
    congruence.
Qed.

(** ** The server address and the title of a comment *)

(** X17.  [prepare] removes the slashes at the end of a server address and
    nothing else: the address is what is left followed by slashes only,
    and what is left does not end with a slash; an address without a
    slash at its end is left alone. *)
Theorem preparedServerUrl_drops_trailing_slashes (serverUrl : string) :
  (exists k, serverUrl = (preparedServerUrl serverUrl ++ slashes k)%string)
  /\ endsWith "/" (preparedServerUrl serverUrl) = false
  /\ (endsWith "/" serverUrl = false -> preparedServerUrl serverUrl = serverUrl).
Proof.
  assert (Hsame : preparedServerUrl serverUrl = stripTrailingSlashes serverUrl).
  { unfold preparedServerUrl. now destruct serverUrl. }
  rewrite Hsame. split; [| split].
  - clear Hsame. induction serverUrl as [|c s [k IH]]; [now exists 0%nat |].
    cbn [stripTrailingSlashes].
    destruct (stripTrailingSlashes s) as [|d r] eqn:Hs.
    + cbn [append] in IH. destruct (isSlash c) eqn:Hc.
      * exists (S k). unfold isSlash in Hc. apply Ascii.eqb_eq in Hc. subst c.
        cbn [append slashes]. now rewrite <- IH.
      * exists k. cbn [append]. now rewrite <- IH.
    + exists k. cbn [append] in *. now rewrite <- IH.
  - apply noTrailingSlash_endsWith. apply stripTrailingSlashes_idempotent.
  - intros H. now apply noTrailingSlash_endsWith.
Qed.

Lemma escapeSlashes_head (title : string) :
  match escapeSlashes title with
  | String d _ => isSlash d
  | EmptyString => false
  end = false.
Proof.
  destruct title as [|c rest]; [reflexivity|]. cbn [escapeSlashes].
  destruct (isSlash c) eqn:Hc; [reflexivity | exact Hc].
Qed.

(** X18.  The title written into a comment cannot close the comment: once
    its slashes are escaped it holds no asterisk followed by a slash.  A
    title without a slash is written as it is. *)
Theorem escapeSlashes_cannot_close_the_comment (title : string) :
  hasCommentEnd (escapeSlashes title) = false
  /\ (hasChar "/" title = false -> escapeSlashes title = title).
Proof.
  split.
  - induction title as [|c rest IH]; [reflexivity|]. cbn [escapeSlashes].
    destruct (isSlash c) eqn:Hc.
    + cbn [hasCommentEnd]. rewrite IH. reflexivity.
    + cbn [hasCommentEnd]. rewrite IH, escapeSlashes_head. now rewrite andb_false_r.
  - induction title as [|c rest IH]; [reflexivity|]. cbn [hasChar escapeSlashes].
    intros H. apply orb_false_elim in H. destruct H as [Hc Hrest].
    unfold isSlash. rewrite Ascii.eqb_sym, Hc. now rewrite (IH Hrest).
Qed.

(** ** Unix-style paths *)

Lemma collapseRuns_no_backslash (inRun : bool) (path : string) :
  hasChar "\" (collapseRuns isSlashOrBackslash inRun path) = false.
Proof.
  revert inRun. induction path as [|c path IH]; intros inRun; [reflexivity|].
  cbn [collapseRuns]. destruct (isSlashOrBackslash c) eqn:Hc.
  - destruct inRun; [apply IH |]. cbn [hasChar]. now rewrite IH.
  - cbn [hasChar]. rewrite IH. unfold isSlashOrBackslash in Hc.
    apply orb_false_elim in Hc. destruct Hc as [_ Hc].
    rewrite Ascii.eqb_sym. now rewrite Hc.
Qed.

Lemma collapseRuns_no_double_slash (inRun : bool) (path : string) :
  noDoubleSlash (collapseRuns isSlashOrBackslash inRun path) = true
  /\ (inRun = true ->
      startsWithSlash (collapseRuns isSlashOrBackslash inRun path) = false).
Proof.
  revert inRun. induction path as [|c path IH]; intros inRun; [now split|].
  cbn [collapseRuns]. destruct (isSlashOrBackslash c) eqn:Hc.
  - destruct inRun; [apply IH |]. split; [| discriminate].
    destruct (IH true) as [Hno Hstart]. cbn [noDoubleSlash].
    now rewrite Hno, (Hstart eq_refl), andb_false_r.
  - assert (Hslash : isSlash c = false).
    { unfold isSlashOrBackslash in Hc. now apply orb_false_elim in Hc. }
    destruct (IH false) as [Hno _]. cbn [noDoubleSlash startsWithSlash].
    now rewrite Hno, Hslash.
Qed.

Lemma collapseRuns_fixed (path : string) :
  hasChar "\" path = false -> noDoubleSlash path = true ->
  forall inRun : bool,
    (inRun = true -> startsWithSlash path = false) ->
    collapseRuns isSlashOrBackslash inRun path = path.
Proof.
  induction path as [|c path IH]; intros Hback Hdouble inRun Hrun; [reflexivity|].
  cbn [hasChar] in Hback. apply orb_false_elim in Hback. destruct Hback as [Hc Hback].
  cbn [noDoubleSlash] in Hdouble. apply andb_prop in Hdouble.
  destruct Hdouble as [Hhere Hdouble]. apply negb_true_iff in Hhere.
  assert (Hsep : isSlashOrBackslash c = isSlash c).
  { unfold isSlashOrBackslash, isSlash. now rewrite (Ascii.eqb_sym c "\"), Hc, orb_false_r. }
  cbn [collapseRuns]. rewrite Hsep. destruct (isSlash c) eqn:Hslash.
  - destruct inRun; [cbn in Hrun; rewrite Hslash in Hrun; now discriminate Hrun |].
    cbn [andb] in Hhere. rewrite (IH Hback Hdouble true (fun _ => Hhere)).
    unfold isSlash in Hslash. apply Ascii.eqb_eq in Hslash. now subst c.
  - now rewrite (IH Hback Hdouble false) by discriminate.
Qed.

(** X19.  A path made Unix-style holds no backslash and no two slashes in
    a row; a path that already is like that is returned as it is, so
    converting twice is converting once. *)
Theorem toUnixPath_normal_form (path : string) :
  hasChar "\" (toUnixPath path) = false
  /\ noDoubleSlash (toUnixPath path) = true
  /\ toUnixPath (toUnixPath path) = toUnixPath path
  /\ (hasChar "\" path = false -> noDoubleSlash path = true -> toUnixPath path = path).
Proof.
  unfold toUnixPath.
  pose proof (collapseRuns_no_backslash false path) as Hback.
  destruct (collapseRuns_no_double_slash false path) as [Hdouble _].
  repeat split; try assumption.
  - apply collapseRuns_fixed; [assumption | assumption | discriminate].
  - intros H H'. apply collapseRuns_fixed; [assumption | assumption | discriminate].
Qed.

(** ** Import specifiers *)

Lemma stripScriptExtension_head (c : ascii) (s : string) :
  stripScriptExtension (String c s) = EmptyString
  \/ exists r, stripScriptExtension (String c s) = String c r.
Proof.
  cbn [stripScriptExtension].
  destruct (existsb _ _); [now left | right; now eexists].
Qed.

(** X20.  The module specifier written into an import is an alias path
    starting with [@/], or it is empty, or it starts with a dot: a bare
    module name is never produced.  [getAliasPath] itself returns an alias
    path or its argument unchanged, and applying it twice is applying it
    once. *)
Theorem import_specifiers_are_alias_or_relative
        (path_relative : string -> string -> string) (path_dirname : string -> string)
        (from to : string) :
  (startsWith "@/" (getNormalizedPathWithAlias path_relative path_dirname from to) = true
   \/ getNormalizedPathWithAlias path_relative path_dirname from to = ""
   \/ startsWith "." (getNormalizedPathWithAlias path_relative path_dirname from to) = true)
  /\ (startsWith "@/" (getAliasPath to) = true \/ getAliasPath to = to)
  /\ getAliasPath (getAliasPath to) = getAliasPath to.
Proof.
  assert (Halias : startsWith "@/" (getAliasPath to) = true \/ getAliasPath to = to).
  { unfold getAliasPath. destruct (startsWith "@/" to) eqn:E; [now left |].
    destruct (afterLast "/src/" (backslashesToSlashes to));
      [left; apply prefix_app_iff; now eexists | now right]. }
  split; [| split; [exact Halias |]].
  - unfold getNormalizedPathWithAlias.
    destruct (startsWith "@/" (getAliasPath to)) eqn:E; [now left |]. right.
    unfold getNormalizedRelativePath.
    destruct (toUnixPath (path_relative (path_dirname from) to)) as [|c s];
      [now left |].
    cbn [prefixDotSlash]. destruct (Ascii.eqb c ".") eqn:Hc.
    + apply Ascii.eqb_eq in Hc. subst c.
      destruct (stripScriptExtension_head "." s) as [-> | [r ->]];
        [now left | right; apply prefix_app_iff; now exists r].
    + change (("./" ++ String c s)%string) with (String "." (String "/" (String c s))).
      destruct (stripScriptExtension_head "." (String "/" (String c s))) as [-> | [r ->]];
        [now left | right; apply prefix_app_iff; now exists r].
  - destruct Halias as [H | H].
    + unfold getAliasPath at 1. now rewrite H.
    + now rewrite H.
Qed.

(** ** The lines of the index file *)

Lemma endsWith_app (suffix a : string) : endsWith suffix (a ++ suffix) = true.
Proof.
  induction a as [|c a IH]; rewrite endsWith_eq.
  - cbn [append]. now rewrite String.eqb_refl.
  - cbn [append]. rewrite IH. apply orb_true_r.
Qed.

Lemma dropSegments_app (target rest : list string) :
  dropSegments target (target ++ rest) = Some rest.
Proof.
  induction target as [|t target IH]; [reflexivity|].
  cbn [app dropSegments]. now rewrite String.eqb_refl.
Qed.

Lemma afterSegments_eq (target segments : list string) :
  afterSegments target segments
  = match dropSegments target segments with
    | Some rest => Some rest
    | None =>
        match segments with
        | [] => None
        | _ :: segments' => afterSegments target segments'
        end
    end.
Proof. destruct segments; reflexivity. Qed.

Lemma afterSegments_app (target rest : list string) :
  afterSegments target (target ++ rest) = Some rest.
Proof. now rewrite afterSegments_eq, dropSegments_app. Qed.

Section TransformPathsFacts.
Variable path_normalize : string -> string.
Variable path_sep : ascii.

Lemma exportLine_shape (targetSegments : list string) (originalPath : string) :
  nonEmpty (exportLine path_normalize path_sep targetSegments originalPath) = true
  /\ (startsWith "// " (exportLine path_normalize path_sep targetSegments originalPath)
      = true
      \/ (startsWith "export * from './"
                     (exportLine path_normalize path_sep targetSegments originalPath) = true
          /\ endsWith "/index'"
                      (exportLine path_normalize path_sep targetSegments originalPath)
             = true)).
Proof.
  unfold exportLine.
  destruct (afterSegments targetSegments (split path_sep (path_normalize originalPath)))
    as [[|segment rest]|].
  - split; [reflexivity | left; reflexivity].
  - split; [reflexivity | right]. split.
    + apply prefix_app_iff. eexists. cbn [append]. reflexivity.
    + replace ("export * from '" ++ ("./" ++ join "/" (segment :: rest) ++ "/index") ++ "'")%string
        with (("export * from './" ++ join "/" (segment :: rest)) ++ "/index'")%string.
      * apply endsWith_app.
      * cbn [append]. now rewrite !string_app_assoc.
  - split; [reflexivity | left; reflexivity].
Qed.

(** X21.  [transformPaths] answers one line for every path it is given, in
    order: its final filter removes nothing.  Every line is a [//] comment
    or an [export * from './.../index'] statement, and a path whose
    segments are those of the output directory followed by others is
    exported under those others, joined by slashes. *)
Theorem transformPaths_keeps_every_path (pathsArray : list string) (outputDir : string) :
  transformPaths path_normalize path_sep pathsArray outputDir
  = map (exportLine path_normalize path_sep (split "/" outputDir)) pathsArray
  /\ List.length (transformPaths path_normalize path_sep pathsArray outputDir)
     = List.length pathsArray
  /\ (forall line,
         In line (transformPaths path_normalize path_sep pathsArray outputDir) ->
         startsWith "// " line = true
         \/ (startsWith "export * from './" line = true
             /\ endsWith "/index'" line = true))
  /\ (forall originalPath segment rest,
         split path_sep (path_normalize originalPath)
         = split "/" outputDir ++ segment :: rest ->
         exportLine path_normalize path_sep (split "/" outputDir) originalPath
         = ("export * from './" ++ join "/" (segment :: rest) ++ "/index'")%string).
Proof.
  assert (Hall : transformPaths path_normalize path_sep pathsArray outputDir
                 = map (exportLine path_normalize path_sep (split "/" outputDir))
                       pathsArray).
  { unfold transformPaths. apply filter_all_true. apply Forall_forall.
    intros line Hin. apply in_map_iff in Hin. destruct Hin as (p & <- & _).
    apply exportLine_shape. }
  split; [exact Hall |]. rewrite Hall. split; [apply length_map |]. split.
  - intros line Hin. apply in_map_iff in Hin. destruct Hin as (p & <- & _).
    apply exportLine_shape.
  - intros originalPath segment rest Hsplit. unfold exportLine.
    rewrite Hsplit, afterSegments_app. cbn [append]. now rewrite !string_app_assoc.
Qed.
End TransformPathsFacts.

(** Two directories below [src/service] and the output directory itself. *)
Lemma transformPaths_keeps_every_path_witness :
  transformPaths (fun p => p) "/" ["src/service/user"; "src/service"; "lib/x"] "src/service"
  = ["export * from './user/index'"; "// 根目录: src/service"; "// 无法处理路径: lib/x"]
  /\ exportLine (fun p => p) "/" (split "/" "src/service") "app/src/service/order/item"
     = "export * from './order/item/index'".
Proof.
  destruct (transformPaths_keeps_every_path
              (fun p => p) "/" ["src/service/user"; "src/service"; "lib/x"] "src/service")
    as (Hmap & _ & _ & _).
  split; [rewrite Hmap; reflexivity |].
  vm_compute. reflexivity.
Defined.

(** ** More on the generated names *)

(** X22.  The response-type name is built like the request-type name: for
    a path [/api/seg/.../seg] (or [/seg/.../seg] not starting with [api/])
    made of literal text and [{param}] placeholders it is the PascalCase
    form of the lower-cased method, then the PascalCase forms of the
    segments in which every placeholder has become [By] followed by the
    PascalCase form of its parameter, then [ResponseType].  With the
    PascalCase of the change-case library the two paths named in the
    comments of the source give the names written there. *)
Theorem response_type_name_follows_the_algorithm :
  (forall (pascalCase : string -> string) (interfaceInfo : Interface)
          (underApi : bool) (segments : list (list PathPiece)),
      path interfaceInfo = templatePath underApi segments ->
      templateOk pascalCase underApi segments = true ->
      getReponseDataTypeName pascalCase interfaceInfo
      = (pascalCase (toLowerCase (methodOrGet interfaceInfo))
         ++ String.concat "" (map (fun seg => pascalCase (segmentText pascalCase seg))
                                  segments)
         ++ "ResponseType")%string)
  /\ getReponseDataTypeName pascalCaseModel
                            (endpoint "GET" "/api/customer/v1/region/listDwg")
     = "GetCustomerV1RegionListDwgResponseType"
  /\ getReponseDataTypeName pascalCaseModel
                            (endpoint "GET" "/api/system/v1/menu/query/{menuId}")
     = "GetSystemV1MenuQueryByMenuIdResponseType".
Proof.
  split; [| split; vm_compute; reflexivity].
  intros pascalCase interfaceInfo underApi segments Hpath Hok.
  unfold getReponseDataTypeName.
  now rewrite Hpath, (pathPart_template _ _ _ Hok).
Qed.

(** A [POST] to a path outside [/api] with a placeholder inside a segment. *)
Lemma response_type_name_follows_the_algorithm_witness :
  getReponseDataTypeName pascalCaseModel (endpoint "POST" "/order/item-{itemId}/cancel")
  = "PostOrderItemByItemIdCancelResponseType".
Proof.
  destruct response_type_name_follows_the_algorithm as [Htemplate _].
  apply (Htemplate pascalCaseModel (endpoint "POST" "/order/item-{itemId}/cancel") false
                   [ [Literal "order"]; [Literal "item-"; Placeholder "itemId"];
                     [Literal "cancel"] ]);
    reflexivity.
Defined.

Lemma pathPart_api_prefix (pascalCase : string -> string) (p : string) :
  dropPrefix "api/" (stripLeadingSlashes p) = None ->
  pathPart pascalCase ("/api/" ++ p) = pathPart pascalCase ("/" ++ p).
Proof.
  intros H. unfold pathPart.
  change (stripLeadingSlashes ("/api/" ++ p)) with ("api/" ++ p)%string.
  change (stripLeadingSlashes ("/" ++ p)) with (stripLeadingSlashes p).
  unfold stripApiPrefix. now rewrite dropPrefix_app, H.
Qed.

(** X23.  The names do not tell a path under [/api] from the same path
    without the prefix: two interfaces with the same method whose paths are
    [/api/p] and [/p] (where [p] does not itself start with [api/]) get
    the same function name and the same type names. *)
Theorem names_ignore_the_api_prefix
        (pascalCase : string -> string) (interfaceInfo interfaceInfo' : Interface)
        (p : string) :
  method interfaceInfo = method interfaceInfo' ->
  path interfaceInfo = ("/api/" ++ p)%string ->
  path interfaceInfo' = ("/" ++ p)%string ->
  dropPrefix "api/" (stripLeadingSlashes p) = None ->
  getRequestFunctionName pascalCase interfaceInfo
  = getRequestFunctionName pascalCase interfaceInfo'
  /\ getRequestDataTypeName pascalCase interfaceInfo
     = getRequestDataTypeName pascalCase interfaceInfo'
  /\ getReponseDataTypeName pascalCase interfaceInfo
     = getReponseDataTypeName pascalCase interfaceInfo'.
Proof.
  intros Hmethod Hpath Hpath' Hp.
  unfold getRequestFunctionName, getRequestDataTypeName, getReponseDataTypeName, methodOrGet.
  now rewrite Hmethod, Hpath, Hpath', (pathPart_api_prefix _ _ Hp).
Qed.

(** [GET /api/users] and [GET /users]. *)
Lemma names_ignore_the_api_prefix_witness :
  getRequestFunctionName pascalCaseModel (endpoint "GET" "/api/users")
  = getRequestFunctionName pascalCaseModel (endpoint "GET" "/users")
  /\ getRequestDataTypeName pascalCaseModel (endpoint "GET" "/api/users")
     = getRequestDataTypeName pascalCaseModel (endpoint "GET" "/users")
  /\ getReponseDataTypeName pascalCaseModel (endpoint "GET" "/api/users")
     = getReponseDataTypeName pascalCaseModel (endpoint "GET" "/users").
Proof.
  apply (@names_ignore_the_api_prefix
           pascalCaseModel (endpoint "GET" "/api/users") (endpoint "GET" "/users") "users");
    reflexivity.
Defined.

(** ** Sorting weight vectors of one length *)

Section SortAgreement.
Variable A : Type.
Variables comparator comparator' : A -> A -> Z * (A * A).
Variable P : A -> Prop.
Hypothesis comparator'_pure : forall x y, snd (comparator' x y) = (x, y).
Hypothesis comparators_agree : forall x y, P x -> P y -> comparator x y = comparator' x y.

Lemma sortInsert_agree (x : A) (l : list A) :
  P x -> Forall P l -> sortInsert comparator x l = sortInsert comparator' x l.
Proof.
  intros Hx Hl. induction Hl as [|y l Hy Hl IH]; [reflexivity|].
  cbn [sortInsert]. rewrite (comparators_agree Hx Hy).
  pose proof (comparator'_pure x y) as Hpure.
  destruct (comparator' x y) as [w [x' y']]. cbn [snd] in Hpure.
  injection Hpure as -> ->. now rewrite IH.
Qed.

Lemma Array_sort_agree (l : list A) :
  Forall P l -> Array_sort comparator l = Array_sort comparator' l.
Proof.
  induction 1 as [|x l Hx Hl IH]; [reflexivity|].
  unfold Array_sort in *. cbn [fold_right]. rewrite IH.
  apply sortInsert_agree; [exact Hx |].
  apply Forall_forall. intros y Hy.
  change (In y (Array_sort comparator' l)) in Hy.
  apply (proj1 (@Array_sort_In _ _ comparator'_pure l y)) in Hy.
  rewrite Forall_forall in Hl. now apply Hl.
Qed.

(** A list in which every element is followed by one it does not compare
    greater than is left as it is. *)
Lemma Array_sort_fixed (l : list A) :
  Sorted (fun a b => fst (comparator' a b) <= 0) l -> Array_sort comparator' l = l.
Proof.
  induction 1 as [|x l Hs IH Hhd]; [reflexivity|].
  unfold Array_sort in *. cbn [fold_right]. rewrite IH.
  destruct Hhd as [|y l' Hxy]; [reflexivity|].
  cbn [sortInsert]. pose proof (comparator'_pure x y) as Hpure.
  destruct (comparator' x y) as [w [x' y']]. cbn [fst snd] in *.
  injection Hpure as -> ->. apply Z.leb_le in Hxy. now rewrite Hxy.
Qed.
End SortAgreement.

Lemma pushZeros_none (T : Type) (a : Weighted T) : pushZeros a 0 = a.
Proof. destruct a as [w i]. unfold pushZeros. cbn. now rewrite app_nil_r. Qed.

Lemma compareWeights_equal_lengths (T : Type) (a b : Weighted T) :
  List.length (weights a) = List.length (weights b) ->
  compareWeights a b = weightOrder a b.
Proof.
  intros Hlen. unfold weightOrder, compareWeights. rewrite Hlen.
  rewrite Nat.ltb_irrefl, Nat.max_id, Nat.min_id, Nat.sub_diag, pushZeros_none.
  reflexivity.
Qed.

Lemma weightOrder_connex (T : Type) (x y : Weighted T) :
  0 < fst (weightOrder x y) -> fst (weightOrder y x) <= 0.
Proof.
  unfold weightOrder. cbn [fst]. intros Hpos.
  destruct (compareWeights_spec x y) as (_ & _ & _ & Hxy).
  destruct (compareWeights_spec y x) as (_ & _ & _ & Hyx).
  destruct (Z_le_gt_dec (fst (compareWeights y x)) 0) as [Hle | Hgt]; [exact Hle |].
  exfalso. apply (lexLt_asym (Hxy Hpos)). apply Hyx. lia.
Qed.

(** X24.  On weight vectors of one common length, the case of [generate]
    where every vector is made of four indices, the comparator pads
    nothing: [sortByWeights] returns a permutation of its input, a list in
    which no element is followed by a lexicographically smaller one is
    returned as it is, and sorting twice is sorting once. *)
Theorem sortByWeights_on_equal_lengths (T : Type) (n : nat) (l : list (Weighted T)) :
  Forall (fun x => List.length (weights x) = n) l ->
  Permutation (sortByWeights l) l
  /\ (Sorted notAfter l -> sortByWeights l = l)
  /\ sortByWeights (sortByWeights l) = sortByWeights l.
Proof.
  intros Hlen.
  assert (Hpure : forall x y : Weighted T, snd (weightOrder x y) = (x, y))
    by reflexivity.
  assert (Hagree : forall x y : Weighted T,
             List.length (weights x) = n -> List.length (weights y) = n ->
             compareWeights x y = weightOrder x y).
  { intros x y Hx Hy. apply compareWeights_equal_lengths. congruence. }
  assert (Hsame : forall l' : list (Weighted T),
             Forall (fun x => List.length (weights x) = n) l' ->
             sortByWeights l' = Array_sort weightOrder l').
  { intros l' Hl'. unfold sortByWeights.
    exact (@Array_sort_agree _ compareWeights weightOrder
                             (fun x => List.length (weights x) = n)
                             Hpure Hagree l' Hl'). }
  assert (Hfixed : forall l' : list (Weighted T),
             Sorted (fun a b => fst (weightOrder a b) <= 0) l' ->
             Array_sort weightOrder l' = l').
  { intros l' Hl'.
    exact (@Array_sort_fixed _ weightOrder Hpure l' Hl'). }
  rewrite (Hsame l Hlen). split; [apply (@Array_sort_perm _ _ Hpure) |]. split.
  - intros Hsorted. apply Hfixed.
    induction Hsorted as [|x l' Hs IH Hhd]; constructor.
    + apply IH. now inversion Hlen.
    + destruct Hhd as [|y l'' Hxy]; constructor.
      destruct (compareWeights_spec x y) as (_ & _ & _ & Hpos).
      destruct (Z_le_gt_dec (fst (weightOrder x y)) 0) as [Hle | Hgt]; [exact Hle |].
      exfalso. apply Hxy. apply Hpos. unfold weightOrder in Hgt. cbn [fst] in Hgt. lia.
  - rewrite Hsame.
    + apply Hfixed. apply (@Array_sort_Sorted _ _ Hpure (@weightOrder_connex T)).
    + apply Forall_forall. intros x Hx.
      apply (proj1 (@Array_sort_In _ _ Hpure l x)) in Hx.
      rewrite Forall_forall in Hlen. now apply Hlen.
Qed.

(** Three fragments of one category file, given in order. *)
Lemma sortByWeights_on_equal_lengths_witness :
  let l := [ {| weights := [0; 0; 1; 0]; item := "list" |};
             {| weights := [0; 0; 1; 1]; item := "detail" |};
             {| weights := [0; 1; 0; 0]; item := "other" |} ] in
  Permutation (sortByWeights l) l
  /\ (Sorted notAfter l -> sortByWeights l = l)
  /\ sortByWeights (sortByWeights l) = sortByWeights l.
Proof.
  intros l. apply (@sortByWeights_on_equal_lengths string 4%nat l).
  repeat constructor.
Defined.

(** ** The categories a configuration selects *)

(** X25.  The category ids [generate] works on are exactly the configured
    ids, extended by every category id of the project when [0] is among
    them, that no negative entry excludes and that name a category of the
    project.  None occurs twice, none is negative, and the list is ordered
    by the decimal spelling of the ids. *)
Theorem resolveCategoryIds_selects_known_ids (id : OneOrMore Z) (cats : list Category) :
  (forall x, In x (resolveCategoryIds id cats)
             <-> In x (expandedCategoryIds id cats)
                 /\ (forall n, In n (expandedCategoryIds id cats) -> n < 0 ->
                               Z.abs n <> Z.abs x)
                 /\ In x (map _id cats))
  /\ NoDup (resolveCategoryIds id cats)
  /\ (forall x, In x (resolveCategoryIds id cats) -> 0 <= x)
  /\ Sorted (fun a b => String.ltb (Number_toString b) (Number_toString a) = false)
            (resolveCategoryIds id cats).
Proof.
  split; [apply resolveCategoryIds_In |].
  split; [apply resolveCategoryIds_NoDup |].
  split; [| apply resolveCategoryIds_sorted_by_spelling].
  intros x Hx. apply resolveCategoryIds_In in Hx. destruct Hx as (Hin & Hexcluded & _).
  destruct (Z_lt_ge_dec x 0) as [Hneg | Hpos]; [| lia].
  exfalso. exact (Hexcluded x Hin Hneg eq_refl).
Qed.

(** Everything but category 3, in a project with categories 1, 3 and 12. *)
Lemma resolveCategoryIds_selects_known_ids_witness :
  let cats := [ {| _id := 1; catName := "user" |}; {| _id := 3; catName := "order" |};
                {| _id := 12; catName := "stock" |} ] in
  resolveCategoryIds (More [0; -3]) cats = [1; 12]
  /\ NoDup (resolveCategoryIds (More [0; -3]) cats)
  /\ forall x, In x (resolveCategoryIds (More [0; -3]) cats) -> 0 <= x.
Proof.
  intros cats.
  destruct (resolveCategoryIds_selects_known_ids (More [0; -3]) cats)
    as (_ & Hnodup & Hpos & _).
  split; [reflexivity |]. split; assumption.
Defined.

(** ** [dedent] *)


Lemma splitLines_no_break (text : string) :
  Forall (fun line => hasLineBreak line = false) (splitLines text).
Proof.
  induction text as [|c text IH]; cbn [splitLines]; [repeat constructor|].
  destruct (isLineBreak c) eqn:Hc; [constructor; [reflexivity | exact IH] |].
  destruct (splitLines text) as [|h t].
  - repeat constructor. cbn [hasLineBreak]. now rewrite Hc.
  - inversion IH as [|? ? Hh Ht]; subst. constructor; [| exact Ht].
    cbn [hasLineBreak]. now rewrite Hc, Hh.
Qed.

Lemma splitLines_line (line : string) :
  hasLineBreak line = false -> splitLines line = [line].
Proof.
  induction line as [|c line IH]; [reflexivity|]. cbn [hasLineBreak splitLines].
  intros H. apply orb_false_elim in H. destruct H as [Hc Hline].
  now rewrite Hc, (IH Hline).
Qed.

Lemma splitLines_app (line rest : string) :
  hasLineBreak line = false ->
  splitLines (line ++ newline ++ rest) = line :: splitLines rest.
Proof.
  induction line as [|c line IH]; [reflexivity|]. cbn [hasLineBreak].
  intros H. apply orb_false_elim in H. destruct H as [Hc Hline].
  change ((String c line ++ newline ++ rest)%string)
    with (String c (line ++ newline ++ rest)).
  cbn [splitLines]. now rewrite Hc, (IH Hline).
Qed.

Lemma splitLines_join (lines : list string) :
  lines <> [] ->
  Forall (fun line => hasLineBreak line = false) lines ->
  splitLines (join newline lines) = lines.
Proof.
  induction lines as [|line lines IH]; [congruence|]. intros _ Hall.
  inversion Hall as [|? ? Hline Hrest]; subst.
  destruct lines as [|next lines].
  - cbn [join]. now apply splitLines_line.
  - change (join newline (line :: next :: lines))
      with (line ++ newline ++ join newline (next :: lines))%string.
    rewrite splitLines_app by assumption. f_equal. apply IH; [discriminate | assumption].
Qed.

(** *** Lines and their leading white space *)


Lemma isBlankLine_cons (c : ascii) (line : string) :
  isBlankLine (String c line) = isSpace c && isBlankLine line.
Proof.
  unfold isBlankLine. cbn [leadingWhitespace]. destruct (isSpace c); reflexivity.
Qed.


(** Cutting off no more than the leading white space of a line that is
    not blank leaves a line that is not blank, with that much less leading
    white space. *)
Lemma dropChars_not_blank (n : nat) (line : string) :
  isBlankLine line = false ->
  (n <= String.length (leadingWhitespace line))%nat ->
  isBlankLine (dropChars n line) = false
  /\ String.length (leadingWhitespace (dropChars n line))
     = (String.length (leadingWhitespace line) - n)%nat.
Proof.
  revert line. induction n as [|n IH]; intros line Hblank Hn.
  - cbn [dropChars]. split; [exact Hblank | lia].
  - destruct line as [|c line]; [discriminate Hblank |].
    rewrite isBlankLine_cons in Hblank. cbn [leadingWhitespace] in Hn |- *.
    destruct (isSpace c); cbn [String.length] in Hn; [| lia].
    cbn [andb] in Hblank. cbn [dropChars String.length].
    apply IH; [exact Hblank | lia].
Qed.

Lemma dropChars_no_break (n : nat) (line : string) :
  hasLineBreak line = false -> hasLineBreak (dropChars n line) = false.
Proof.
  revert line. induction n as [|n IH]; intros line H; [exact H|].
  destruct line as [|c line]; [reflexivity|]. cbn [dropChars].
  cbn [hasLineBreak] in H. apply orb_false_elim in H. now apply IH.
Qed.

Lemma dropChars_none (line : string) : dropChars 0 line = line.
Proof. reflexivity. Qed.

(** *** What the loop finds *)

Lemma combine_snoc (A B : Type) (s : list A) (l : list B) (n : A) (x : B) :
  List.length s = List.length l ->
  combine (s ++ [n]) (l ++ [x]) = combine s l ++ [(n, x)].
Proof.
  revert l. induction s as [|i s IH]; intros [|y l] H; try discriminate H; [reflexivity|].
  cbn [app combine]. f_equal. apply IH. now injection H.
Qed.

Lemma indexed_snoc (A : Type) (l : list A) (x : A) :
  indexed (l ++ [x]) = indexed l ++ [(List.length l, x)].
Proof.
  unfold indexed. rewrite length_app. cbn [List.length].
  replace (List.length l + 1)%nat with (S (List.length l)) by lia.
  rewrite seq_S. cbn [plus]. apply combine_snoc. apply length_seq.
Qed.

Lemma scanLines_snoc (lines : list string) (line : string) :
  scanLines (lines ++ [line]) = scanLine (scanLines lines) (List.length lines, line).
Proof. unfold scanLines. now rewrite indexed_snoc, fold_left_app. Qed.

Lemma last_snoc (A : Type) (l : list A) (x d : A) : last (l ++ [x]) d = x.
Proof.
  induction l as [|y l IH]; [reflexivity|].
  cbn [app]. destruct (l ++ [x]) eqn:E; [now destruct l | exact IH].
Qed.

(** Either every line is blank and the loop sets nothing, or the lines
    are blank lines, then a stretch that starts and ends with a line that
    is not blank, then blank lines; the loop finds the stretch, and the
    shortest leading white space of its lines that are not blank. *)
Lemma scanLines_summary (lines : list string) :
  (Forall (fun line => isBlankLine line = true) lines
   /\ scanLines lines = {| commonLeadingWhitespace := None; firstLineIndex := None;
                           lastLineIndex := None |})
  \/ exists before middle after common,
      lines = before ++ middle ++ after
      /\ Forall (fun line => isBlankLine line = true) before
      /\ Forall (fun line => isBlankLine line = true) after
      /\ isBlankLine (hd EmptyString middle) = false
      /\ isBlankLine (last middle EmptyString) = false
      /\ scanLines lines
         = {| commonLeadingWhitespace := Some common;
              firstLineIndex := Some (List.length before);
              lastLineIndex := Some (List.length before + List.length middle - 1)%nat |}
      /\ (exists line, In line middle /\ isBlankLine line = false
                       /\ leadingWhitespace line = common)
      /\ (forall line, In line middle -> isBlankLine line = false ->
                       (String.length common <= String.length (leadingWhitespace line))%nat).
Proof.
  induction lines as [|line lines IH] using rev_ind; [left; now split |].
  rewrite scanLines_snoc. unfold scanLine. fold (isBlankLine line).
  destruct (isBlankLine line) eqn:Hline; cbn [negb].
  - destruct IH as [[Hall Hscan] | (before & middle & after & common & Hlines & Hb & Ha
                                    & Hhd & Hlast & Hscan & Hmin & Hle)].
    + left. split; [| exact Hscan].
      apply Forall_app. split; [exact Hall | now repeat constructor].
    + right. exists before, middle, (after ++ [line]), common.
      split; [now rewrite Hlines, <- !app_assoc |].
      split; [exact Hb |].
      split; [apply Forall_app; split; [exact Ha | now repeat constructor] |].
      now repeat split.
  - right.
    destruct IH as [[Hall Hscan] | (before & middle & after & common & Hlines & Hb & Ha
                                    & Hhd & Hlast & Hscan & Hmin & Hle)].
    + exists lines, [line], [], (leadingWhitespace line).
      rewrite Hscan. cbn [commonLeadingWhitespace firstLineIndex List.length hd last].
      split; [reflexivity |]. split; [exact Hall |]. split; [constructor |].
      split; [exact Hline |]. split; [exact Hline |].
      split; [now rewrite Nat.add_sub |].
      split; [exists line; repeat split; [now left | exact Hline] |].
      intros line' [<- | []] _. lia.
    + exists before, (middle ++ after ++ [line]), [].
      exists (if (String.length (leadingWhitespace line) <? String.length common)%nat
              then leadingWhitespace line else common).
      rewrite Hscan. cbn [commonLeadingWhitespace firstLineIndex].
      split; [now rewrite Hlines, app_nil_r, <- !app_assoc |].
      split; [exact Hb |]. split; [constructor |].
      split; [destruct middle; [discriminate Hhd | exact Hhd] |].
      split; [now rewrite app_assoc, last_snoc |].
      split.
      { assert (Hidx : List.length lines
                       = (List.length before + List.length (middle ++ after ++ [line]) - 1)%nat).
        { rewrite Hlines, !length_app. cbn [List.length]. lia. }
        rewrite <- Hidx.
        now destruct (String.length (leadingWhitespace line) <? String.length common)%nat. }
      destruct (String.length (leadingWhitespace line) <? String.length common)%nat eqn:Hlt.
      * apply Nat.ltb_lt in Hlt. split.
        -- exists line. repeat split; [| exact Hline].
           apply in_or_app. right. apply in_or_app. right. now left.
        -- intros line' Hin Hnb. apply in_app_or in Hin.
           destruct Hin as [Hin | Hin]; [specialize (Hle line' Hin Hnb); lia |].
           apply in_app_or in Hin. destruct Hin as [Hin | [<- | []]]; [| lia].
           rewrite Forall_forall in Ha. rewrite (Ha line' Hin) in Hnb. discriminate Hnb.
      * apply Nat.ltb_ge in Hlt. split.
        -- destruct Hmin as (line0 & Hin0 & Hnb0 & Hc0). exists line0.
           repeat split; [apply in_or_app; now left | exact Hnb0 | exact Hc0].
        -- intros line' Hin Hnb. apply in_app_or in Hin.
           destruct Hin as [Hin | Hin]; [exact (Hle line' Hin Hnb) |].
           apply in_app_or in Hin. destruct Hin as [Hin | [<- | []]]; [| exact Hlt].
           rewrite Forall_forall in Ha. rewrite (Ha line' Hin) in Hnb. discriminate Hnb.
Qed.

Lemma slice_middle (A : Type) (before middle after : list A) :
  middle <> [] ->
  firstn (S (List.length before + List.length middle - 1) - List.length before)
         (skipn (List.length before) (before ++ middle ++ after))
  = middle.
Proof.
  intros Hne.
  replace (S (List.length before + List.length middle - 1) - List.length before)%nat
    with (List.length middle)
    by (destruct middle; [contradiction | cbn [List.length]; lia]).
  rewrite skipn_app, skipn_all, Nat.sub_diag. cbn [skipn app].
  rewrite firstn_app, firstn_all, Nat.sub_diag. cbn [firstn]. apply app_nil_r.
Qed.

Lemma hd_map (f : string -> string) (l : list string) (d : string) :
  l <> [] -> hd d (map f l) = f (hd d l).
Proof. destruct l; [contradiction | reflexivity]. Qed.

Lemma last_map (f : string -> string) (l : list string) (d : string) :
  l <> [] -> last (map f l) d = f (last l d).
Proof.
  induction l as [|x l IH]; [contradiction|]. intros _.
  destruct l as [|y l]; [reflexivity|].
  change (last (map f (x :: y :: l)) d) with (last (map f (y :: l)) d).
  change (last (x :: y :: l) d) with (last (y :: l) d).
  apply IH. discriminate.
Qed.

Lemma last_app_r (A : Type) (l r : list A) (d : A) : r <> [] -> last (l ++ r) d = last r d.
Proof.
  intros Hr. induction l as [|x l IH]; [reflexivity|].
  cbn [app]. destruct (l ++ r) eqn:E; [| exact IH].
  apply app_eq_nil in E. now destruct E.
Qed.

Lemma hd_In (l : list string) (d : string) : l <> [] -> In (hd d l) l.
Proof. destruct l; [contradiction | intros _; now left]. Qed.

Lemma last_In (l : list string) (d : string) : l <> [] -> In (last l d) l.
Proof.
  induction l as [|x l IH]; [contradiction|]. intros _.
  destruct l as [|y l]; [now left |]. right. apply IH. discriminate.
Qed.

Lemma isBlankLine_empty_default (middle : list string) :
  isBlankLine (hd EmptyString middle) = false -> middle <> [].
Proof. destruct middle; [discriminate | discriminate]. Qed.

(** What [dedent] returns once the loop has found a stretch. *)
Lemma dedent_stretch (text : string) (before middle after : list string) (common : string) :
  splitLines text = before ++ middle ++ after ->
  middle <> [] ->
  scanLines (splitLines text)
  = {| commonLeadingWhitespace := Some common;
       firstLineIndex := Some (List.length before);
       lastLineIndex := Some (List.length before + List.length middle - 1)%nat |} ->
  dedent text = join newline (map (dropChars (String.length common)) middle).
Proof.
  intros Hlines Hne Hscan. unfold dedent. rewrite Hscan.
  cbn [commonLeadingWhitespace firstLineIndex lastLineIndex].
  now rewrite Hlines, slice_middle.
Qed.

(** X26.  [dedent] applied to a string is idempotent; a text whose lines
    are all blank is returned as it is; and the example of the
    documentation holds: [dedent(' a\n b')] is ['a\nb']. *)
Theorem dedent_idempotent (text : string) :
  dedent (dedent text) = dedent text
  /\ (Forall (fun line => isBlankLine line = true) (splitLines text) -> dedent text = text)
  /\ dedent (" a" ++ newline ++ " b") = ("a" ++ newline ++ "b")%string.
Proof.
  assert (Hblank : forall t, scanLines (splitLines t)
                             = {| commonLeadingWhitespace := None; firstLineIndex := None;
                                  lastLineIndex := None |} -> dedent t = t).
  { intros t Hscan. unfold dedent. now rewrite Hscan. }
  split; [| split; [| reflexivity]].
  - destruct (scanLines_summary (splitLines text))
      as [[_ Hscan] | (before & middle & after & common & Hlines & _ & _
                       & Hhd & Hlast & Hscan & (line0 & Hin0 & Hnb0 & Hc0) & Hle)].
    { rewrite (Hblank text Hscan). exact (Hblank text Hscan). }
    pose proof (@isBlankLine_empty_default _ Hhd) as Hne.
    rewrite (@dedent_stretch text _ _ _ _ Hlines Hne Hscan).
    set (m := String.length common).
    set (R := map (dropChars m) middle).
    assert (HRne : R <> []) by (subst R; destruct middle; [contradiction | discriminate]).
    assert (Hcut : forall line, In line middle -> isBlankLine line = false ->
                                isBlankLine (dropChars m line) = false
                                /\ String.length (leadingWhitespace (dropChars m line))
                                   = (String.length (leadingWhitespace line) - m)%nat).
    { intros line Hin Hnb. apply dropChars_not_blank; [exact Hnb | now apply Hle]. }
    assert (HRbreak : Forall (fun line => hasLineBreak line = false) R).
    { subst R. apply Forall_map. pose proof (splitLines_no_break text) as Hall.
      rewrite Hlines in Hall. apply Forall_app in Hall. destruct Hall as [_ Hall].
      apply Forall_app in Hall. destruct Hall as [Hall _].
      eapply Forall_impl; [| exact Hall]. intros line. apply dropChars_no_break. }
    assert (HRhd : isBlankLine (hd EmptyString R) = false).
    { subst R. rewrite hd_map by assumption. apply Hcut; [now apply hd_In | exact Hhd]. }
    assert (HRlast : isBlankLine (last R EmptyString) = false).
    { subst R. rewrite last_map by assumption. apply Hcut; [now apply last_In | exact Hlast]. }
    pose proof (splitLines_join HRne HRbreak) as Hsplit.
    destruct (scanLines_summary R)
      as [[Hall _] | (before' & middle' & after' & common' & HR & Hb' & Ha'
                      & Hhd' & Hlast' & Hscan' & _ & Hle')].
    { exfalso. destruct R as [|r R']; [contradiction |].
      inversion Hall as [|? ? Hr _]; subst. cbn [hd] in HRhd. congruence. }
    pose proof (@isBlankLine_empty_default _ Hhd') as Hne'.
    assert (Hbefore : before' = []).
    { destruct before' as [|b before'']; [reflexivity |]. exfalso.
      rewrite HR in HRhd. cbn [app hd] in HRhd.
      inversion Hb' as [|? ? Hbb _]; subst. congruence. }
    assert (Hafter : after' = []).
    { destruct after' as [|a after'']; [reflexivity |]. exfalso.
      rewrite HR, app_assoc, last_app_r in HRlast by discriminate.
      rewrite Forall_forall in Ha'.
      rewrite (Ha' (last (a :: after'') EmptyString)) in HRlast; [discriminate HRlast |].
      apply last_In. discriminate. }
    subst before' after'. cbn [app] in HR. rewrite app_nil_r in HR. subst middle'.
    assert (Hzero : String.length common' = 0%nat).
    { assert (Hin : In (dropChars m line0) R) by (subst R; now apply in_map).
      destruct (Hcut line0 Hin0 Hnb0) as [Hnb Hlen].
      specialize (Hle' _ Hin Hnb). rewrite Hlen, Hc0 in Hle'. subst m. lia. }
    assert (Hsecond : dedent (join newline R)
                      = join newline (map (dropChars (String.length common')) R)).
    { apply (@dedent_stretch (join newline R) [] R [] common').
      - rewrite Hsplit. cbn [app]. now rewrite app_nil_r.
      - exact HRne.
      - rewrite Hsplit. exact Hscan'. }
    rewrite Hsecond, Hzero. f_equal. rewrite <- (map_id R) at 2.
    apply map_ext. intros line. apply dropChars_none.
  - intros Hall.
    destruct (scanLines_summary (splitLines text))
      as [[_ Hscan] | (before & middle & after & common & Hlines & _ & _
                       & Hhd & _)].
    { exact (Hblank text Hscan). }
    exfalso. pose proof (@isBlankLine_empty_default _ Hhd) as Hne.
    rewrite Hlines in Hall. apply Forall_app in Hall. destruct Hall as [_ Hall].
    apply Forall_app in Hall. destruct Hall as [Hall _].
    rewrite Forall_forall in Hall.
    rewrite (Hall _ (hd_In EmptyString Hne)) in Hhd. discriminate Hhd.
Qed.

(** ** From the adapter to the interface list of a category *)

Lemma filter_head_holds (A : Type) (f : A -> bool) (l : list A) (x : A) (rest : list A) :
  filter f l = x :: rest -> f x = true.
Proof.
  intros H. assert (Hin : In x (filter f l)) by (rewrite H; now left).
  now apply filter_In in Hin.
Qed.

(** X27.  Served by the adapter, the interface list of a category id is
    the list of all interfaces that carry this category id, in their
    order and with the base path put before their paths, when the project
    has a category of that id, and empty otherwise; so an interface whose
    category id names no category is never listed. *)
Theorem fetchInterfaceList_over_the_adapter
        (basepath : string) (cats : list Category) (interfaces : list ExportedInterface)
        (id : Z) :
  fetchInterfaceList (fetchExport basepath (exportBody cats interfaces)) id
  = if existsb (fun cat => _id cat =? id) cats
    then map (withBasePath basepath) (filter (fun item => catid item =? id) interfaces)
    else [].
Proof.
  unfold fetchInterfaceList, fetchExport, exportBody. rewrite map_map. cbn [fst snd].
  induction cats as [|cat cats IH]; [reflexivity|].
  cbn [map find existsb fst snd].
  destruct (_id cat =? id) eqn:Hid.
  - apply Z.eqb_eq in Hid. rewrite Hid. cbn [orb].
    destruct (filter (fun item => catid item =? id) interfaces) as [|first rest] eqn:Hf.
    + cbn [map]. rewrite IH. now destruct (existsb _ cats).
    + cbn [map withBasePath catid]. now rewrite (filter_head_holds _ _ Hf).
  - cbn [orb].
    destruct (filter (fun item => catid item =? _id cat) interfaces) as [|first rest] eqn:Hf.
    + cbn [map]. exact IH.
    + cbn [map withBasePath catid].
      pose proof (filter_head_holds _ _ Hf) as Hfirst. cbn beta in Hfirst.
      apply Z.eqb_eq in Hfirst. rewrite Hfirst, Hid. exact IH.
Qed.

(** Two categories and an interface that belongs to neither. *)
Lemma fetchInterfaceList_over_the_adapter_witness :
  let cats := [ {| _id := 7; catName := "user" |}; {| _id := 9; catName := "order" |} ] in
  let interfaces :=
    [ {| interface_id := 1; catid := 9; interface_path := "/order/list" |};
      {| interface_id := 2; catid := 5; interface_path := "/lost" |};
      {| interface_id := 3; catid := 9; interface_path := "/order/{id}" |} ] in
  fetchInterfaceList (fetchExport "/shop" (exportBody cats interfaces)) 9
  = [ {| interface_id := 1; catid := 9; interface_path := "/shop/order/list" |};
      {| interface_id := 3; catid := 9; interface_path := "/shop/order/{id}" |} ]
  /\ fetchInterfaceList (fetchExport "/shop" (exportBody cats interfaces)) 5 = [].
Proof.
  intros cats interfaces. split.
  - rewrite (fetchInterfaceList_over_the_adapter "/shop" cats interfaces 9). reflexivity.
  - rewrite (fetchInterfaceList_over_the_adapter "/shop" cats interfaces 5). reflexivity.
Defined.
